(** * pyNeuroML: SWC <-> NeuroML morphology conversion

    A shallow embedding of [pyneuroml/swc/ExportNML.py] (class
    [NeuroMLWriter]: point tree to segments and segment groups) and of
    [pyneuroml/swc/ExportSWC.py] (segments back to SWC lines), followed by
    the properties of the two converters.

    Conventions of the embedding:
    - Python dictionaries are [gmap]s, Python sets are [gset]s, Python
      lists are lists;
    - the attributes of the writer object that the methods mutate are the
      fields of the record [NeuroMLWriter]; a method is a function from
      the state before the call to the outcome of the call;
    - an outcome is either a normal return or a raised exception, both
      with the state reached (Python mutates in place, so the state at a
      raise is the partially updated one);
    - coordinates and radii are Python floats in the source.  The code only
      copies them, doubles or halves them and compares them, so they are
      rationals here;
    - Python bounds the depth of the call stack.  The traversal is the one
      method that calls itself, so it takes the room the interpreter has
      for nested calls as an argument and raises RecursionError past it. *)

From Stdlib Require Import ZArith QArith Qabs Lqa Lia Ascii String.
From stdpp Require Import gmap strings pretty list sorting.
Close Scope Q_scope.
Open Scope Z_scope.
#[local] Set Warnings "-clear-no-such-hyp".

(** ** Exceptions and outcomes *)

(** The exceptions the two modules can raise.  The source raises the
    builtin [ValueError], [IndexError], [KeyError], [AttributeError] and,
    in ExportSWC.py, two plain [Exception]s told apart by their message;
    those two carry the names the specification gives them.  The
    interpreter raises [RecursionError] at a call that would nest deeper
    than it allows. *)
Inductive exn : Type :=
  | IndexError
  | KeyError
  | AttributeError
  | RecursionError
  | NoSomaFoundError              (* ValueError: min() arg is an empty sequence *)
  | UnsupportedAttachmentError    (* Exception("Can't handle case where ...") *)
  | IncompleteGroupCoverageError. (* Exception("The numbers of the segments ...") *)

Inductive outcome (S A : Type) : Type :=
  | Ok (a : A) (s : S)
  | Raise (e : exn) (s : S).
Arguments Ok {S A} a s.
Arguments Raise {S A} e s.

Definition M (S A : Type) : Type := S -> outcome S A.

Definition ret {S A} (a : A) : M S A := fun s => Ok a s.
Definition raise {S A} (e : exn) : M S A := fun s => Raise e s.
Definition bind {S A B} (m : M S A) (k : A -> M S B) : M S B :=
  fun s => match m s with
           | Ok a s' => k a s'
           | Raise e s' => Raise e s'
           end.
Definition get {S} : M S S := fun s => Ok s s.
Definition modify {S} (f : S -> S) : M S unit := fun s => Ok tt (f s).

Declare Scope m_scope.
Delimit Scope m_scope with M.
Notation "'let*' x ':=' m 'in' k" := (bind m (fun x => k))
  (at level 10, x name, m at level 100, k at level 200) : m_scope.

Definition final_state {S A} (o : outcome S A) : S :=
  match o with Ok _ s => s | Raise _ s => s end.

Definition returns {S A} (o : outcome S A) : bool :=
  match o with Ok _ _ => true | Raise _ _ => false end.

(** ** The point tree (LoadSWC.SWCNode, LoadSWC.SWCGraph) *)

(** Modelled from the spec: LoadSWC.py is not among the sources.  A node
    carries id, type code, position, radius, parent id and the list of its
    child nodes (the attribute [children] that ExportNML.py reads); type
    codes are the naturals 0 = undefined, 1 = soma, 2 = axon, 3 = basal
    dendrite, 4 = apical dendrite, 5 and above = custom. *)
#[warnings="-register-all"]
Inductive SWCNode : Type := mkSWCNode {
  node_id : Z;
  node_type : N;
  node_x : Q;
  node_y : Q;
  node_z : Q;
  node_radius : Q;
  node_parent_id : Z;
  children : list SWCNode
}.

Definition UNDEFINED : N := 0.
Definition SOMA : N := 1.
Definition AXON : N := 2.
Definition BASAL_DENDRITE : N := 3.
Definition APICAL_DENDRITE : N := 4.

(** Modelled from the spec: [SWCNode.__eq__] is not among the sources; node
    ids are unique in a graph, so two node objects are the same node when
    their ids agree. *)
Definition node_eqb (a b : SWCNode) : bool := bool_decide (node_id a = node_id b).

(** Structural induction through the child lists. *)
Fixpoint SWCNode_tree_ind (P : SWCNode -> Prop)
    (step : forall i t x y z r p cs, Forall P cs -> P (mkSWCNode i t x y z r p cs))
    (n : SWCNode) {struct n} : P n :=
  match n with
  | mkSWCNode i t x y z r p cs =>
      step i t x y z r p cs
        ((fix all (l : list SWCNode) : Forall P l :=
            match l with
            | [] => List.Forall_nil P
            | c :: l' => @List.Forall_cons _ P c l' (SWCNode_tree_ind P step c) (all l')
            end) cs)
  end.

(** ** The segment model (neuroml.Segment and friends) *)

Record Point3DWithDiam : Type := mkPoint {
  px : Q;
  py : Q;
  pz : Q;
  diameter : Q
}.

(** [SegmentParent(segments=...)]; libNeuroML's default for
    [fraction_along] is 1. *)
Record SegmentParent : Type := mkSegmentParent {
  parent_segments : Z;
  fraction_along : Q
}.

Record Segment : Type := mkSegment {
  seg_id : Z;
  seg_name : string;
  parent : option SegmentParent;
  proximal : option Point3DWithDiam;
  distal : option Point3DWithDiam
}.

Record SegmentGroup : Type := mkSegmentGroup {
  group_id : string;
  members : list Z
}.

(** [Point3DWithDiam(x=p.x, y=p.y, z=p.z, diameter=2 * p.radius)] *)
Definition point_of (p : SWCNode) : Point3DWithDiam :=
  mkPoint (node_x p) (node_y p) (node_z p) (2 * node_radius p)%Q.

Definition default_parent (sid : Z) : SegmentParent := mkSegmentParent sid 1%Q.

(** ** ExportNML.NeuroMLWriter: the object state *)

(** The header of the [Cell] made by [create_cell]. *)
Record CellHeader : Type := mkCellHeader {
  cell_id : string;
  cell_notes : string;
  morphology_id : string
}.

(** The attributes of a [NeuroMLWriter].  [segments] is
    [self.cell.morphology.segments], [morph_segment_groups] is
    [self.cell.morphology.segment_groups] and [properties] is
    [self.cell.properties]: the methods that append to them run, in the
    source, only from [nml_string] after [create_cell].  [nml_doc] holds
    the id of the document once it is made. *)
Record NeuroMLWriter : Type := mkWriter {
  points : list SWCNode;
  morphology_origin : string;
  cell : option CellHeader;
  segments : list Segment;
  morph_segment_groups : list SegmentGroup;
  properties : list (string * string);
  point_indices_vs_seg_ids : gmap Z Z;
  next_segment_id : Z;
  processed_nodes : gset Z;
  segment_types : gmap Z N;
  segment_groups : gmap string (gset Z);
  nml_doc : option string
}.

Definition section_types : list string :=
  ["undefined"; "soma"; "axon"; "basal dendrite"; "apical dendrite"].

Definition group_names : list string :=
  ["all"; "soma_group"; "axon_group"; "dendrite_group";
   "basal_dendrite"; "apical_dendrite"].

(** [NeuroMLWriter.__init__]; [origin] is
    [swc_graph.metadata.get("ORIGINAL_SOURCE", "Unknown")]. *)
Definition init_writer (nodes : list SWCNode) (origin : string) : NeuroMLWriter :=
  {| points := nodes;
     morphology_origin := origin;
     cell := None;
     segments := [];
     morph_segment_groups := [];
     properties := [];
     point_indices_vs_seg_ids := ∅;
     next_segment_id := 0;
     processed_nodes := ∅;
     segment_types := ∅;
     segment_groups := list_to_map ((fun g => (g, ∅)) <$> group_names);
     nml_doc := None |}.

(** Field updates. *)
Definition set_segments (f : list Segment -> list Segment) (w : NeuroMLWriter) :=
  mkWriter (points w) (morphology_origin w) (cell w) (f (segments w))
    (morph_segment_groups w) (properties w) (point_indices_vs_seg_ids w)
    (next_segment_id w) (processed_nodes w) (segment_types w) (segment_groups w) (nml_doc w).

Definition set_point_indices (f : gmap Z Z -> gmap Z Z) (w : NeuroMLWriter) :=
  mkWriter (points w) (morphology_origin w) (cell w) (segments w)
    (morph_segment_groups w) (properties w) (f (point_indices_vs_seg_ids w))
    (next_segment_id w) (processed_nodes w) (segment_types w) (segment_groups w) (nml_doc w).

Definition set_next_segment_id (f : Z -> Z) (w : NeuroMLWriter) :=
  mkWriter (points w) (morphology_origin w) (cell w) (segments w)
    (morph_segment_groups w) (properties w) (point_indices_vs_seg_ids w)
    (f (next_segment_id w)) (processed_nodes w) (segment_types w) (segment_groups w) (nml_doc w).

Definition set_processed (f : gset Z -> gset Z) (w : NeuroMLWriter) :=
  mkWriter (points w) (morphology_origin w) (cell w) (segments w)
    (morph_segment_groups w) (properties w) (point_indices_vs_seg_ids w)
    (next_segment_id w) (f (processed_nodes w)) (segment_types w) (segment_groups w) (nml_doc w).

Definition set_segment_types (f : gmap Z N -> gmap Z N) (w : NeuroMLWriter) :=
  mkWriter (points w) (morphology_origin w) (cell w) (segments w)
    (morph_segment_groups w) (properties w) (point_indices_vs_seg_ids w)
    (next_segment_id w) (processed_nodes w) (f (segment_types w)) (segment_groups w) (nml_doc w).

Definition set_segment_groups
    (f : gmap string (gset Z) -> gmap string (gset Z)) (w : NeuroMLWriter) :=
  mkWriter (points w) (morphology_origin w) (cell w) (segments w)
    (morph_segment_groups w) (properties w) (point_indices_vs_seg_ids w)
    (next_segment_id w) (processed_nodes w) (segment_types w) (f (segment_groups w)) (nml_doc w).

Definition set_cell (c : option CellHeader) (w : NeuroMLWriter) :=
  mkWriter (points w) (morphology_origin w) c (segments w)
    (morph_segment_groups w) (properties w) (point_indices_vs_seg_ids w)
    (next_segment_id w) (processed_nodes w) (segment_types w) (segment_groups w) (nml_doc w).

Definition set_nml_doc (d : option string) (w : NeuroMLWriter) :=
  mkWriter (points w) (morphology_origin w) (cell w) (segments w)
    (morph_segment_groups w) (properties w) (point_indices_vs_seg_ids w)
    (next_segment_id w) (processed_nodes w) (segment_types w) (segment_groups w) d.

Definition set_morph_groups (f : list SegmentGroup -> list SegmentGroup)
    (w : NeuroMLWriter) :=
  mkWriter (points w) (morphology_origin w) (cell w) (segments w)
    (f (morph_segment_groups w)) (properties w) (point_indices_vs_seg_ids w)
    (next_segment_id w) (processed_nodes w) (segment_types w) (segment_groups w) (nml_doc w).

Definition set_properties (f : list (string * string) -> list (string * string))
    (w : NeuroMLWriter) :=
  mkWriter (points w) (morphology_origin w) (cell w) (segments w)
    (morph_segment_groups w) (f (properties w)) (point_indices_vs_seg_ids w)
    (next_segment_id w) (processed_nodes w) (segment_types w) (segment_groups w) (nml_doc w).

(** ** Groups *)

(** [get_groups_for_type] *)
Definition get_groups_for_type (segment_type : N) : list string :=
  let groups := ["all"] in
  if (segment_type =? SOMA)%N then groups ++ ["soma_group"]
  else if (segment_type =? AXON)%N then groups ++ ["axon_group"]
  else if (segment_type =? BASAL_DENDRITE)%N
       then groups ++ ["basal_dendrite"; "dendrite_group"]
  else if (segment_type =? APICAL_DENDRITE)%N
       then groups ++ ["apical_dendrite"; "dendrite_group"]
  else if (5 <=? segment_type)%N then groups ++ ["dendrite_group"]
  else groups.

(** [self.segment_groups[group].add(seg_id)]: the six keys are put in by
    [__init__] and never removed, so the lookup always finds its set. *)
Definition group_add (sid : Z) (m : gmap string (gset Z)) (group : string) :
    gmap string (gset Z) :=
  alter (fun s => s ∪ {[sid]}) group m.

(** [add_segment_to_groups] *)
Definition add_segment_to_groups (sid : Z) (segment_type : N)
    (w : NeuroMLWriter) : NeuroMLWriter :=
  set_segment_groups
    (fun m => foldl (group_add sid) m (get_groups_for_type segment_type)) w.

(** Membership of a segment id in a named group of the writer. *)
Definition in_group (w : NeuroMLWriter) (group : string) (sid : Z) : Prop :=
  exists s, segment_groups w !! group = Some s /\ sid ∈ s.

(** ** Segment creation *)

(** The four statements every branch that makes a segment ends with:
    [self.cell.morphology.segments.append(segment)],
    [self.point_indices_vs_seg_ids[pid] = sid],
    [self.segment_types[sid] = segment_type],
    [self.add_segment_to_groups(sid, segment_type)]. *)
Definition record_segment (segment : Segment) (pid : Z) (sid : Z)
    (segment_type : N) (w : NeuroMLWriter) : NeuroMLWriter :=
  add_segment_to_groups sid segment_type
    (set_segment_types (insert sid segment_type)
       (set_point_indices (insert pid sid)
          (set_segments (fun l => l ++ [segment]) w))).

Definition mark_processed (pid : Z) (w : NeuroMLWriter) : NeuroMLWriter :=
  set_processed (fun s => s ∪ {[pid]}) w.

(** [self.section_types[t] if t < len(self.section_types) else f"type_{t}"] *)
Definition segment_type_name (t : N) : string :=
  match section_types !! N.to_nat t with
  | Some s => s
  | None => "type_" +:+ pretty t
  end.

(** [create_segment].  The argument [new_branch] is not read by the body
    of the source function either. *)
Definition create_segment (this_point parent_point : SWCNode) (new_branch : bool)
    (w : NeuroMLWriter) : NeuroMLWriter :=
  let sid := next_segment_id w in
  let w := set_next_segment_id (fun n => n + 1) w in
  let name := segment_type_name (node_type this_point) +:+ "_Seg_" +:+ pretty sid in
  let is_branch_point := bool_decide (1 < length (children parent_point))%nat in
  let is_type_change := negb (node_type this_point =? node_type parent_point)%N in
  let seg_parent :=
    match point_indices_vs_seg_ids w !! node_id parent_point with
    | Some parent_seg_id => Some (default_parent parent_seg_id)
    | None => None
    end in
  let segment :=
    if is_type_change then
      mkSegment sid name seg_parent
        (Some (point_of this_point))
        (match children this_point with
         | next_point :: _ => Some (point_of next_point)
         | [] => Some (point_of this_point)
         end)
    else if is_branch_point then
      mkSegment sid name seg_parent
        (Some (point_of parent_point)) (Some (point_of this_point))
    else if bool_decide (node_id this_point ∉ processed_nodes w) then
      mkSegment sid name seg_parent None (Some (point_of this_point))
    else
      mkSegment sid name seg_parent None None in
  mark_processed (node_id this_point)
    (record_segment segment (node_id this_point) sid (node_type this_point) w).

(** ** The soma handler *)

(** [sorted(soma_points, key=lambda p: p.x)]: Python's sort is stable, so
    is this insertion sort (a node goes before the first node of the
    sorted rest whose x is not smaller). *)
Fixpoint insert_by_x (p : SWCNode) (l : list SWCNode) : list SWCNode :=
  match l with
  | [] => [p]
  | q :: l' => if Qle_bool (node_x p) (node_x q) then p :: q :: l'
               else q :: insert_by_x p l'
  end.

Definition sorted_by_x (l : list SWCNode) : list SWCNode :=
  foldr insert_by_x [] l.

(** [[p for p in self.points if p.type == SWCNode.SOMA]] *)
Definition soma_points_of (pts : list SWCNode) : list SWCNode :=
  filter (fun p => node_type p = SOMA) pts.

(** The first branch of [handle_soma], taken for the first of three soma
    points: two segments. *)
Definition three_point_soma (this_point middle_point end_point : SWCNode)
    (w : NeuroMLWriter) : NeuroMLWriter :=
  let sid := next_segment_id w in
  let segment :=
    mkSegment sid ("Seg_" +:+ pretty sid) None
      (Some (point_of middle_point)) (Some (point_of this_point)) in
  let w := record_segment segment (node_id this_point) sid SOMA w in
  let w := set_next_segment_id (fun n => n + 1) w in
  let sid := next_segment_id w in
  let segment :=
    mkSegment sid ("Seg_" +:+ pretty sid) (Some (default_parent (sid - 1)))
      None (Some (point_of end_point)) in
  let w := record_segment segment (node_id end_point) sid SOMA w in
  set_next_segment_id (fun n => n + 1) w.

(** The second branch of [handle_soma]: one segment whose two ends are the
    point itself. *)
Definition single_point_soma (this_point : SWCNode) (w : NeuroMLWriter) :
    NeuroMLWriter :=
  let sid := next_segment_id w in
  let segment :=
    mkSegment sid ("soma_Seg_" +:+ pretty sid) None
      (Some (point_of this_point)) (Some (point_of this_point)) in
  let w := record_segment segment (node_id this_point) sid SOMA w in
  set_next_segment_id (fun n => n + 1) w.

(** The loop [for i, current_point in enumerate(sorted_soma_points)] of the
    third branch, from index [i] on; [rest] is [sorted_soma_points[i:]], so
    [i < len(sorted_soma_points) - 1] holds exactly when a point follows the
    current one, and that point is [sorted_soma_points[i + 1]]. *)
Fixpoint multi_point_soma (i : nat) (rest : list SWCNode) (w : NeuroMLWriter) :
    NeuroMLWriter :=
  match rest with
  | [] => w
  | current_point :: rest' =>
      let w :=
        if decide (node_id current_point ∈ processed_nodes w) then w
        else
          let sid := next_segment_id w in
          let segment :=
            mkSegment sid ("soma_Seg_" +:+ pretty sid)
              (if (i =? 0)%nat then None else Some (default_parent (sid - 1)))
              (if (i =? 0)%nat then Some (point_of current_point) else None)
              (match rest' with
               | next_point :: _ => Some (point_of next_point)
               | [] => Some (point_of current_point)
               end) in
          let w := record_segment segment (node_id current_point) sid SOMA w in
          let w := mark_processed (node_id current_point) w in
          set_next_segment_id (fun n => n + 1) w in
      multi_point_soma (S i) rest' w
  end.

(** [handle_soma] *)
Definition handle_soma (this_point parent_point : SWCNode) :
    M NeuroMLWriter unit :=
  fun w =>
  if decide (node_id this_point ∈ processed_nodes w) then Ok tt w
  else
    let soma_points := soma_points_of (points w) in
    match soma_points with
    | [first_point; middle_point; end_point] =>
        if bool_decide (node_id this_point = node_id first_point) then
          Ok tt (mark_processed (node_id this_point)
                   (three_point_soma this_point middle_point end_point w))
        else
          Ok tt (mark_processed (node_id this_point) w)
    | [_] =>
        Ok tt (mark_processed (node_id this_point) (single_point_soma this_point w))
    | _ =>
        let sorted_soma_points := sorted_by_x soma_points in
        match sorted_soma_points with
        | [] => Raise IndexError w
        | lowest :: _ =>
            if node_eqb this_point lowest then
              Ok tt (mark_processed (node_id this_point)
                       (multi_point_soma 0 sorted_soma_points w))
            else
              Ok tt (mark_processed (node_id this_point) w)
        end
    end.

(** ** The traversal *)

(** [for child_point in this_point.children:
       if child_point.id not in self.processed_nodes: visit(child_point)] *)
Definition for_each_child (visit : SWCNode -> M NeuroMLWriter unit) :
    list SWCNode -> M NeuroMLWriter unit :=
  fix loop (cs : list SWCNode) (w : NeuroMLWriter) : outcome NeuroMLWriter unit :=
    match cs with
    | [] => Ok tt w
    | child_point :: cs' =>
        if decide (node_id child_point ∈ processed_nodes w) then loop cs' w
        else match visit child_point w with
             | Ok _ w' => loop cs' w'
             | Raise e w' => Raise e w'
             end
    end.

(** The body of [parse_tree] up to the loop over the children. *)
Definition visit_point (parent_point this_point : SWCNode) :
    M NeuroMLWriter unit :=
  fun w =>
  let type_change := negb (node_type this_point =? node_type parent_point)%N in
  let new_branch := bool_decide (1 < length (children parent_point))%nat in
  let o :=
    if (node_type this_point =? SOMA)%N then handle_soma this_point parent_point w
    else if decide (node_id this_point ∈ processed_nodes w) then Ok tt w
    else Ok tt (mark_processed (node_id this_point)
                  (create_segment this_point parent_point
                     (new_branch || type_change) w)) in
  match o with
  | Ok _ w' => Ok tt (mark_processed (node_id this_point) w')
  | Raise e w' => Raise e w'
  end.

(** [parse_tree].  The method calls itself once per level of the tree,
    and Python bounds the depth of the call stack: [depth] is the number of
    further nested calls of [parse_tree] the interpreter has room for (each
    with the calls it makes itself).  With no room left, the call
    [self.parse_tree(this_point, child_point)] raises RecursionError where
    it is made; nothing in the module catches it. *)
Fixpoint parse_tree (depth : nat) (parent_point this_point : SWCNode)
    (w : NeuroMLWriter) {struct this_point} : outcome NeuroMLWriter unit :=
  if decide (node_id this_point ∈ processed_nodes w) then Ok tt w
  else
    match visit_point parent_point this_point w with
    | Ok _ w' =>
        for_each_child
          (fun child_point =>
             match depth with
             | O => raise RecursionError
             | S depth' => parse_tree depth' this_point child_point
             end)
          (children this_point) w'
    | Raise e w' => Raise e w'
    end.

(** The call [self.parse_tree(this_point, child_point)] inside
    [parse_tree], with room for [depth] nested calls. *)
Definition parse_child (depth : nat) (this_point child_point : SWCNode) :
    M NeuroMLWriter unit :=
  match depth with
  | O => raise RecursionError
  | S depth' => parse_tree depth' this_point child_point
  end.

(** [find_start_point]; [self.points[0]] raises on an empty list. *)
Definition find_start_point : M NeuroMLWriter SWCNode :=
  fun w =>
  match soma_points_of (points w) with
  | point :: _ => Ok point w
  | [] => match points w with
          | point :: _ => Ok point w
          | [] => Raise IndexError w
          end
  end.

(** ** Cell creation and segment groups *)

(** Python string helpers used by [get_cell_name] and [nml_string].  A
    string is the sequence of its characters as bytes, and the helpers are
    those of Python on ASCII text: there [str.lower] moves A-Z only and
    [str.isdigit] holds of 0-9 only.  On other text Python's [isdigit] also
    holds of further Unicode digits; [ascii_text] is the domain on which
    [get_cell_name] below is the name the source computes. *)
Definition lower_ascii (c : ascii) : ascii :=
  let n := nat_of_ascii c in
  if ((65 <=? n) && (n <=? 90))%nat then ascii_of_nat (n + 32) else c.

Fixpoint lower (s : string) : string :=
  match s with
  | EmptyString => EmptyString
  | String c s' => String (lower_ascii c) (lower s')
  end.

Definition isdigit (c : ascii) : bool :=
  let n := nat_of_ascii c in ((48 <=? n) && (n <=? 57))%nat.

Definition ascii_text (s : string) : bool :=
  forallb (fun c => (nat_of_ascii c <? 128)%nat) (list_ascii_of_string s).

(** [s.split(sep)[-1]] for a one-character separator: what follows the
    last separator. *)
Fixpoint after_last (sep : ascii) (s : string) : string :=
  match s with
  | EmptyString => EmptyString
  | String c s' =>
      if existsb (Ascii.eqb sep) (list_ascii_of_string s') then after_last sep s'
      else if Ascii.eqb c sep then s' else s
  end.

(** [s.replace(old, new)] for a non-empty [old]. *)
Fixpoint replace_fuel (fuel : nat) (old new s : string) : string :=
  match fuel with
  | O => s
  | S fuel' =>
      if String.prefix old s then
        new +:+ replace_fuel fuel' old new
                  (String.substring (String.length old)
                     (String.length s - String.length old) s)
      else match s with
           | EmptyString => EmptyString
           | String c s' => String c (replace_fuel fuel' old new s')
           end
  end.

Definition replace (old new s : string) : string :=
  replace_fuel (S (String.length s)) old new s.

(** [get_cell_name]; indexing the empty name raises, the handler logs, and
    the name stays as computed. *)
Definition get_cell_name (w : NeuroMLWriter) : string :=
  let cell_name :=
    replace "-" "_" (replace "." "_" (replace ".swc" ""
      (after_last "/" (morphology_origin w)))) in
  match cell_name with
  | String c _ => if isdigit c then "Cell_" +:+ cell_name else cell_name
  | EmptyString => cell_name
  end.

(** [create_cell] *)
Definition create_cell (w : NeuroMLWriter) : NeuroMLWriter :=
  let cell_name := get_cell_name w in
  let notes :=
    "Neuronal morphology exported from Python Based Converter. Original file: "
      +:+ morphology_origin w in
  set_cell (Some (mkCellHeader cell_name notes ("morphology_" +:+ cell_name))) w.

(** The first loop of [create_segment_groups]: one [SegmentGroup] per
    non-empty set, in the order of the keys of [self.segment_groups], each
    with its members in ascending order. *)
Definition group_of (w : NeuroMLWriter) (group_name : string) : list SegmentGroup :=
  let members := default ∅ (segment_groups w !! group_name) in
  if decide (members = ∅) then []
  else [mkSegmentGroup group_name (merge_sort Z.le (elements members))].

Definition build_groups (w : NeuroMLWriter) : NeuroMLWriter :=
  set_morph_groups (fun l => l ++ concat (group_of w <$> group_names)) w.

(** The ids [seg_id for seg_id, seg_type in self.segment_types.items()
    if seg_type == SWCNode.SOMA]. *)
Definition soma_segment_ids (w : NeuroMLWriter) : list Z :=
  (filter (fun kt => kt.2 = SOMA) (map_to_list (segment_types w))).*1.

(** [min] of a list; [None] stands for the ValueError on an empty one. *)
Definition list_min (l : list Z) : option Z :=
  match l with
  | [] => None
  | a :: l' => Some (foldr Z.min a l')
  end.

Section NeuroML_library.

(** libNeuroML, which the source calls and which is not part of it:
    [Cell.create_unbranched_segment_group_branches], as the new list of
    segment groups of the morphology, and [writers.NeuroMLWriter.write]
    followed by reading the file back, as the text of the document. *)
Variable create_unbranched_segment_group_branches :
  Z -> list Segment -> list SegmentGroup -> list SegmentGroup.
Variable write_document : NeuroMLWriter -> string.

(** The interpreter: the room it has for nested calls of [parse_tree]
    below the call that [nml_string] makes. *)
Variable recursion_depth : nat.

(** [create_segment_groups] *)
Definition create_segment_groups : M NeuroMLWriter unit :=
  fun w =>
  let w := build_groups w in
  match list_min (soma_segment_ids w) with
  | None => Raise NoSomaFoundError w
  | Some root_segment_id =>
      let w :=
        set_morph_groups
          (create_unbranched_segment_group_branches root_segment_id (segments w)) w in
      Ok tt (set_properties (fun l => l ++ [("cell_type", "converted_from_swc")]) w)
  end.

(** [nml_string] *)
Definition nml_string : M NeuroMLWriter string :=
  fun w =>
  if bool_decide (length (points w) < 2)%nat
     || bool_decide (length section_types < 2)%nat
     || negb (String.eqb (lower (default "" (section_types !! 1%nat))) "soma")
  then Ok "" w
  else
    let w := create_cell w in
    match find_start_point w with
    | Raise e w => Raise e w
    | Ok start_point w =>
        match parse_tree recursion_depth start_point start_point w with
        | Raise e w => Raise e w
        | Ok _ w =>
            match create_segment_groups w with
            | Raise e w => Raise e w
            | Ok _ w =>
                let w := set_nml_doc (cell_id <$> cell w) w in
                Ok (write_document w) w
            end
        end
    end.

End NeuroML_library.


(** ** ExportSWC: from segments back to SWC lines *)

(** One output line, [line_template % (line_count, type, x, y, z, r,
    parent_line, comment)]; the comment is always empty in the source. *)
Record SwcLine : Type := mkSwcLine {
  line_index : Z;
  line_type : N;
  line_x : Q;
  line_y : Q;
  line_z : Q;
  line_r : Q;
  line_parent : Z
}.

(** The cell as the exporter reads it: [cell.id] and
    [cell.morphology.segments], with the groups of the morphology. *)
Record Cell : Type := mkCell {
  c_id : string;
  c_segments : list Segment;
  c_segment_groups : list SegmentGroup
}.

(** The three module-level globals and the files written so far (file name
    to the lines it holds). *)
Record ExportState : Type := mkExportState {
  line_count : Z;
  line_index_vs_distals : gmap Z Z;
  line_index_vs_proximals : gmap Z Z;
  files : gmap string (list SwcLine)
}.

Definition set_line_count (f : Z -> Z) (s : ExportState) :=
  mkExportState (f (line_count s)) (line_index_vs_distals s)
    (line_index_vs_proximals s) (files s).
Definition set_distals (f : gmap Z Z -> gmap Z Z) (s : ExportState) :=
  mkExportState (line_count s) (f (line_index_vs_distals s))
    (line_index_vs_proximals s) (files s).
Definition set_proximals (f : gmap Z Z -> gmap Z Z) (s : ExportState) :=
  mkExportState (line_count s) (line_index_vs_distals s)
    (f (line_index_vs_proximals s)) (files s).
Definition set_files (f : gmap string (list SwcLine) -> gmap string (list SwcLine))
    (s : ExportState) :=
  mkExportState (line_count s) (line_index_vs_distals s)
    (line_index_vs_proximals s) (f (files s)).

Definition Qltb (a b : Q) : bool := negb (Qle_bool b a).

Definition tolerance : Q := (1 # 10000)%Q.

(** [fract] after the two rounding statements
    [if fract < 0.0001: fract = 0] and [if abs(fract-1) < 0.0001: fract = 1]. *)
Definition rounded_fract (fraction : Q) : Q :=
  let fract := if Qltb fraction tolerance then 0%Q else fraction in
  if Qltb (Qabs (fract - 1)) tolerance then 1%Q else fract.

(** [d[k]] on a dictionary read from the state. *)
Definition dict_get (d : ExportState -> gmap Z Z) (k : Z) : M ExportState Z :=
  fun s => match d s !! k with
           | Some v => Ok v s
           | None => Raise KeyError s
           end.

(** The block under [if parent_seg_id != None].  The second test reads
    [segment.parent.fraction_along], not the rounded [fract]. *)
Definition parent_line_of (p : SegmentParent) : M ExportState Z :=
  let fract := rounded_fract (fraction_along p) in
  if Qeq_bool fract 1 then dict_get line_index_vs_distals (parent_segments p)
  else if Qeq_bool (fraction_along p) 0
       then dict_get line_index_vs_proximals (parent_segments p)
  else raise UnsupportedAttachmentError.

Definition swc_line (idx : Z) (type : N) (p : Point3DWithDiam) (parent_line : Z) :
    SwcLine :=
  mkSwcLine idx type (px p) (py p) (pz p) (diameter p / 2)%Q parent_line.

Local Open Scope m_scope.

(** The body of the loop [for segment in segs] in
    [_get_lines_for_seg_group]: the lines the segment adds. *)
Definition lines_for_segment (type : N) (segment : Segment) :
    M ExportState (list SwcLine) :=
  let id := seg_id segment in
  let* parent_line :=
    (match parent segment with
     | Some p => parent_line_of p
     | None => ret (-1)
     end) in
  let* proximal_part :=
    (match proximal segment with
     | Some prox =>
         let* s := get in
         let n := line_count s in
         let* _ := modify (set_proximals (insert id n)) in
         let* _ := modify (set_line_count (fun c => c + 1)) in
         ret ([swc_line n type prox parent_line], n)
     | None => ret ([], parent_line)
     end) in
  let '(lines, parent_line) := proximal_part in
  match distal segment with
  | None => raise AttributeError
  | Some dist =>
      let* s := get in
      let n := line_count s in
      let* _ := modify (set_distals (insert id n)) in
      let* _ := modify (set_line_count (fun c => c + 1)) in
      ret (lines ++ [swc_line n type dist parent_line])
  end.

Fixpoint lines_for_segments (type : N) (segs : list Segment) :
    M ExportState (list SwcLine * list Z) :=
  match segs with
  | [] => ret ([], [])
  | segment :: segs' =>
      let* here := lines_for_segment type segment in
      let* rest := lines_for_segments type segs' in
      ret (here ++ rest.1, seg_id segment :: rest.2)
  end.

Section ExportSWC.

(** libNeuroML's [Cell.get_ordered_segments_in_groups], which the source
    calls and which is not part of it: from the group names asked for to
    the ordered segments of each group that exists. *)
Variable get_ordered_segments_in_groups :
  Cell -> list string -> gmap string (list Segment).

(** [_get_lines_for_seg_group] *)
Definition _get_lines_for_seg_group (cell : Cell) (sg : string) (type : N) :
    M ExportState (list SwcLine * list Z) :=
  let ord_segs := get_ordered_segments_in_groups cell [sg] in
  match ord_segs !! sg with
  | Some segs => lines_for_segments type segs
  | None => ret ([], [])
  end.

(** The number of segments the walk over a group visits. *)
Definition group_size (cell : Cell) (sg : string) : nat :=
  length (default [] (get_ordered_segments_in_groups cell [sg] !! sg)).

Definition swc_file_name (base_dir : string) (cell : Cell) : string :=
  base_dir +:+ "/" +:+ c_id cell +:+ ".swc".

(** The body of the loop [for cell in nml_doc.cells] of [convert_to_swc];
    [lines] is the list the source keeps across the cells of the document. *)
Definition convert_cell (base_dir : string) (lines : list SwcLine) (cell : Cell) :
    M ExportState (list SwcLine) :=
  let name := swc_file_name base_dir cell in
  let* _ := modify (set_files (insert name [])) in   (* open(swc_file_name, 'w') *)
  let* soma := _get_lines_for_seg_group cell "soma_group" 1%N in
  let soma_seg_count := length soma.2 in
  let lines := lines ++ soma.1 in
  let* dend := _get_lines_for_seg_group cell "dendrite_group" 3%N in
  let dend_seg_count := length dend.2 in
  let lines := lines ++ dend.1 in
  let* axon := _get_lines_for_seg_group cell "axon_group" 2%N in
  let axon_seg_count := length axon.2 in
  let lines := lines ++ axon.1 in
  if negb (length (c_segments cell)
             =? soma_seg_count + dend_seg_count + axon_seg_count)%nat
  then raise IncompleteGroupCoverageError
  else
    let* _ := modify (set_files (alter (fun written => written ++ lines) name)) in
    ret lines.

Fixpoint convert_cells (base_dir : string) (lines : list SwcLine)
    (cells : list Cell) : M ExportState unit :=
  match cells with
  | [] => ret tt
  | cell :: cells' =>
      let* lines := convert_cell base_dir lines cell in
      convert_cells base_dir lines cells'
  end.

(** [convert_to_swc]; [base_dir] and [cells] are what the source gets from
    the file name and from reading the NeuroML file.  The three globals are
    reset first. *)
Definition convert_to_swc (base_dir : string) (cells : list Cell) :
    M ExportState unit :=
  let* _ := modify (fun s => mkExportState 1 ∅ ∅ (files s)) in
  convert_cells base_dir [] cells.

(** The three walks [convert_cell] makes, in the order of the source, with
    what each returns. *)
Definition walk_groups (cell : Cell) :
    M ExportState ((list SwcLine * list Z) * (list SwcLine * list Z)
                   * (list SwcLine * list Z)) :=
  let* soma := _get_lines_for_seg_group cell "soma_group" 1%N in
  let* dend := _get_lines_for_seg_group cell "dendrite_group" 3%N in
  let* axon := _get_lines_for_seg_group cell "axon_group" 2%N in
  ret (soma, dend, axon).

End ExportSWC.

Local Close Scope m_scope.

(** ** The builder as a step relation *)

(** Every change the traversal makes to the writer is one of two steps:
    a segment is emitted (appended, mapped from a point id, typed, put in
    its groups, and the id counter moves on), or a point id is marked as
    processed. *)
Definition emit (segment : Segment) (pid : Z) (segment_type : N)
    (w : NeuroMLWriter) : NeuroMLWriter :=
  set_next_segment_id (fun n => n + 1)
    (record_segment segment pid (next_segment_id w) segment_type w).

(** What the code ensures of a segment it emits: it carries the next id,
    and its parent, if any, is either read from the point-to-segment table
    or is the segment emitted just before. *)
Definition emit_ok (w : NeuroMLWriter) (segment : Segment) : Prop :=
  seg_id segment = next_segment_id w /\
  match parent segment with
  | None => True
  | Some p =>
      (exists k, point_indices_vs_seg_ids w !! k = Some (parent_segments p)) \/
      (parent_segments p = next_segment_id w - 1 /\ segments w <> [])
  end.

Inductive builder_step : NeuroMLWriter -> NeuroMLWriter -> Prop :=
  | step_emit w segment pid segment_type :
      emit_ok w segment ->
      builder_step w (emit segment pid segment_type w)
  | step_mark w pid :
      builder_step w (mark_processed pid w).

Definition builder_steps : NeuroMLWriter -> NeuroMLWriter -> Prop :=
  rtc builder_step.

(** The invariant of the builder state. *)
Record builder_inv (w : NeuroMLWriter) : Prop := mkBuilderInv {
  inv_next : next_segment_id w = Z.of_nat (length (segments w));
  inv_ids : seg_id <$> segments w = Z.of_nat <$> seq 0 (length (segments w));
  inv_parents : forall segment p,
      segment ∈ segments w -> parent segment = Some p ->
      0 <= parent_segments p < seg_id segment;
  inv_table : forall k v,
      point_indices_vs_seg_ids w !! k = Some v -> 0 <= v < next_segment_id w;
  inv_keys : forall g, g ∈ group_names -> is_Some (segment_groups w !! g);
  inv_types : forall sid,
      is_Some (segment_types w !! sid) <-> 0 <= sid < next_segment_id w;
  inv_groups : forall g sid,
      in_group w g sid <->
      exists t, segment_types w !! sid = Some t /\ g ∈ get_groups_for_type t
}.

(** ** Definitions the statements use *)

(** The segment the loop of the third branch makes at index [i] for the
    point [cur] followed by [rest], when the next id is [sid]. *)
Definition multi_segment (i : nat) (cur : SWCNode) (rest : list SWCNode)
    (sid : Z) : Segment :=
  mkSegment sid ("soma_Seg_" +:+ pretty sid)
    (if (i =? 0)%nat then None else Some (default_parent (sid - 1)))
    (if (i =? 0)%nat then Some (point_of cur) else None)
    (match rest with
     | next_point :: _ => Some (point_of next_point)
     | [] => Some (point_of cur)
     end).

(** The third branch of [handle_soma] on its own. *)
Definition multi_branch (this_point : SWCNode) : M NeuroMLWriter unit :=
  fun w =>
  let sorted_soma_points := sorted_by_x (soma_points_of (points w)) in
  match sorted_soma_points with
  | [] => Raise IndexError w
  | lowest :: _ =>
      if node_eqb this_point lowest then
        Ok tt (mark_processed (node_id this_point)
                 (multi_point_soma 0 sorted_soma_points w))
      else
        Ok tt (mark_processed (node_id this_point) w)
  end.

(** The state from which [nml_string] starts the traversal. *)
Definition fresh_writer (nodes : list SWCNode) (origin : string) : NeuroMLWriter :=
  create_cell (init_writer nodes origin).

(** The three groups the exporter walks. *)
Definition canonical_groups : list string :=
  ["soma_group"; "axon_group"; "dendrite_group"].

(** The proximal point as the specification words it: set only at a type
    boundary, and then the parent's point. *)
Definition spec_proximal (parent_point this_point : SWCNode) :
    option Point3DWithDiam :=
  if (node_type this_point =? node_type parent_point)%N then None
  else Some (point_of parent_point).

(** The number of levels of the tree below a node: the depth of nested
    calls of [parse_tree] its traversal can need. *)
Fixpoint height (n : SWCNode) : nat :=
  max_list ((fun c => S (height c)) <$> children n).

(** No soma-typed node in the subtree of a node. *)
Fixpoint soma_free (n : SWCNode) : bool :=
  negb (node_type n =? SOMA)%N && forallb soma_free (children n).

Definition no_soma_type (w : NeuroMLWriter) : Prop :=
  forall sid t, segment_types w !! sid = Some t -> t <> SOMA.

Definition x_le (a b : SWCNode) : Prop := (node_x a <= node_x b)%Q.

(** The chain as the specification words it: segment [i] takes node [i]'s
    point as proximal only for [i = 0], is chained to segment [i - 1]
    otherwise, and takes node [i + 1]'s point as distal, or its own node's
    point when no node follows. *)
Definition spec_chain_segment (n : Z) (sorted : list SWCNode) (i : nat)
    (cur : SWCNode) : Segment :=
  let sid := n + Z.of_nat i in
  mkSegment sid ("soma_Seg_" +:+ pretty sid)
    (if (i =? 0)%nat then None else Some (default_parent (sid - 1)))
    (if (i =? 0)%nat then Some (point_of cur) else None)
    (Some (point_of (default cur (sorted !! S i)))).

Definition spec_chain (n : Z) (sorted : list SWCNode) : list Segment :=
  imap (spec_chain_segment n sorted) sorted.

Definition outcome_value {S A} (d : A) (o : outcome S A) : A :=
  match o with Ok a _ => a | Raise _ _ => d end.


(** ** Example inputs *)

(** A stand-in for the two libNeuroML functions, for the examples. *)
Definition ex_branches (root : Z) (segs : list Segment) (gs : list SegmentGroup) :
    list SegmentGroup := gs.
Definition ex_write (w : NeuroMLWriter) : string := "<neuroml/>".

(** The room for nested calls in the examples; Python's default limit is
    1000 frames, some of them in use when [nml_string] is called. *)
Definition ex_depth : nat := 900.

(** The lines [1 1 0 0 0 10 -1], [2 1 0 -10 0 10 1], [3 1 0 10 0 10 1],
    [4 3 10 0 0 2 1]: a three-point soma and one dendrite point on node 1. *)
Definition ex3_n2 : SWCNode := mkSWCNode 2 1 0 (-10) 0 10 1 [].
Definition ex3_n3 : SWCNode := mkSWCNode 3 1 0 10 0 10 1 [].
Definition ex3_n4 : SWCNode := mkSWCNode 4 3 10 0 0 2 1 [].
Definition ex3_n1 : SWCNode := mkSWCNode 1 1 0 0 0 10 (-1) [ex3_n2; ex3_n3; ex3_n4].
Definition ex3_nodes : list SWCNode := [ex3_n1; ex3_n2; ex3_n3; ex3_n4].

(** The lines [5 3 30 0 0 2 4], [6 3 40 10 0 2 5], [7 3 40 -10 0 2 5]: a
    dendrite point with two dendrite children. *)
Definition exb_n6 : SWCNode := mkSWCNode 6 3 40 10 0 2 5 [].
Definition exb_n7 : SWCNode := mkSWCNode 7 3 40 (-10) 0 2 5 [].
Definition exb_n5 : SWCNode := mkSWCNode 5 3 30 0 0 2 4 [exb_n6; exb_n7].

(** The lines [1 1 0 0 0 10 -1], [2 1 0 -10 0 10 1], [3 1 0 10 0 10 1],
    [4 3 0 -20 0 2 2]: a three-point soma with a dendrite point on the
    second soma node. *)
Definition ex6_n4 : SWCNode := mkSWCNode 4 3 0 (-20) 0 2 2 [].
Definition ex6_n2 : SWCNode := mkSWCNode 2 1 0 (-10) 0 10 1 [ex6_n4].
Definition ex6_n3 : SWCNode := mkSWCNode 3 1 0 10 0 10 1 [].
Definition ex6_n1 : SWCNode := mkSWCNode 1 1 0 0 0 10 (-1) [ex6_n2; ex6_n3].
Definition ex6_nodes : list SWCNode := [ex6_n1; ex6_n2; ex6_n3; ex6_n4].

(** The lines of the source's no-soma test, an axon tree:
    [1 2 0 0 0 2 -1], [2 2 20 0 0 2 1], [3 2 0 20 0 2 1], [4 2 0 30 0 2 3],
    [5 2 0 -20 0 2 1], [6 2 0 -30 0 2 5]. *)
Definition ex9_n2 : SWCNode := mkSWCNode 2 2 20 0 0 2 1 [].
Definition ex9_n4 : SWCNode := mkSWCNode 4 2 0 30 0 2 3 [].
Definition ex9_n3 : SWCNode := mkSWCNode 3 2 0 20 0 2 1 [ex9_n4].
Definition ex9_n6 : SWCNode := mkSWCNode 6 2 0 (-30) 0 2 5 [].
Definition ex9_n5 : SWCNode := mkSWCNode 5 2 0 (-20) 0 2 1 [ex9_n6].
Definition ex9_n1 : SWCNode := mkSWCNode 1 2 0 0 0 2 (-1) [ex9_n2; ex9_n3; ex9_n5].
Definition ex9_nodes : list SWCNode :=
  [ex9_n1; ex9_n2; ex9_n3; ex9_n4; ex9_n5; ex9_n6].

(** The lines [1 1 -5 0 0 1 -1], [2 1 4 3 0 1 1], [3 1 0 -4 0 1 1],
    [4 1 2 5 0 1 1]: four soma points of a contour, all hanging on the
    first, which has the lowest x. *)
Definition ex4_n2 : SWCNode := mkSWCNode 2 1 4 3 0 1 1 [].
Definition ex4_n3 : SWCNode := mkSWCNode 3 1 0 (-4) 0 1 1 [].
Definition ex4_n4 : SWCNode := mkSWCNode 4 1 2 5 0 1 1 [].
Definition ex4_n1 : SWCNode := mkSWCNode 1 1 (-5) 0 0 1 (-1) [ex4_n2; ex4_n3; ex4_n4].
Definition ex4_nodes : list SWCNode := [ex4_n1; ex4_n2; ex4_n3; ex4_n4].

(** The same contour with the lowest x on the second point:
    [1 1 5 0 0 1 -1], [2 1 0 3 0 1 1], [3 1 1 -4 0 1 1], [4 1 2 5 0 1 1]. *)
Definition ex5_n2 : SWCNode := mkSWCNode 2 1 0 3 0 1 1 [].
Definition ex5_n3 : SWCNode := mkSWCNode 3 1 1 (-4) 0 1 1 [].
Definition ex5_n4 : SWCNode := mkSWCNode 4 1 2 5 0 1 1 [].
Definition ex5_n1 : SWCNode := mkSWCNode 1 1 5 0 0 1 (-1) [ex5_n2; ex5_n3; ex5_n4].
Definition ex5_nodes : list SWCNode := [ex5_n1; ex5_n2; ex5_n3; ex5_n4].

(** libNeuroML's [get_ordered_segments_in_groups], for the examples: the
    segments of each named group that exists, in the order of its members. *)
Definition ex_ordered_segments (cell : Cell) (names : list string) :
    gmap string (list Segment) :=
  list_to_map
    (omap (fun sg =>
             (fun g => (sg, omap (fun m => list_find (fun s => seg_id s = m)
                                             (c_segments cell) ≫= Some ∘ snd)
                              (members g)))
             <$> list_find (fun g => group_id g = sg) (c_segment_groups cell)
                 ≫= Some ∘ snd)
          names).

(** A soma segment and a dendrite segment attached to it at [fraction]. *)
Definition ex7_soma : Segment :=
  mkSegment 0 "soma" None (Some (mkPoint 0 0 0 20)) (Some (mkPoint 10 0 0 20)).
Definition ex7_dend (fraction : Q) : Segment :=
  mkSegment 1 "dend" (Some (mkSegmentParent 0 fraction)) None
    (Some (mkPoint 0 30 0 4)).
Definition ex7_cell (fraction : Q) : Cell :=
  mkCell "cell7" [ex7_soma; ex7_dend fraction]
    [mkSegmentGroup "soma_group" [0]; mkSegmentGroup "dendrite_group" [1]].

Definition empty_export_state : ExportState := mkExportState 1 ∅ ∅ ∅.

(** The cell of the attachment examples with a third segment that is in
    none of the three groups. *)
Definition ex8_cell : Cell :=
  mkCell "cell8"
    [ex7_soma; ex7_dend 1;
     mkSegment 2 "other" (Some (mkSegmentParent 1 1)) None (Some (mkPoint 0 40 0 4))]
    [mkSegmentGroup "all" [0; 1; 2];
     mkSegmentGroup "soma_group" [0]; mkSegmentGroup "dendrite_group" [1]].

(** ** Definitions the further statements use *)

(** The start point of the traversal gets a segment of its own: there are
    exactly one or three soma points, or the first soma point of the file is
    also the first of the points sorted by x. *)
Definition start_gets_segment (nodes : list SWCNode) : bool :=
  match soma_points_of nodes with
  | [] => false
  | [_] | [_; _; _] => true
  | first_point :: _ =>
      match sorted_by_x (soma_points_of nodes) with
      | lowest :: _ => node_eqb first_point lowest
      | [] => false
      end
  end.

(** The nodes of a subtree in depth-first pre-order. *)
Fixpoint nodes_of (n : SWCNode) : list SWCNode :=
  n :: flat_map nodes_of (children n).

(** The nodes [ns] were traversed, in this order, between [w] and [w']:
    each got the next segment id, typed with its own type, and its table
    entry; all are processed; nothing else moved. *)
Definition traversed (ns : list SWCNode) (w w' : NeuroMLWriter) : Prop :=
  processed_nodes w' = processed_nodes w ∪ list_to_set (node_id <$> ns) /\
  next_segment_id w' = next_segment_id w + Z.of_nat (length ns) /\
  length (segments w') = (length (segments w) + length ns)%nat /\
  (forall k n, ns !! k = Some n ->
     point_indices_vs_seg_ids w' !! node_id n
       = Some (next_segment_id w + Z.of_nat k) /\
     segment_types w' !! (next_segment_id w + Z.of_nat k) = Some (node_type n)) /\
  (forall pid, pid ∉ node_id <$> ns ->
     point_indices_vs_seg_ids w' !! pid = point_indices_vs_seg_ids w !! pid) /\
  (forall sid, sid < next_segment_id w ->
     segment_types w' !! sid = segment_types w !! sid).

(** The writer [nml_string] ends with, from the writer [w] the traversal
    ended with, when segment 0 is the root. *)
Definition finished_writer
    (lib : Z -> list Segment -> list SegmentGroup -> list SegmentGroup)
    (w : NeuroMLWriter) : NeuroMLWriter :=
  let w := set_properties (fun l => l ++ [("cell_type", "converted_from_swc")])
             (set_morph_groups (lib 0 (segments w)) (build_groups w)) in
  set_nml_doc (cell_id <$> cell w) w.

(** The characters of a string. *)
Definition chars (s : string) : list ascii := list_ascii_of_string s.

(** The characters [get_cell_name] replaces by an underscore. *)
Definition slash : ascii := "/".
Definition dot : ascii := ".".
Definition dash : ascii := "-".
Definition underscore : ascii := "_".

(** A segment the exporter can write once its parent has a line: it has a
    distal point and hangs on its parent, if any, at fraction 1. *)
Definition exportable (segment : Segment) : Prop :=
  is_Some (distal segment) /\
  forall p, parent segment = Some p -> fraction_along p = 1%Q.

(** Every segment the writer holds is exportable. *)
Definition all_exportable (w : NeuroMLWriter) : Prop :=
  Forall exportable (segments w).

(** The globals of the exporter are consistent: the next line number is
    positive and every recorded line has been given out already. *)
Definition export_inv (s : ExportState) : Prop :=
  1 <= line_count s /\
  (forall k v, line_index_vs_distals s !! k = Some v -> 1 <= v < line_count s) /\
  (forall k v, line_index_vs_proximals s !! k = Some v -> 1 <= v < line_count s).

(** A line of a point tree file: it is a root, or its parent is an earlier
    line. *)
Definition line_ok (l : SwcLine) : Prop :=
  line_parent l = -1 \/ 1 <= line_parent l < line_index l.

(** The number of lines the exporter writes for a segment: one for the
    distal point, and one more for an explicit proximal point. *)
Definition lines_of_segment (segment : Segment) : nat :=
  match proximal segment with Some _ => 2%nat | None => 1%nat end.

(** The segments that carry a proximal point of their own. *)
Definition explicit_proximals (segs : list Segment) : list Segment :=
  filter (fun segment => is_Some (proximal segment)) segs.

(** The segments the walk over a group visits, and those the export of a
    cell visits, in order. *)
Definition group_segments
    (get_ordered_segments_in_groups :
       Cell -> list string -> gmap string (list Segment))
    (cell : Cell) (sg : string) : list Segment :=
  default [] (get_ordered_segments_in_groups cell [sg] !! sg).

Definition walked_segments
    (get_ordered_segments_in_groups :
       Cell -> list string -> gmap string (list Segment))
    (cell : Cell) : list Segment :=
  group_segments get_ordered_segments_in_groups cell "soma_group"
  ++ group_segments get_ordered_segments_in_groups cell "dendrite_group"
  ++ group_segments get_ordered_segments_in_groups cell "axon_group".

(** ** Further example inputs *)

(** A chain of axon points without a soma: the point [first] hangs on
    [parent_id] and has [below] points under it, each the only child of the
    one before, with ids counting up from [first]. *)
Fixpoint ex_chain (parent_id first : Z) (below : nat) : SWCNode :=
  mkSWCNode first 2 0 0 0 1 parent_id
    (match below with
     | O => []
     | S below' => [ex_chain first (first + 1) below']
     end).

(** The lines of the source's multiple-cylinder test: four soma points in
    a chain with dendrites on the first, second and fourth. *)
Definition ex13_n6 : SWCNode := mkSWCNode 6 3 0 30 0 5 5 [].
Definition ex13_n5 : SWCNode := mkSWCNode 5 3 0 20 0 5 4 [ex13_n6].
Definition ex13_n4 : SWCNode := mkSWCNode 4 1 0 15 0 5 3 [ex13_n5].
Definition ex13_n3 : SWCNode := mkSWCNode 3 1 0 10 0 10 2 [ex13_n4].
Definition ex13_n10 : SWCNode := mkSWCNode 10 3 20 10 0 5 9 [].
Definition ex13_n9 : SWCNode := mkSWCNode 9 3 10 10 0 5 2 [ex13_n10].
Definition ex13_n2 : SWCNode := mkSWCNode 2 1 0 5 0 10 1 [ex13_n3; ex13_n9].
Definition ex13_n8 : SWCNode := mkSWCNode 8 3 0 (-15) 0 (5 # 2) 7 [].
Definition ex13_n7 : SWCNode := mkSWCNode 7 3 0 (-5) 0 5 1 [ex13_n8].
Definition ex13_n1 : SWCNode := mkSWCNode 1 1 0 0 0 5 (-1) [ex13_n2; ex13_n7].
Definition ex13_nodes : list SWCNode :=
  [ex13_n1; ex13_n2; ex13_n3; ex13_n4; ex13_n5; ex13_n6; ex13_n7; ex13_n8;
   ex13_n9; ex13_n10].

(** The lines [1 1 0 0 0 10 -1], [2 3 10 0 0 2 1], [3 3 30 0 0 2 2],
    [4 2 0 -10 0 1 1]: a single-point soma with a dendrite of two points
    and an axon point. *)
Definition ex1_n3 : SWCNode := mkSWCNode 3 3 30 0 0 2 2 [].
Definition ex1_n2 : SWCNode := mkSWCNode 2 3 10 0 0 2 1 [ex1_n3].
Definition ex1_n4 : SWCNode := mkSWCNode 4 2 0 (-10) 0 1 1 [].
Definition ex1_n1 : SWCNode := mkSWCNode 1 1 0 0 0 10 (-1) [ex1_n2; ex1_n4].
Definition ex1_nodes : list SWCNode := [ex1_n1; ex1_n2; ex1_n3; ex1_n4].

(** A cell whose dendrite hangs at fraction 1 on the soma segment. *)
Definition ex10_cell : Cell :=
  mkCell "cell10" [ex7_soma; ex7_dend 1]
    [mkSegmentGroup "soma_group" [0]; mkSegmentGroup "dendrite_group" [1]].

(** * Properties *)

(** ** Groups of a type *)

Lemma get_groups_for_type_cases (t : N) :
  (t = 0%N /\ get_groups_for_type t = ["all"]) \/
  (t = 1%N /\ get_groups_for_type t = ["all"; "soma_group"]) \/
  (t = 2%N /\ get_groups_for_type t = ["all"; "axon_group"]) \/
  (t = 3%N /\ get_groups_for_type t = ["all"; "basal_dendrite"; "dendrite_group"]) \/
  (t = 4%N /\ get_groups_for_type t = ["all"; "apical_dendrite"; "dendrite_group"]) \/
  ((5 <= t)%N /\ get_groups_for_type t = ["all"; "dendrite_group"]).
Proof.
  unfold get_groups_for_type, SOMA, AXON, BASAL_DENDRITE, APICAL_DENDRITE.
  destruct (N.eqb_spec t 1) as [->|H1]; [tauto|].
  destruct (N.eqb_spec t 2) as [->|H2]; [tauto|].
  destruct (N.eqb_spec t 3) as [->|H3]; [tauto|].
  destruct (N.eqb_spec t 4) as [->|H4]; [tauto|].
  destruct (N.leb_spec 5 t) as [H5|H5]; [tauto|].
  left. split; [lia | reflexivity].
Qed.

Lemma get_groups_for_type_names (t : N) (g : string) :
  g ∈ get_groups_for_type t -> g ∈ group_names.
Proof.
  unfold group_names.
  destruct (get_groups_for_type_cases t)
    as [[_ ->]|[[_ ->]|[[_ ->]|[[_ ->]|[[_ ->]|[_ ->]]]]]];
    rewrite !elem_of_cons, !elem_of_nil; tauto.
Qed.

Lemma foldl_group_add_lookup (sid : Z) (gs : list string)
    (m : gmap string (gset Z)) (g : string) :
  foldl (group_add sid) m gs !! g =
  if decide (g ∈ gs) then (fun s => s ∪ {[sid]}) <$> m !! g else m !! g.
Proof.
  revert m. induction gs as [|g0 gs IH]; intros m; cbn [foldl].
  - rewrite decide_False; [reflexivity | apply not_elem_of_nil].
  - rewrite IH.
    assert (Hcons : g ∈ g0 :: gs <-> g = g0 \/ g ∈ gs) by apply elem_of_cons.
    unfold group_add.
    destruct (decide (g0 = g)) as [->|Hne].
    + rewrite lookup_alter_eq.
      rewrite (decide_True (P := g ∈ g :: gs)) by tauto.
      case_decide; [|reflexivity].
      destruct (m !! g); simpl; [|reflexivity].
      f_equal. set_solver.
    + rewrite lookup_alter_ne by done.
      destruct (decide (g ∈ gs)) as [Hin|Hnin].
      * rewrite decide_True by tauto. reflexivity.
      * rewrite decide_False; [reflexivity|]. intros ?. apply Hnin.
        destruct Hcons as [[?|?] _]; congruence || done.
Qed.

Lemma in_group_add (w : NeuroMLWriter) (sid0 : Z) (t : N) (g : string) (sid : Z) :
  is_Some (segment_groups w !! g) ->
  in_group (add_segment_to_groups sid0 t w) g sid <->
  in_group w g sid \/ (sid = sid0 /\ g ∈ get_groups_for_type t).
Proof.
  intros [s Hs]. unfold in_group, add_segment_to_groups. simpl.
  rewrite foldl_group_add_lookup, Hs. case_decide as Hg; simpl.
  - split.
    + intros (s' & [= <-] & Hin). apply elem_of_union in Hin as [Hin|Hin].
      * left. eauto.
      * right. split; [set_solver | done].
    + intros [(s' & [= <-] & Hin)|[-> _]]; eexists; split; eauto; set_solver.
  - split.
    + intros (s' & [= <-] & Hin). left. eauto.
    + intros [H|[_ H]]; [done | contradiction].
Qed.

(** ** Every method is a sequence of builder steps *)

Lemma steps_emit (w : NeuroMLWriter) segment pid t :
  emit_ok w segment -> builder_steps w (emit segment pid t w).
Proof. intros H. apply rtc_once. by apply step_emit. Qed.

Lemma steps_mark (w : NeuroMLWriter) pid :
  builder_steps w (mark_processed pid w).
Proof. apply rtc_once. apply step_mark. Qed.

Lemma create_segment_emit (this_point parent_point : SWCNode) (b : bool)
    (w : NeuroMLWriter) :
  exists segment,
    create_segment this_point parent_point b w =
      mark_processed (node_id this_point)
        (emit segment (node_id this_point) (node_type this_point) w) /\
    emit_ok w segment.
Proof.
  unfold create_segment.
  set (sp := match point_indices_vs_seg_ids _ !! node_id parent_point with
             | Some v => Some (default_parent v) | None => None end).
  assert (Hsp : match sp with
                | None => True
                | Some p => exists k, point_indices_vs_seg_ids w !! k
                                      = Some (parent_segments p)
                end).
  { subst sp. simpl.
    destruct (point_indices_vs_seg_ids w !! node_id parent_point) eqn:E;
      [|done]. simpl. eauto. }
  destruct (negb _); [|destruct (bool_decide (1 < _)%nat);
                       [|destruct (bool_decide (_ ∉ _))]];
    eexists; (split; [reflexivity|]); (split; [reflexivity|]); simpl;
    destruct sp; auto.
Qed.

Lemma steps_create_segment (this_point parent_point : SWCNode) (b : bool)
    (w : NeuroMLWriter) :
  builder_steps w (create_segment this_point parent_point b w).
Proof.
  destruct (create_segment_emit this_point parent_point b w) as (s & -> & Hok).
  eapply rtc_r; [by apply steps_emit | apply step_mark].
Qed.

Lemma steps_three_point_soma (a b c : SWCNode) (w : NeuroMLWriter) :
  builder_steps w (three_point_soma a b c w).
Proof.
  unfold three_point_soma.
  eapply rtc_l; [apply step_emit|eapply rtc_once, step_emit].
  - split; [reflexivity | exact I].
  - split; [reflexivity|]. simpl. right. split; [lia|].
    intros H. by apply app_eq_nil in H as [_ ?].
Qed.

Lemma steps_single_point_soma (a : SWCNode) (w : NeuroMLWriter) :
  builder_steps w (single_point_soma a w).
Proof.
  unfold single_point_soma. apply steps_emit. split; [reflexivity | exact I].
Qed.

Lemma multi_point_soma_cons (i : nat) (cur : SWCNode) (rest : list SWCNode)
    (w : NeuroMLWriter) :
  multi_point_soma i (cur :: rest) w =
  multi_point_soma (S i) rest
    (if decide (node_id cur ∈ processed_nodes w) then w
     else mark_processed (node_id cur)
            (emit (multi_segment i cur rest (next_segment_id w))
               (node_id cur) SOMA w)).
Proof. simpl. destruct (decide _); reflexivity. Qed.

Lemma steps_multi_point_soma (rest : list SWCNode) :
  forall (i : nat) (w : NeuroMLWriter),
    (i <> 0%nat -> segments w <> []) ->
    (i = 0%nat -> match rest with
                  | cur :: _ => node_id cur ∉ processed_nodes w
                  | [] => True
                  end) ->
    builder_steps w (multi_point_soma i rest w).
Proof.
  induction rest as [|cur rest IH]; intros i w Hne Hfirst.
  - apply rtc_refl.
  - rewrite multi_point_soma_cons.
    destruct (decide (node_id cur ∈ processed_nodes w)) as [Hin|Hnin].
    + assert (i <> 0%nat) by (intros ->; by apply Hfirst).
      apply IH; [auto | intros [=]].
    + etrans; [|apply IH].
      * eapply rtc_l; [apply step_emit | apply steps_mark].
        split; [reflexivity|]. simpl.
        destruct i; simpl; [exact I|]. right. split; [reflexivity | auto].
      * intros _. simpl. intros H. by apply app_eq_nil in H as [_ ?].
      * intros [=].
Qed.

Lemma handle_soma_multi (this_point parent_point : SWCNode) (w : NeuroMLWriter) :
  node_id this_point ∉ processed_nodes w ->
  length (soma_points_of (points w)) <> 3%nat ->
  length (soma_points_of (points w)) <> 1%nat ->
  handle_soma this_point parent_point w = multi_branch this_point w.
Proof.
  intros Hnin H3 H1. unfold handle_soma, multi_branch.
  rewrite decide_False by done.
  destruct (soma_points_of (points w)) as [|a [|b [|c [|d l]]]];
    simpl in H3, H1; try done.
Qed.

Lemma steps_multi_branch (this_point : SWCNode) (w : NeuroMLWriter) :
  node_id this_point ∉ processed_nodes w ->
  builder_steps w (final_state (multi_branch this_point w)).
Proof.
  intros Hnin. unfold multi_branch.
  destruct (sorted_by_x _) as [|lowest rest] eqn:Es;
    cbn [final_state]; [apply rtc_refl|].
  destruct (node_eqb this_point lowest) eqn:Eq;
    cbn [final_state]; [|apply steps_mark].
  eapply rtc_r; [|apply step_mark].
  apply steps_multi_point_soma; [done|]. intros _.
  unfold node_eqb in Eq. apply bool_decide_eq_true in Eq. by rewrite <- Eq.
Qed.

Lemma steps_handle_soma (this_point parent_point : SWCNode) (w : NeuroMLWriter) :
  builder_steps w (final_state (handle_soma this_point parent_point w)).
Proof.
  destruct (decide (node_id this_point ∈ processed_nodes w)) as [Hin|Hnin].
  { unfold handle_soma. rewrite decide_True by done. apply rtc_refl. }
  destruct (decide (length (soma_points_of (points w)) = 3%nat)) as [H3|H3].
  { unfold handle_soma. rewrite decide_False by done.
    destruct (soma_points_of (points w)) as [|a [|b [|c [|d l]]]]; try done.
    case_bool_decide; simpl; [|apply steps_mark].
    eapply rtc_r; [apply steps_three_point_soma | apply step_mark]. }
  destruct (decide (length (soma_points_of (points w)) = 1%nat)) as [H1|H1].
  { unfold handle_soma. rewrite decide_False by done.
    destruct (soma_points_of (points w)) as [|a [|b [|c [|d l]]]]; try done.
    simpl. eapply rtc_r; [apply steps_single_point_soma | apply step_mark]. }
  rewrite handle_soma_multi by done. by apply steps_multi_branch.
Qed.

Lemma steps_visit_point (parent_point this_point : SWCNode) (w : NeuroMLWriter) :
  builder_steps w (final_state (visit_point parent_point this_point w)).
Proof.
  unfold visit_point.
  destruct (node_type this_point =? SOMA)%N.
  - pose proof (steps_handle_soma this_point parent_point w) as H.
    destruct (handle_soma this_point parent_point w); simpl in *; [|done].
    eapply rtc_r; [done | apply step_mark].
  - destruct (decide _); simpl.
    + apply steps_mark.
    + eapply rtc_r; [|apply step_mark]. eapply rtc_r; [|apply step_mark].
      apply steps_create_segment.
Qed.

Lemma parse_tree_eq (depth : nat) (parent_point this_point : SWCNode)
    (w : NeuroMLWriter) :
  parse_tree depth parent_point this_point w =
  if decide (node_id this_point ∈ processed_nodes w) then Ok tt w
  else match visit_point parent_point this_point w with
       | Ok _ w' =>
           for_each_child (parse_child depth this_point) (children this_point) w'
       | Raise e w' => Raise e w'
       end.
Proof. destruct this_point; reflexivity. Qed.

(** What holds of a raise at the call and of every nested traversal holds
    of every call on a child. *)
Lemma Forall_parse_child
    (Q : NeuroMLWriter -> outcome NeuroMLWriter unit -> Prop)
    (depth : nat) (this_point : SWCNode) (cs : list SWCNode) :
  (forall w, Q w (Raise RecursionError w)) ->
  Forall (fun c => forall depth' parent_point w,
            Q w (parse_tree depth' parent_point c w)) cs ->
  Forall (fun c => forall w, Q w (parse_child depth this_point c w)) cs.
Proof.
  intros Hraise H. eapply Forall_impl; [exact H|].
  intros c Hc w. destruct depth; [apply Hraise | apply Hc].
Qed.

Lemma steps_for_each_child (visit : SWCNode -> M NeuroMLWriter unit)
    (cs : list SWCNode) :
  Forall (fun c => forall w, builder_steps w (final_state (visit c w))) cs ->
  forall w, builder_steps w (final_state (for_each_child visit cs w)).
Proof.
  induction 1 as [|c cs Hc _ IH]; intros w; simpl; [apply rtc_refl|].
  destruct (decide _); [apply IH|].
  specialize (Hc w). destruct (visit c w) as [[] w'|e w']; simpl in *; [|done].
  etrans; [exact Hc | apply IH].
Qed.

Lemma steps_parse_tree (this_point : SWCNode) :
  forall depth parent_point w,
    builder_steps w (final_state (parse_tree depth parent_point this_point w)).
Proof.
  induction this_point as [i t x y z r p cs IH] using SWCNode_tree_ind.
  intros depth parent_point w. rewrite parse_tree_eq.
  destruct (decide _); [apply rtc_refl|].
  pose proof (steps_visit_point parent_point (mkSWCNode i t x y z r p cs) w) as Hv.
  destruct (visit_point _ _ w) as [[] w'|e w']; simpl in *; [|done].
  etrans; [exact Hv|]. apply steps_for_each_child.
  apply (Forall_parse_child (fun w o => builder_steps w (final_state o)));
    [intros w0; apply rtc_refl | exact IH].
Qed.

Lemma steps_parse_child (depth : nat) (this_point c : SWCNode)
    (w : NeuroMLWriter) :
  builder_steps w (final_state (parse_child depth this_point c w)).
Proof. destruct depth; [apply rtc_refl | apply steps_parse_tree]. Qed.

(** ** The invariant holds along every step *)

Lemma in_group_emit (w : NeuroMLWriter) segment pid t (g : string) (sid : Z) :
  in_group (emit segment pid t w) g sid <->
  in_group w g sid \/
  (sid = next_segment_id w /\ g ∈ get_groups_for_type t /\
   is_Some (segment_groups w !! g)).
Proof.
  destruct (segment_groups w !! g) as [s|] eqn:Hs.
  - change (in_group (emit segment pid t w) g sid)
      with (in_group (add_segment_to_groups (next_segment_id w) t w) g sid).
    rewrite in_group_add by (rewrite Hs; eauto).
    split; (intros [?|?]; [by left | right]); naive_solver.
  - unfold in_group. simpl. rewrite foldl_group_add_lookup, Hs.
    case_decide; simpl; split.
    + intros (? & [=] & _).
    + intros [(? & [=] & _)|(_ & _ & [? [=]])].
    + intros (? & [=] & _).
    + intros [(? & [=] & _)|(_ & _ & [? [=]])].
Qed.

Lemma builder_inv_init (nodes : list SWCNode) (origin : string) :
  builder_inv (init_writer nodes origin).
Proof.
  split; simpl.
  - done.
  - done.
  - intros s p Hin. by apply elem_of_nil in Hin.
  - intros k v. by rewrite lookup_empty.
  - intros g Hg. unfold group_names in Hg.
    rewrite !elem_of_cons, elem_of_nil in Hg.
    destruct Hg as [->|[->|[->|[->|[->|[->|[]]]]]]]; vm_compute; eauto.
  - intros sid. rewrite lookup_empty. split; [by intros [? [=]] | lia].
  - intros g sid. unfold in_group. simpl. split.
    + intros (s & Hs & Hin). exfalso.
      repeat (rewrite lookup_insert in Hs; case_decide;
              [injection Hs as <-; by apply not_elem_of_empty in Hin|]).
      by rewrite lookup_empty in Hs.
    + intros (t & Ht & _). by rewrite lookup_empty in Ht.
Qed.

Lemma builder_inv_emit (w : NeuroMLWriter) segment pid t :
  emit_ok w segment -> builder_inv w -> builder_inv (emit segment pid t w).
Proof.
  intros [Hid Hpar] [Hn Hids Hp Htab Hk Hty Hg].
  assert (Hlen : 0 <= next_segment_id w) by lia.
  split.
  - simpl. rewrite length_app. simpl. lia.
  - simpl. rewrite length_app, fmap_app, seq_app, fmap_app. simpl.
    rewrite Hids, Hid, Hn. reflexivity.
  - simpl. intros s p Hin Hs. apply elem_of_app in Hin as [Hin|Hin].
    + by apply Hp.
    + apply list_elem_of_singleton in Hin as ->. rewrite Hs in Hpar.
      rewrite Hid. destruct Hpar as [[k Hkv]|[-> Hne]].
      * by apply Htab in Hkv.
      * destruct (segments w); [done|]. simpl in Hn. lia.
  - simpl. intros k v. rewrite lookup_insert. case_decide.
    + intros [= <-]. lia.
    + intros Hkv. apply Htab in Hkv. lia.
  - intros g Hin. simpl. rewrite foldl_group_add_lookup.
    destruct (Hk g Hin) as [s ->]. case_decide; simpl; eauto.
  - intros sid. simpl. rewrite lookup_insert. case_decide.
    + subst. split; [lia | eauto].
    + rewrite Hty. lia.
  - intros g sid. rewrite in_group_emit, Hg. simpl.
    split.
    + intros [(t' & Ht' & Hin)|(-> & Hin & _)].
      * exists t'. split; [|done]. rewrite lookup_insert_ne; [done|].
        intros <-. assert (is_Some (segment_types w !! next_segment_id w))
          as H%Hty by eauto. lia.
      * exists t. by rewrite lookup_insert_eq.
    + intros (t' & Ht' & Hin). rewrite lookup_insert in Ht'.
      case_decide as E.
      * injection Ht' as <-. right. split; [done|]. split; [done|].
        apply Hk. by eapply get_groups_for_type_names.
      * left. eauto.
Qed.

Lemma builder_inv_mark (w : NeuroMLWriter) pid :
  builder_inv w -> builder_inv (mark_processed pid w).
Proof. intros [? ? ? ? ? ? ?]. by split. Qed.

Lemma builder_inv_steps (w w' : NeuroMLWriter) :
  builder_steps w w' -> builder_inv w -> builder_inv w'.
Proof.
  induction 1 as [|w1 w2 w3 Hstep _ IH]; [done|].
  intros Hinv. apply IH. destruct Hstep.
  - by apply builder_inv_emit.
  - by apply builder_inv_mark.
Qed.

Lemma builder_inv_create_cell (w : NeuroMLWriter) :
  builder_inv w -> builder_inv (create_cell w).
Proof. intros [? ? ? ? ? ? ?]. by split. Qed.

Lemma builder_inv_parse_tree (depth : nat) (nodes : list SWCNode)
    (origin : string) (start : SWCNode) :
  builder_inv (final_state (parse_tree depth start start (fresh_writer nodes origin))).
Proof.
  eapply builder_inv_steps; [apply steps_parse_tree|].
  apply builder_inv_create_cell, builder_inv_init.
Qed.

(** ** The model built by [nml_string] *)

Lemma builder_inv_build_groups (w : NeuroMLWriter) :
  builder_inv w -> builder_inv (build_groups w).
Proof. intros [? ? ? ? ? ? ?]. by split. Qed.

Lemma builder_inv_create_segment_groups
    (lib : Z -> list Segment -> list SegmentGroup -> list SegmentGroup)
    (w : NeuroMLWriter) :
  builder_inv w -> builder_inv (final_state (create_segment_groups lib w)).
Proof.
  intros H%builder_inv_build_groups. unfold create_segment_groups.
  destruct (list_min _); simpl; [|done].
  destruct H as [? ? ? ? ? ? ?]. by split.
Qed.

Lemma builder_inv_nml_string
    (lib : Z -> list Segment -> list SegmentGroup -> list SegmentGroup)
    (write_document : NeuroMLWriter -> string) (depth : nat)
    (nodes : list SWCNode) (origin : string) :
  builder_inv
    (final_state (nml_string lib write_document depth (init_writer nodes origin))).
Proof.
  unfold nml_string.
  destruct (_ || _); [apply builder_inv_init|].
  assert (Hc : builder_inv (create_cell (init_writer nodes origin)))
    by apply builder_inv_create_cell, builder_inv_init.
  unfold find_start_point.
  set (w0 := create_cell (init_writer nodes origin)) in *.
  assert (Hp : forall start, builder_inv (final_state (parse_tree depth start start w0)))
    by (intros; apply builder_inv_parse_tree).
  assert (Hgo : forall start,
    builder_inv (final_state
      match parse_tree depth start start w0 with
      | Raise e w => Raise e w
      | Ok _ w =>
          match create_segment_groups lib w with
          | Raise e w1 => Raise e w1
          | Ok _ w1 =>
              Ok (write_document (set_nml_doc (cell_id <$> cell w1) w1))
                 (set_nml_doc (cell_id <$> cell w1) w1)
          end
      end)).
  { intros start. specialize (Hp start).
    destruct (parse_tree depth start start w0) as [[] w1|e w1]; simpl in *; [|done].
    pose proof (builder_inv_create_segment_groups lib w1 Hp) as Hg.
    destruct (create_segment_groups lib w1) as [[] w2|e w2]; simpl in *; [|done].
    destruct Hg as [? ? ? ? ? ? ?]. by split. }
  destruct (soma_points_of (points w0)) as [|p l]; [|apply Hgo].
  destruct (points w0); [done | apply Hgo].
Qed.

Lemma segment_id_range (w : NeuroMLWriter) (segment : Segment) :
  builder_inv w -> segment ∈ segments w ->
  0 <= seg_id segment < next_segment_id w.
Proof.
  intros [Hn Hids _ _ _ _ _] Hin.
  assert (Hid : seg_id segment ∈ seg_id <$> segments w)
    by (apply list_elem_of_fmap; eauto).
  rewrite Hids in Hid. apply list_elem_of_fmap in Hid as (n & -> & Hn').
  apply elem_of_seq in Hn'. lia.
Qed.

(** C4.  In the model built by [nml_string] the segment ids are exactly
    0, 1, ..., n-1 in the order of the segment list, and the parent id of
    every segment that has a parent is an earlier id: it lies between 0 and
    the segment's own id, the latter excluded. *)
Theorem segment_ids_sequential_parents_earlier
    (lib : Z -> list Segment -> list SegmentGroup -> list SegmentGroup)
    (write_document : NeuroMLWriter -> string) (depth : nat)
    (nodes : list SWCNode) (origin : string) :
  let w := final_state
             (nml_string lib write_document depth (init_writer nodes origin)) in
  seg_id <$> segments w = Z.of_nat <$> seq 0 (length (segments w)) /\
  forall segment p,
    segment ∈ segments w -> parent segment = Some p ->
    0 <= parent_segments p < seg_id segment.
Proof.
  intros w. destruct (builder_inv_nml_string lib write_document depth nodes origin)
    as [_ Hids Hp _ _ _ _].
  split; [exact Hids | exact Hp].
Qed.

(** C5.  In the model built by [nml_string] every segment has a source
    type [t] and belongs to the group [all]; when [t] is 0 (undefined) it
    belongs to no other group, and otherwise it belongs to exactly one of
    soma_group, axon_group and dendrite_group. *)
Theorem group_coverage
    (lib : Z -> list Segment -> list SegmentGroup -> list SegmentGroup)
    (write_document : NeuroMLWriter -> string) (depth : nat)
    (nodes : list SWCNode) (origin : string) :
  let w := final_state
             (nml_string lib write_document depth (init_writer nodes origin)) in
  forall segment, segment ∈ segments w ->
    exists t,
      segment_types w !! seg_id segment = Some t /\
      in_group w "all" (seg_id segment) /\
      (t = UNDEFINED ->
       forall g, in_group w g (seg_id segment) -> g = "all") /\
      (t <> UNDEFINED ->
       exists g, g ∈ canonical_groups /\ in_group w g (seg_id segment) /\
         forall g', g' ∈ canonical_groups ->
                    in_group w g' (seg_id segment) -> g' = g).
Proof.
  intros w segment Hin.
  pose proof (builder_inv_nml_string lib write_document depth nodes origin) as Hinv.
  fold w in Hinv.
  pose proof (segment_id_range w segment Hinv Hin) as Hr.
  destruct Hinv as [_ _ _ _ _ Hty Hg].
  apply Hty in Hr as [t Ht]. exists t. split; [exact Ht|].
  assert (Hchar : forall g, in_group w g (seg_id segment)
                            <-> g ∈ get_groups_for_type t).
  { intros g. rewrite Hg. split.
    - intros (t' & Ht' & ?). congruence.
    - eauto. }
  unfold canonical_groups, UNDEFINED.
  destruct (get_groups_for_type_cases t)
    as [[E G]|[[E G]|[[E G]|[[E G]|[[E G]|[E G]]]]]].
  all: split; [apply Hchar; rewrite G; apply list_elem_of_here|].
  all: split; [intros E0; try lia; intros g Hgin%Hchar; rewrite G in Hgin;
               by apply list_elem_of_singleton in Hgin|].
  all: intros Hne.
  1: by destruct Hne.
  1: exists "soma_group".
  2: exists "axon_group".
  3-5: exists "dendrite_group".
  all: split; [rewrite !elem_of_cons; tauto|].
  all: split; [apply Hchar; rewrite G; rewrite !elem_of_cons; tauto|].
  all: intros g' Hc Hin'%Hchar; rewrite G in Hin'.
  all: repeat rewrite ?elem_of_cons, ?elem_of_nil in Hc.
  all: repeat rewrite ?elem_of_cons, ?elem_of_nil in Hin'.
  all: destruct Hc as [->|[->|[->|[]]]]; try reflexivity.
  all: destruct Hin' as [?|[?|[?|?]]] || destruct Hin' as [?|[?|?]]; done.
Qed.

(** C10.  With fewer than two points [nml_string] returns the empty string
    and leaves the writer as it found it: no cell is made, no segment is
    added, and nothing is raised. *)
Theorem nml_string_too_few_points
    (lib : Z -> list Segment -> list SegmentGroup -> list SegmentGroup)
    (write_document : NeuroMLWriter -> string) (depth : nat) (w : NeuroMLWriter) :
  (length (points w) < 2)%nat ->
  nml_string lib write_document depth w = Ok "" w.
Proof.
  intros H. unfold nml_string. by rewrite bool_decide_eq_true_2.
Qed.

(** The three-point example: ids 0, 1, 2, and segment 1 hangs on segment 0. *)
Lemma segment_ids_sequential_parents_earlier_witness :
  let w := final_state
             (nml_string ex_branches ex_write ex_depth
                (init_writer ex3_nodes "cell.swc")) in
  seg_id <$> segments w = [0; 1; 2] /\ 0 <= 0 < 1.
Proof.
  intros w.
  destruct (segment_ids_sequential_parents_earlier
              ex_branches ex_write ex_depth ex3_nodes "cell.swc") as [H1 H2].
  split.
  - vm_compute in H1. vm_compute. exact H1.
  - apply (H2 (mkSegment 1 "Seg_1" (Some (default_parent 0)) None
                 (Some (point_of ex3_n3))) (default_parent 0)).
    + apply (list_elem_of_lookup_2 _ 1%nat). vm_compute. reflexivity.
    + reflexivity.
Defined.

(** The three-point example: the dendrite segment 2 has a type and is in [all]. *)
Lemma group_coverage_witness :
  let w := final_state
             (nml_string ex_branches ex_write ex_depth
                (init_writer ex3_nodes "cell.swc")) in
  exists t, segment_types w !! 2 = Some t /\ in_group w "all" 2.
Proof.
  intros w.
  destruct (group_coverage ex_branches ex_write ex_depth ex3_nodes "cell.swc"
              (mkSegment 2 "basal dendrite_Seg_2" (Some (default_parent 0))
                 (Some (point_of ex3_n4)) (Some (point_of ex3_n4))))
    as (t & Ht & Hall & _).
  - apply (list_elem_of_lookup_2 _ 2%nat). vm_compute. reflexivity.
  - exists t. split; [exact Ht | exact Hall].
Defined.

(** A single point: nothing is built. *)
Lemma nml_string_too_few_points_witness :
  nml_string ex_branches ex_write ex_depth (init_writer [ex3_n4] "cell.swc")
  = Ok "" (init_writer [ex3_n4] "cell.swc").
Proof.
  apply nml_string_too_few_points. simpl. lia.
Defined.

(** ** The three-point soma *)

Lemma soma_points_ids_NoDup (pts : list SWCNode) :
  NoDup (node_id <$> pts) -> NoDup (node_id <$> soma_points_of pts).
Proof.
  intros H. eapply sublist_NoDup; [exact H|].
  apply fmap_sublist, sublist_filter.
Qed.

(** C1.  When the points hold exactly three soma nodes, the handler run on
    the first of them (not yet processed) returns after appending exactly
    two soma segments: A, from the second soma node's point (proximal) to
    the first soma node's point (distal), and B, whose parent is A, which
    has no proximal point and whose distal point is the third soma node's
    point.  Run on the second or the third soma node, in any later state of
    the same tree, the handler returns with that node processed and with
    no segment added. *)
Theorem three_point_soma_segments (w : NeuroMLWriter)
    (parent_point first_point middle_point end_point : SWCNode) :
  soma_points_of (points w) = [first_point; middle_point; end_point] ->
  NoDup (node_id <$> points w) ->
  node_id first_point ∉ processed_nodes w ->
  let n := next_segment_id w in
  let A := mkSegment n ("Seg_" +:+ pretty n) None
             (Some (point_of middle_point)) (Some (point_of first_point)) in
  let B := mkSegment (n + 1) ("Seg_" +:+ pretty (n + 1)) (Some (default_parent n))
             None (Some (point_of end_point)) in
  (exists w',
     handle_soma first_point parent_point w = Ok tt w' /\
     segments w' = segments w ++ [A; B] /\
     segment_types w' !! n = Some SOMA /\
     segment_types w' !! (n + 1) = Some SOMA /\
     next_segment_id w' = n + 2) /\
  (forall q w1,
     q = middle_point \/ q = end_point ->
     points w1 = points w ->
     exists w',
       handle_soma q parent_point w1 = Ok tt w' /\
       segments w' = segments w1 /\
       next_segment_id w' = next_segment_id w1 /\
       point_indices_vs_seg_ids w' = point_indices_vs_seg_ids w1 /\
       node_id q ∈ processed_nodes w').
Proof.
  intros Hsoma Hnd Hnin n A B. split.
  - unfold handle_soma. rewrite decide_False by done. rewrite Hsoma.
    rewrite bool_decide_eq_true_2 by done.
    eexists. split; [reflexivity|]. simpl. fold n.
    replace (n + 1 - 1) with n by lia.
    rewrite <- app_assoc. split; [reflexivity|].
    split; [|split; [|lia]].
    + rewrite lookup_insert_ne by lia. by rewrite lookup_insert_eq.
    + by rewrite lookup_insert_eq.
  - intros q w1 Hq Hpts.
    apply soma_points_ids_NoDup in Hnd. rewrite Hsoma in Hnd.
    assert (Hne : node_id q <> node_id first_point).
    { simpl in Hnd. apply NoDup_cons in Hnd as [Hnotin _].
      rewrite !not_elem_of_cons in Hnotin. destruct Hq as [->| ->]; naive_solver. }
    unfold handle_soma. rewrite Hpts, Hsoma.
    destruct (decide (node_id q ∈ processed_nodes w1)) as [Hin|Hnq].
    + eexists. split; [reflexivity|]. by repeat split.
    + rewrite bool_decide_eq_false_2 by done.
      eexists. split; [reflexivity|]. simpl. repeat split. set_solver.
Qed.

(** The three-point example: the two soma segments. *)
Lemma three_point_soma_segments_witness :
  let w := fresh_writer ex3_nodes "cell.swc" in
  exists w',
    handle_soma ex3_n1 ex3_n1 w = Ok tt w' /\
    segments w' =
      [mkSegment 0 "Seg_0" None (Some (point_of ex3_n2)) (Some (point_of ex3_n1));
       mkSegment 1 "Seg_1" (Some (default_parent 0)) None (Some (point_of ex3_n3))].
Proof.
  intros w.
  destruct (three_point_soma_segments w ex3_n1 ex3_n1 ex3_n2 ex3_n3)
    as [(w' & Hrun & Hsegs & _) _].
  - reflexivity.
  - vm_compute. repeat constructor; set_solver.
  - vm_compute. set_solver.
  - exists w'. split; [exact Hrun | exact Hsegs].
Defined.

(** ** The general rule *)

(** C3, as stated, fails on the code.  At the type boundary between soma
    node 1 and dendrite node 4 the proximal point is node 4's own point,
    not the parent's; and for node 6, of the same type as its parent node 5,
    which has two children, a proximal point is set although there is no
    type boundary. *)
Lemma general_segment_proximal_counterexample :
  (exists segment,
     last (segments (final_state
             (visit_point ex3_n1 ex3_n4 (fresh_writer ex3_nodes "cell.swc"))))
       = Some segment /\
     proximal segment = Some (point_of ex3_n4) /\
     proximal segment <> spec_proximal ex3_n1 ex3_n4) /\
  (exists segment,
     last (segments (final_state
             (visit_point exb_n5 exb_n6 (fresh_writer [exb_n5; exb_n6; exb_n7] "cell.swc"))))
       = Some segment /\
     proximal segment = Some (point_of exb_n5) /\
     proximal segment <> spec_proximal exb_n5 exb_n6).
Proof.
  split; eexists; (split; [vm_compute; reflexivity|]); (split; [reflexivity|]);
    vm_compute; discriminate.
Qed.

(** C3, amended.  A non-soma node that is not yet processed gets exactly
    one new segment.  Its proximal point is the node's own point at a type
    boundary, the parent's point when the types agree and the parent has
    more than one child, and is unset otherwise.  Its distal point is the
    node's own point, except at a type boundary with at least one child,
    where it is the first child's point. *)
Theorem general_segment_ends (w : NeuroMLWriter)
    (parent_point this_point : SWCNode) :
  node_type this_point <> SOMA ->
  node_id this_point ∉ processed_nodes w ->
  exists segment w',
    visit_point parent_point this_point w = Ok tt w' /\
    segments w' = segments w ++ [segment] /\
    seg_id segment = next_segment_id w /\
    (node_type this_point <> node_type parent_point ->
     proximal segment = Some (point_of this_point)) /\
    (node_type this_point = node_type parent_point ->
     (1 < length (children parent_point))%nat ->
     proximal segment = Some (point_of parent_point)) /\
    (node_type this_point = node_type parent_point ->
     (length (children parent_point) <= 1)%nat ->
     proximal segment = None) /\
    (node_type this_point <> node_type parent_point ->
     forall next_point rest,
       children this_point = next_point :: rest ->
       distal segment = Some (point_of next_point)) /\
    (node_type this_point = node_type parent_point \/ children this_point = [] ->
     distal segment = Some (point_of this_point)).
Proof.
  intros Hns Hnin. unfold visit_point.
  apply N.eqb_neq in Hns. rewrite Hns. rewrite decide_False by done.
  unfold create_segment.
  destruct (N.eqb_spec (node_type this_point) (node_type parent_point)) as [Et|Et];
    simpl negb; cbv iota.
  - destruct (bool_decide_reflect (1 < length (children parent_point))%nat) as [Hb|Hb].
    + eexists _, _. split; [reflexivity|]. simpl.
      repeat split; try done; intros; lia.
    + simpl. rewrite bool_decide_eq_true_2 by done.
      eexists _, _. split; [reflexivity|]. simpl.
      repeat split; try done; intros; lia.
  - eexists _, _. split; [reflexivity|]. simpl.
    repeat split; try done.
    + intros _ next_point rest ->. reflexivity.
    + intros [?| ->]; done.
Qed.

(** The dendrite point of the three-point example, a childless node at a type
    boundary: both ends are its own point. *)
Lemma general_segment_ends_witness :
  exists segment w',
    visit_point ex3_n1 ex3_n4 (fresh_writer ex3_nodes "cell.swc") = Ok tt w' /\
    segments w' = [segment] /\
    proximal segment = Some (point_of ex3_n4) /\
    distal segment = Some (point_of ex3_n4).
Proof.
  destruct (general_segment_ends (fresh_writer ex3_nodes "cell.swc") ex3_n1 ex3_n4)
    as (segment & w' & Hrun & Hsegs & _ & Hprox & _ & _ & _ & Hdist).
  - vm_compute. discriminate.
  - vm_compute. set_solver.
  - exists segment, w'. split; [exact Hrun|]. split; [exact Hsegs|].
    split; [apply Hprox; vm_compute; discriminate | apply Hdist; right; reflexivity].
Defined.

(** ** The point-to-segment table after a three-point soma *)

(** C6 on that tree: the build returns, the first and the third soma node
    are in the table, the second soma node is not, and the segment of the
    dendrite point that hangs on it has no parent. *)
Theorem middle_soma_point_not_in_table :
  let o := nml_string ex_branches ex_write ex_depth
             (init_writer ex6_nodes "cell.swc") in
  let w := final_state o in
  returns o = true /\
  node_id <$> soma_points_of (points w) = [1; 2; 3] /\
  point_indices_vs_seg_ids w !! 1 = Some 0 /\
  point_indices_vs_seg_ids w !! 3 = Some 1 /\
  point_indices_vs_seg_ids w !! 2 = None /\
  exists segment,
    segments w !! 2%nat = Some segment /\
    distal segment = Some (point_of ex6_n4) /\
    parent segment = None.
Proof.
  repeat split; try (vm_compute; reflexivity).
  eexists. split; [vm_compute; reflexivity|]. split; reflexivity.
Qed.

(** ** Trees without a soma *)

Lemma soma_free_eq (n : SWCNode) :
  soma_free n = negb (node_type n =? SOMA)%N && forallb soma_free (children n).
Proof. destruct n; reflexivity. Qed.

Lemma height_eq (n : SWCNode) :
  height n = max_list ((fun c => S (height c)) <$> children n).
Proof. destruct n; reflexivity. Qed.

Lemma height_child (c n : SWCNode) :
  c ∈ children n -> (S (height c) <= height n)%nat.
Proof.
  intros Hc. rewrite (height_eq n). apply max_list_elem_of_le.
  apply list_elem_of_fmap. eauto.
Qed.

(** With room for the levels below a node, the call on each of its
    children is made, with room for the levels below the child. *)
Lemma parse_child_within (depth : nat) (this_point c : SWCNode) :
  c ∈ children this_point ->
  (height this_point <= depth)%nat ->
  exists depth',
    parse_child depth this_point c = parse_tree depth' this_point c /\
    (height c <= depth')%nat.
Proof.
  intros Hc%height_child Hh. destruct depth as [|depth']; [lia|].
  exists depth'. split; [reflexivity | lia].
Qed.

Lemma visit_point_soma_free (parent_point this_point : SWCNode) (w : NeuroMLWriter) :
  node_type this_point <> SOMA ->
  node_id this_point ∉ processed_nodes w ->
  no_soma_type w ->
  exists w',
    visit_point parent_point this_point w = Ok tt w' /\
    no_soma_type w' /\
    (length (segments w) < length (segments w'))%nat.
Proof.
  intros Hns Hnin Hinv. unfold visit_point.
  apply N.eqb_neq in Hns as Hns'. rewrite Hns'. rewrite decide_False by done.
  eexists. split; [reflexivity|].
  destruct (create_segment_emit this_point parent_point
              (bool_decide (1 < length (children parent_point))%nat
               || negb (node_type this_point =? node_type parent_point)%N) w)
    as (segment & -> & _).
  split.
  - intros sid t. simpl. rewrite lookup_insert. case_decide.
    + intros [= <-]. done.
    + apply Hinv.
  - simpl. rewrite length_app. simpl. lia.
Qed.

Lemma for_each_child_soma_free (visit : SWCNode -> M NeuroMLWriter unit)
    (cs : list SWCNode) :
  Forall (fun c => forall w,
            node_id c ∉ processed_nodes w -> no_soma_type w ->
            exists w', visit c w = Ok tt w' /\ no_soma_type w' /\
                       (length (segments w) <= length (segments w'))%nat) cs ->
  forall w, no_soma_type w ->
    exists w', for_each_child visit cs w = Ok tt w' /\ no_soma_type w' /\
               (length (segments w) <= length (segments w'))%nat.
Proof.
  induction 1 as [|c cs Hc _ IH]; intros w Hinv; simpl.
  - eauto.
  - destruct (decide _) as [|Hnin]; [by apply IH|].
    destruct (Hc w Hnin Hinv) as (w1 & -> & Hinv1 & Hlen1).
    destruct (IH w1 Hinv1) as (w2 & -> & Hinv2 & Hlen2).
    exists w2. repeat split; [done | lia].
Qed.

Lemma parse_tree_soma_free (this_point : SWCNode) :
  soma_free this_point = true ->
  forall depth parent_point w,
    (height this_point <= depth)%nat ->
    node_id this_point ∉ processed_nodes w ->
    no_soma_type w ->
    exists w',
      parse_tree depth parent_point this_point w = Ok tt w' /\
      no_soma_type w' /\
      (length (segments w) < length (segments w'))%nat.
Proof.
  induction this_point as [i t x y z r p cs IH] using SWCNode_tree_ind.
  rewrite soma_free_eq. cbn [node_type children].
  intros [Ht Hcs]%andb_true_iff depth parent_point w Hdepth Hnin Hinv.
  rewrite parse_tree_eq. rewrite decide_False by done. cbn [children].
  apply negb_true_iff, N.eqb_neq in Ht.
  destruct (visit_point_soma_free parent_point (mkSWCNode i t x y z r p cs) w)
    as (w1 & -> & Hinv1 & Hlen1); [done..|].
  destruct (for_each_child_soma_free
              (parse_child depth (mkSWCNode i t x y z r p cs)) cs) with (w := w1)
    as (w2 & -> & Hinv2 & Hlen2); [|done|].
  - rewrite Forall_forall in IH.
    apply Forall_forall. intros c Hc w' Hnin' Hinv'.
    assert (Hfree : soma_free c = true).
    { eapply forallb_forall; [exact Hcs | by apply list_elem_of_In]. }
    destruct (parse_child_within depth (mkSWCNode i t x y z r p cs) c)
      as (depth' & -> & Hdepth'); [done..|].
    destruct (IH c Hc Hfree depth' (mkSWCNode i t x y z r p cs) w'
                Hdepth' Hnin' Hinv')
      as (w'' & ? & ? & ?).
    exists w''. repeat split; [done..|lia].
  - exists w2. repeat split; [done | lia].
Qed.

Lemma soma_free_no_soma_points (nodes : list SWCNode) :
  forallb soma_free nodes = true -> soma_points_of nodes = [].
Proof.
  intros H. induction nodes as [|n nodes IH]; [done|].
  simpl in H. apply andb_true_iff in H as [Hn Hrest].
  unfold soma_points_of. rewrite filter_cons.
  rewrite soma_free_eq in Hn. apply andb_true_iff in Hn as [Hn _].
  apply negb_true_iff, N.eqb_neq in Hn.
  rewrite decide_False by done. by apply IH.
Qed.

Lemma no_soma_type_no_root (w : NeuroMLWriter) :
  no_soma_type w -> list_min (soma_segment_ids w) = None.
Proof.
  intros Hinv. unfold soma_segment_ids.
  assert (E : filter (fun kt : Z * N => kt.2 = SOMA) (map_to_list (segment_types w)) = []).
  { apply elem_of_nil_inv. intros [k t] Hin.
    apply list_elem_of_filter in Hin as [Hsoma Hin]. simpl in Hsoma.
    apply elem_of_map_to_list in Hin. by apply Hinv in Hin. }
  by rewrite E.
Qed.

(** ** Sorting the soma points by x *)

Lemma insert_by_x_perm (p : SWCNode) (l : list SWCNode) :
  insert_by_x p l ≡ₚ p :: l.
Proof.
  induction l as [|q l IH]; simpl; [done|].
  destruct (Qle_bool _ _); [done|].
  rewrite IH. apply Permutation_swap.
Qed.

Lemma sorted_by_x_perm (l : list SWCNode) : sorted_by_x l ≡ₚ l.
Proof.
  induction l as [|p l IH]; simpl; [done|].
  rewrite insert_by_x_perm. by rewrite IH.
Qed.

Lemma insert_by_x_sorted (p : SWCNode) (l : list SWCNode) :
  Sorted x_le l -> Sorted x_le (insert_by_x p l).
Proof.
  induction 1 as [|q l Hs IH Hhd]; simpl.
  - repeat constructor.
  - destruct (Qle_bool (node_x p) (node_x q)) eqn:E.
    + apply Qle_bool_iff in E. repeat constructor; done.
    + assert (Hqp : x_le q p).
      { unfold x_le. destruct (Qlt_le_dec (node_x q) (node_x p)) as [H|H].
        - by apply Qlt_le_weak.
        - apply Qle_bool_iff in H. congruence. }
      constructor; [exact IH|].
      destruct Hhd as [|r l Hqr]; simpl; [by constructor|].
      destruct (Qle_bool (node_x p) (node_x r)); by constructor.
Qed.

Lemma sorted_by_x_sorted (l : list SWCNode) : StronglySorted x_le (sorted_by_x l).
Proof.
  assert (Transitive x_le) by (intros a b c; apply Qle_trans).
  apply Sorted_StronglySorted; [done|].
  induction l as [|p l IH]; simpl; [constructor|].
  by apply insert_by_x_sorted.
Qed.

(** ** The chain over the sorted soma points *)

Lemma multi_point_soma_segments (rest : list SWCNode) :
  forall (i : nat) (w : NeuroMLWriter),
    NoDup (node_id <$> rest) ->
    (forall p, p ∈ rest -> node_id p ∉ processed_nodes w) ->
    segments (multi_point_soma i rest w) =
      segments w ++
      imap (fun j cur =>
              multi_segment (i + j) cur (drop (S j) rest)
                (next_segment_id w + Z.of_nat j)) rest.
Proof.
  induction rest as [|cur rest IH]; intros i w Hnd Hnin.
  - simpl. by rewrite app_nil_r.
  - rewrite multi_point_soma_cons.
    rewrite decide_False by (apply Hnin; left).
    rewrite fmap_cons in Hnd. apply NoDup_cons in Hnd as [Hcur Hnd].
    rewrite IH; [|done|].
    + simpl. rewrite <- app_assoc. f_equal. simpl. f_equal.
      * by rewrite Nat.add_0_r, Z.add_0_r.
      * apply imap_ext. intros j q _. simpl.
        replace (i + S j)%nat with (S i + j)%nat by lia.
        f_equal. lia.
    + intros p Hp. simpl. intros [Hin|Heq%elem_of_singleton]%elem_of_union.
      * revert Hin. apply Hnin. by right.
      * apply Hcur. rewrite <- Heq. apply list_elem_of_fmap. eauto.
Qed.

Lemma multi_segment_spec (n : Z) (sorted : list SWCNode) (j : nat) (cur : SWCNode) :
  multi_segment (0 + j) cur (drop (S j) sorted) (n + Z.of_nat j)
  = spec_chain_segment n sorted j cur.
Proof.
  unfold multi_segment, spec_chain_segment. cbn [Nat.add]. f_equal.
  assert (drop (S j) sorted !! 0%nat = sorted !! S j) as <-
    by (rewrite lookup_drop; f_equal; lia).
  by destruct (drop (S j) sorted).
Qed.

Lemma multi_point_soma_chain (sorted : list SWCNode) (w : NeuroMLWriter) :
  NoDup (node_id <$> sorted) ->
  (forall p, p ∈ sorted -> node_id p ∉ processed_nodes w) ->
  segments (multi_point_soma 0 sorted w)
  = segments w ++ spec_chain (next_segment_id w) sorted.
Proof.
  intros Hnd Hnin. rewrite multi_point_soma_segments by done.
  f_equal. apply imap_ext. intros j q _. apply multi_segment_spec.
Qed.

Lemma filter_unprocessed_fresh (done_ids : gset Z) (k : Z) (rest : list SWCNode) :
  k ∉ node_id <$> rest ->
  filter (fun p => node_id p ∉ done_ids ∪ {[k]}) rest
  = filter (fun p => node_id p ∉ done_ids) rest.
Proof.
  induction rest as [|q rest IH]; [done|].
  rewrite fmap_cons, not_elem_of_cons. intros [Hq Hrest].
  rewrite !filter_cons, IH by done.
  destruct (decide (node_id q ∉ done_ids)) as [Hn|Hn].
  - rewrite decide_True; [done | set_solver].
  - rewrite decide_False; [done | set_solver].
Qed.

Lemma multi_point_soma_count (rest : list SWCNode) :
  forall (i : nat) (w : NeuroMLWriter),
    NoDup (node_id <$> rest) ->
    length (segments (multi_point_soma i rest w))
    = (length (segments w)
       + length (filter (fun p => node_id p ∉ processed_nodes w) rest))%nat.
Proof.
  induction rest as [|cur rest IH]; intros i w Hnd.
  - simpl. lia.
  - rewrite multi_point_soma_cons, filter_cons.
    rewrite fmap_cons in Hnd. apply NoDup_cons in Hnd as [Hcur Hnd].
    destruct (decide (node_id cur ∈ processed_nodes w)) as [Hin|Hnin].
    + rewrite decide_False by (intros H; by apply H). by apply IH.
    + rewrite decide_True by done. rewrite IH by done.
      cbn [segments mark_processed emit set_processed set_next_segment_id
           record_segment add_segment_to_groups set_segment_groups
           set_segment_types set_point_indices set_segments processed_nodes].
      rewrite filter_unprocessed_fresh by done.
      rewrite length_app. simpl. lia.
Qed.

(** C2, as stated, fails on the code: with N = 4 soma points the handler
    run on the lowest-x point emits 4 segments, not N - 1 = 3, and the
    model [nml_string] builds has these 4 segments. *)
Lemma multi_point_soma_count_counterexample :
  let w := fresh_writer ex4_nodes "cell.swc" in
  let N := length (soma_points_of (points w)) in
  N = 4%nat /\
  head (sorted_by_x (soma_points_of (points w))) = Some ex4_n1 /\
  (exists w',
     handle_soma ex4_n1 ex4_n1 w = Ok tt w' /\
     length (segments w') = 4%nat /\
     length (segments w') <> (N - 1)%nat) /\
  length (soma_segment_ids
            (final_state (nml_string ex_branches ex_write ex_depth
                            (init_writer ex4_nodes "cell.swc")))) = 4%nat.
Proof.
  split; [reflexivity|]. split; [reflexivity|]. split.
  - eexists. split; [vm_compute; reflexivity|].
    split; [reflexivity | vm_compute; discriminate].
  - vm_compute. reflexivity.
Qed.

(** C2, amended.  For N > 3 soma points with unique node ids, in a tree
    that is not the multi-cylinder arrangement (the proof does not use
    the arrangement, so the statement has no hypothesis on it): the soma
    points are sorted by ascending x; the handler run on the first point
    of the sorted sequence, not yet processed, returns after appending one
    segment for every soma point not yet processed; when no soma point is
    processed yet these are exactly N segments, the chain over the sorted
    sequence (segment i has a proximal point only for i = 0, has segment
    i - 1 as parent otherwise, and ends at point i + 1, the last one at
    its own point); and the handler run on any other point, in any later
    state of the same tree, returns without adding a segment or a table
    entry. *)
Theorem multi_point_soma_chain_emitted (w : NeuroMLWriter) (parent_point : SWCNode) :
  let soma := soma_points_of (points w) in
  let sorted := sorted_by_x soma in
  (3 < length soma)%nat ->
  NoDup (node_id <$> points w) ->
  StronglySorted x_le sorted /\
  sorted ≡ₚ soma /\
  exists lowest,
    head sorted = Some lowest /\
    (node_id lowest ∉ processed_nodes w ->
     exists w',
       handle_soma lowest parent_point w = Ok tt w' /\
       length (segments w')
       = (length (segments w)
          + length (filter (fun p => node_id p ∉ processed_nodes w) soma))%nat /\
       ((forall p, p ∈ soma -> node_id p ∉ processed_nodes w) ->
        segments w' = segments w ++ spec_chain (next_segment_id w) sorted /\
        length (spec_chain (next_segment_id w) sorted) = length soma)) /\
    (forall q w1,
       node_id q <> node_id lowest ->
       points w1 = points w ->
       exists w',
         handle_soma q parent_point w1 = Ok tt w' /\
         segments w' = segments w1 /\
         next_segment_id w' = next_segment_id w1 /\
         point_indices_vs_seg_ids w' = point_indices_vs_seg_ids w1).
Proof.
  intros soma sorted Hlen Hnd.
  pose proof (sorted_by_x_perm soma) as Hperm. fold sorted in Hperm.
  split; [apply sorted_by_x_sorted|]. split; [exact Hperm|].
  assert (Hlen' : length sorted = length soma) by by rewrite Hperm.
  destruct sorted as [|lowest rest] eqn:Es; [simpl in Hlen'; lia|].
  exists lowest. split; [reflexivity|].
  assert (Hnd' : NoDup (node_id <$> lowest :: rest)).
  { rewrite Hperm. by apply soma_points_ids_NoDup. }
  split.
  - intros Hlow.
    rewrite handle_soma_multi; [|done|fold soma; lia..].
    unfold multi_branch. fold soma. replace (sorted_by_x soma) with (lowest :: rest).
    unfold node_eqb. rewrite bool_decide_eq_true_2 by done.
    eexists. split; [reflexivity|].
    change (segments (mark_processed (node_id lowest)
              (multi_point_soma 0 (lowest :: rest) w)))
      with (segments (multi_point_soma 0 (lowest :: rest) w)).
    split.
    + rewrite multi_point_soma_count by done. by rewrite Hperm.
    + intros Hnin. split.
      * apply multi_point_soma_chain; [done|].
        intros p Hp. apply Hnin. by rewrite <- Hperm.
      * unfold spec_chain. by rewrite length_imap.
  - intros q w1 Hq Hpts.
    destruct (decide (node_id q ∈ processed_nodes w1)) as [Hin|Hnq].
    + unfold handle_soma. rewrite decide_True by done. eauto.
    + rewrite handle_soma_multi; [|done|rewrite Hpts; fold soma; lia..].
      unfold multi_branch. rewrite Hpts. fold soma.
      replace (sorted_by_x soma) with (lowest :: rest).
      unfold node_eqb. rewrite bool_decide_eq_false_2 by done.
      eexists. split; [reflexivity|]. done.
Qed.

(** The four-point contour: four segments, ending at the points of nodes 3,
    4, 2 and 2. *)
Lemma multi_point_soma_chain_emitted_witness :
  let w := fresh_writer ex4_nodes "cell.swc" in
  exists w',
    handle_soma ex4_n1 ex4_n1 w = Ok tt w' /\
    seg_id <$> segments w' = [0; 1; 2; 3] /\
    distal <$> segments w' =
      Some <$> [point_of ex4_n3; point_of ex4_n4; point_of ex4_n2; point_of ex4_n2].
Proof.
  intros w.
  destruct (multi_point_soma_chain_emitted w ex4_n1)
    as (_ & _ & lowest & Hhead & Hlow & _).
  - vm_compute. lia.
  - vm_compute. repeat constructor; set_solver.
  - vm_compute in Hhead. injection Hhead as <-.
    destruct Hlow as (w' & Hrun & _ & Hchain); [simpl; set_solver|].
    destruct Hchain as [Hsegs _]; [intros p _; simpl; set_solver|].
    exists w'. split; [exact Hrun|]. rewrite Hsegs.
    split; vm_compute; reflexivity.
Defined.

(** When the traversal starts at a soma point that is not the lowest-x
    one, that point is processed before the chain is made: it gets neither
    a segment nor a table entry, and four soma points give three
    segments. *)
Example multi_point_soma_start_not_lowest :
  let o := nml_string ex_branches ex_write ex_depth (init_writer ex5_nodes "cell.swc") in
  let w := final_state o in
  returns o = true /\
  head (sorted_by_x (soma_points_of (points w))) = Some ex5_n2 /\
  seg_id <$> segments w = [0; 1; 2] /\
  point_indices_vs_seg_ids w !! 1 = None /\
  point_indices_vs_seg_ids w !! 2 = Some 0.
Proof. repeat split; vm_compute; reflexivity. Qed.

(** ** The exporter: parent attachment *)

Lemma Qltb_lt (a b : Q) : Qltb a b = true <-> (a < b)%Q.
Proof.
  unfold Qltb. rewrite negb_true_iff. split.
  - intros H. apply Qnot_le_lt. intros Hle. apply Qle_bool_iff in Hle. congruence.
  - intros H. destruct (Qle_bool b a) eqn:E; [|done].
    apply Qle_bool_iff in E. apply Qlt_not_le in H. contradiction.
Qed.

Lemma Qltb_ge (a b : Q) : Qltb a b = false <-> (b <= a)%Q.
Proof.
  unfold Qltb. rewrite negb_false_iff. apply Qle_bool_iff.
Qed.

Lemma rounded_fract_near_one (f : Q) :
  (Qabs (f - 1) < tolerance)%Q -> rounded_fract f = 1%Q.
Proof.
  intros H. unfold rounded_fract.
  apply Qabs_Qlt_condition in H as [H1 H2]. unfold tolerance in *.
  assert (E1 : Qltb f (1 # 10000) = false) by (apply Qltb_ge; lra).
  rewrite E1.
  assert (E2 : Qltb (Qabs (f - 1)) (1 # 10000) = true).
  { apply Qltb_lt, Qabs_Qlt_condition. split; lra. }
  by rewrite E2.
Qed.

Lemma rounded_fract_not_one (f : Q) :
  ~ (Qabs (f - 1) < tolerance)%Q -> Qeq_bool (rounded_fract f) 1 = false.
Proof.
  intros H. unfold rounded_fract.
  destruct (Qltb f tolerance) eqn:E1.
  - reflexivity.
  - destruct (Qltb (Qabs (f - 1)) tolerance) eqn:E2.
    + apply Qltb_lt in E2. contradiction.
    + destruct (Qeq_bool f 1) eqn:E3; [|done].
      apply Qeq_bool_iff in E3. exfalso. apply H.
      apply Qabs_Qlt_condition. unfold tolerance. split; lra.
Qed.

(** A fraction within the tolerance of 1 takes the parent's distal line. *)
Lemma parent_line_near_one (p : SegmentParent) (s : ExportState) :
  (Qabs (fraction_along p - 1) < tolerance)%Q ->
  parent_line_of p s = dict_get line_index_vs_distals (parent_segments p) s.
Proof.
  intros H. unfold parent_line_of. by rewrite rounded_fract_near_one.
Qed.

(** A fraction that is 0 takes the parent's proximal line. *)
Lemma parent_line_zero (p : SegmentParent) (s : ExportState) :
  (fraction_along p == 0)%Q ->
  parent_line_of p s = dict_get line_index_vs_proximals (parent_segments p) s.
Proof.
  intros H. unfold parent_line_of.
  rewrite rounded_fract_not_one.
  - apply Qeq_bool_iff in H. by rewrite H.
  - rewrite H. intros Hlt. apply Qabs_Qlt_condition in Hlt as [? ?].
    unfold tolerance in *. lra.
Qed.

(** Every other fraction is refused, a non-zero one within the tolerance
    of 0 included. *)
Lemma parent_line_other (p : SegmentParent) (s : ExportState) :
  ~ (Qabs (fraction_along p - 1) < tolerance)%Q ->
  ~ (fraction_along p == 0)%Q ->
  parent_line_of p s = Raise UnsupportedAttachmentError s.
Proof.
  intros H1 H0. unfold parent_line_of.
  rewrite rounded_fract_not_one by done.
  destruct (Qeq_bool (fraction_along p) 0) eqn:E; [|done].
  apply Qeq_bool_iff in E. contradiction.
Qed.

(** C7 on a dendrite attached at fraction 0.00005, within the tolerance of
    0: the export raises instead of taking the proximal line of the parent,
    which it does take (line 1) when the fraction is exactly 0.  At
    fraction 1 the parent line is the distal line of the parent (line 2),
    and at fraction 0.5 the export raises. *)
Theorem near_zero_attachment_refused :
  (Qabs ((1 # 20000) - 0) < tolerance)%Q /\
  (exists s, convert_to_swc ex_ordered_segments "dir"
               [ex7_cell (1 # 20000)] empty_export_state
             = Raise UnsupportedAttachmentError s) /\
  (exists s, convert_to_swc ex_ordered_segments "dir"
               [ex7_cell 0] empty_export_state = Ok tt s /\
             line_parent <$> default [] (files s !! "dir/cell7.swc") = [-1; 1; 1]) /\
  (exists s, convert_to_swc ex_ordered_segments "dir"
               [ex7_cell 1] empty_export_state = Ok tt s /\
             line_parent <$> default [] (files s !! "dir/cell7.swc") = [-1; 1; 2]) /\
  (exists s, convert_to_swc ex_ordered_segments "dir"
               [ex7_cell (1 # 2)] empty_export_state
             = Raise UnsupportedAttachmentError s).
Proof.
  split; [vm_compute; reflexivity|].
  repeat split; eexists; try split; vm_compute; reflexivity.
Qed.

(** ** The exporter: group coverage *)

Lemma lines_for_segments_ids (type : N) (segs : list Segment) :
  forall s lines ids s',
    lines_for_segments type segs s = Ok (lines, ids) s' ->
    ids = seg_id <$> segs.
Proof.
  induction segs as [|segment segs IH]; intros s lines ids s'; simpl.
  - unfold ret. by intros [= _ <- _].
  - unfold bind at 1.
    destruct (lines_for_segment type segment s) as [here s1|e s1]; [|done].
    unfold bind at 1.
    destruct (lines_for_segments type segs s1) as [[rest ids'] s2|e s2] eqn:E;
      [|done].
    unfold ret. intros [= _ <- _]. simpl. f_equal. by eapply IH.
Qed.

Lemma lines_for_segment_types (type : N) (segment : Segment)
    (s s' : ExportState) (lines : list SwcLine) :
  lines_for_segment type segment s = Ok lines s' ->
  Forall (fun l => line_type l = type) lines.
Proof.
  unfold lines_for_segment. unfold bind at 1.
  destruct (match parent segment with
            | Some p => parent_line_of p
            | None => ret (-1)
            end s) as [parent_line s1|e s1]; [|done].
  destruct (proximal segment), (distal segment); simpl;
    try discriminate; intros [= <- _]; repeat constructor.
Qed.

Lemma lines_for_segments_types (type : N) (segs : list Segment) :
  forall s lines ids s',
    lines_for_segments type segs s = Ok (lines, ids) s' ->
    Forall (fun l => line_type l = type) lines.
Proof.
  induction segs as [|segment segs IH]; intros s lines ids s'; simpl.
  - unfold ret. intros [= <- _ _]. constructor.
  - unfold bind at 1.
    destruct (lines_for_segment type segment s) as [here s1|e s1] eqn:E1; [|done].
    unfold bind at 1.
    destruct (lines_for_segments type segs s1) as [[rest ids'] s2|e s2] eqn:E2;
      [|done].
    unfold ret. intros [= <- _ _]. simpl. apply Forall_app. split.
    + by eapply lines_for_segment_types.
    + by eapply IH.
Qed.

Lemma parent_line_of_files (p : SegmentParent) (s : ExportState) :
  files (final_state (parent_line_of p s)) = files s.
Proof.
  unfold parent_line_of, dict_get, raise.
  destruct (Qeq_bool _ 1); [by destruct (_ !! _)|].
  destruct (Qeq_bool _ 0); [by destruct (_ !! _)|done].
Qed.

Lemma lines_for_segment_files (type : N) (segment : Segment) (s : ExportState) :
  files (final_state (lines_for_segment type segment s)) = files s.
Proof.
  unfold lines_for_segment. unfold bind at 1.
  assert (Hp : files (final_state
                 (match parent segment with
                  | Some p => parent_line_of p
                  | None => ret (-1)
                  end s)) = files s).
  { destruct (parent segment); [apply parent_line_of_files | done]. }
  destruct (match parent segment with
            | Some p => parent_line_of p
            | None => ret (-1)
            end s) as [parent_line s1|e s1]; simpl in Hp; [|done].
  rewrite <- Hp. clear Hp.
  destruct (proximal segment), (distal segment); reflexivity.
Qed.

Lemma lines_for_segments_files (type : N) (segs : list Segment) :
  forall s, files (final_state (lines_for_segments type segs s)) = files s.
Proof.
  induction segs as [|segment segs IH]; intros s; simpl; [done|].
  unfold bind at 1.
  pose proof (lines_for_segment_files type segment s) as H1.
  destruct (lines_for_segment type segment s) as [here s1|e s1];
    simpl in H1; [|done].
  unfold bind at 1. specialize (IH s1).
  destruct (lines_for_segments type segs s1) as [rest s2|e s2]; simpl in *;
    congruence.
Qed.

Lemma lines_for_segment_raises (type : N) (segment : Segment)
    (s s' : ExportState) (e : exn) :
  lines_for_segment type segment s = Raise e s' ->
  e = UnsupportedAttachmentError \/ e = KeyError \/ e = AttributeError.
Proof.
  unfold lines_for_segment, bind.
  destruct (match parent segment with
            | Some p => parent_line_of p
            | None => ret (-1)
            end s) as [pl s1|e1 s1] eqn:E1.
  - destruct (proximal segment); simpl; destruct (distal segment); simpl;
      unfold raise; intros [= <- _]; auto.
  - intros [= <- _]. destruct (parent segment) as [p|]; [|done].
    revert E1. unfold parent_line_of, dict_get, raise.
    destruct (Qeq_bool _ 1).
    + destruct (_ !! _); [done|]. intros [= <- _]. auto.
    + destruct (Qeq_bool _ 0).
      * destruct (_ !! _); [done|]. intros [= <- _]. auto.
      * intros [= <- _]. auto.
Qed.

Lemma lines_for_segments_raises (type : N) (segs : list Segment) :
  forall (s s' : ExportState) (e : exn),
    lines_for_segments type segs s = Raise e s' ->
    e = UnsupportedAttachmentError \/ e = KeyError \/ e = AttributeError.
Proof.
  induction segs as [|segment segs IH]; intros s s' e; simpl; [done|].
  unfold bind at 1.
  destruct (lines_for_segment type segment s) as [here s1|e1 s1] eqn:E1.
  - unfold bind at 1.
    destruct (lines_for_segments type segs s1) as [rest s2|e2 s2] eqn:E2;
      [done|].
    intros [= <- _]. by eapply IH.
  - intros [= <- _]. by eapply lines_for_segment_raises.
Qed.

Section Coverage.

Variable get_ordered_segments_in_groups :
  Cell -> list string -> gmap string (list Segment).

Lemma get_lines_visits_group (cell : Cell) (sg : string) (type : N)
    (s s' : ExportState) (r : list SwcLine * list Z) :
  _get_lines_for_seg_group get_ordered_segments_in_groups cell sg type s = Ok r s' ->
  length r.2 = group_size get_ordered_segments_in_groups cell sg.
Proof.
  unfold _get_lines_for_seg_group, group_size.
  destruct (get_ordered_segments_in_groups cell [sg] !! sg) as [segs|]; simpl.
  - destruct r as [lines ids]. intros ->%lines_for_segments_ids.
    simpl. by rewrite length_fmap.
  - unfold ret. by intros [= <- _].
Qed.

Lemma get_lines_keeps_files (cell : Cell) (sg : string) (type : N)
    (s : ExportState) :
  files (final_state
           (_get_lines_for_seg_group get_ordered_segments_in_groups cell sg type s))
  = files s.
Proof.
  unfold _get_lines_for_seg_group.
  destruct (_ !! sg); [apply lines_for_segments_files | done].
Qed.

Lemma get_lines_types (cell : Cell) (sg : string) (type : N)
    (s s' : ExportState) (r : list SwcLine * list Z) :
  _get_lines_for_seg_group get_ordered_segments_in_groups cell sg type s = Ok r s' ->
  Forall (fun l => line_type l = type) r.1.
Proof.
  unfold _get_lines_for_seg_group.
  destruct (get_ordered_segments_in_groups cell [sg] !! sg) as [segs|].
  - destruct r as [lines ids]. apply lines_for_segments_types.
  - unfold ret. intros [= <- _]. constructor.
Qed.

Lemma get_lines_raises (cell : Cell) (sg : string) (type : N)
    (s s' : ExportState) (e : exn) :
  _get_lines_for_seg_group get_ordered_segments_in_groups cell sg type s
    = Raise e s' ->
  e = UnsupportedAttachmentError \/ e = KeyError \/ e = AttributeError.
Proof.
  unfold _get_lines_for_seg_group.
  destruct (_ !! sg); [apply lines_for_segments_raises | done].
Qed.

Lemma walk_groups_ok (cell : Cell) (s s3 : ExportState)
    (walked : (list SwcLine * list Z) * (list SwcLine * list Z)
              * (list SwcLine * list Z)) :
  walk_groups get_ordered_segments_in_groups cell s = Ok walked s3 ->
  exists s1 s2,
    _get_lines_for_seg_group get_ordered_segments_in_groups
      cell "soma_group" 1%N s = Ok walked.1.1 s1 /\
    _get_lines_for_seg_group get_ordered_segments_in_groups
      cell "dendrite_group" 3%N s1 = Ok walked.1.2 s2 /\
    _get_lines_for_seg_group get_ordered_segments_in_groups
      cell "axon_group" 2%N s2 = Ok walked.2 s3.
Proof.
  unfold walk_groups, bind, ret.
  destruct (_get_lines_for_seg_group _ cell "soma_group" 1%N s)
    as [soma s1|e s1] eqn:E1; [|done].
  destruct (_get_lines_for_seg_group _ cell "dendrite_group" 3%N s1)
    as [dend s2|e s2] eqn:E2; [|done].
  destruct (_get_lines_for_seg_group _ cell "axon_group" 2%N s2)
    as [axon s3'|e s3'] eqn:E3; [|done].
  intros [= <- <-]. exists s1, s2. simpl. done.
Qed.

Lemma walk_groups_keeps_files (cell : Cell) (s : ExportState) :
  files (final_state (walk_groups get_ordered_segments_in_groups cell s))
  = files s.
Proof.
  pose proof (get_lines_keeps_files cell "soma_group" 1%N s) as F1.
  unfold walk_groups, bind, ret.
  destruct (_get_lines_for_seg_group _ cell "soma_group" 1%N s)
    as [soma s1|e s1]; [|done].
  pose proof (get_lines_keeps_files cell "dendrite_group" 3%N s1) as F2.
  destruct (_get_lines_for_seg_group _ cell "dendrite_group" 3%N s1)
    as [dend s2|e s2]; simpl in *; [|congruence].
  pose proof (get_lines_keeps_files cell "axon_group" 2%N s2) as F3.
  destruct (_get_lines_for_seg_group _ cell "axon_group" 2%N s2)
    as [axon s3|e s3]; simpl in *; congruence.
Qed.

Lemma walk_groups_raises (cell : Cell) (s s' : ExportState) (e : exn) :
  walk_groups get_ordered_segments_in_groups cell s = Raise e s' ->
  e = UnsupportedAttachmentError \/ e = KeyError \/ e = AttributeError.
Proof.
  unfold walk_groups, bind, ret.
  destruct (_get_lines_for_seg_group _ cell "soma_group" 1%N s)
    as [soma s1|e1 s1] eqn:E1.
  2:{ intros [= <- _]. by eapply get_lines_raises. }
  destruct (_get_lines_for_seg_group _ cell "dendrite_group" 3%N s1)
    as [dend s2|e2 s2] eqn:E2.
  2:{ intros [= <- _]. by eapply get_lines_raises. }
  destruct (_get_lines_for_seg_group _ cell "axon_group" 2%N s2)
    as [axon s3|e3 s3] eqn:E3; [done|].
  intros [= <- _]. by eapply get_lines_raises.
Qed.

(** [convert_to_swc] on a document of one cell, from the three walks. *)
Lemma convert_one_cell (base_dir : string) (cell : Cell) (s0 : ExportState) :
  let name := swc_file_name base_dir cell in
  let start := set_files (insert name []) (mkExportState 1 ∅ ∅ (files s0)) in
  convert_to_swc get_ordered_segments_in_groups base_dir [cell] s0 =
  match walk_groups get_ordered_segments_in_groups cell start with
  | Raise e s3 => Raise e s3
  | Ok walked s3 =>
      if negb (length (c_segments cell)
                 =? length walked.1.1.2 + length walked.1.2.2
                    + length walked.2.2)%nat
      then Raise IncompleteGroupCoverageError s3
      else Ok tt (set_files
                    (alter (fun written =>
                              written ++ (([] ++ walked.1.1.1) ++ walked.1.2.1)
                                      ++ walked.2.1) name) s3)
  end.
Proof.
  intros name start.
  unfold convert_to_swc, convert_cells, convert_cell, walk_groups,
    bind, modify, ret, raise.
  fold name. fold start.
  destruct (_get_lines_for_seg_group _ cell "soma_group" 1%N start)
    as [soma s1|e s1]; [|reflexivity].
  destruct (_get_lines_for_seg_group _ cell "dendrite_group" 3%N s1)
    as [dend s2|e s2]; [|reflexivity].
  destruct (_get_lines_for_seg_group _ cell "axon_group" 2%N s2)
    as [axon s3|e s3]; [|reflexivity].
  cbn [fst snd]. destruct (negb _); reflexivity.
Qed.

(** C8, amended.  For a document of one cell, the export opens the file of
    the cell and walks soma_group (type 1), dendrite_group (type 3) and
    axon_group (type 2), in that order, from the reset counters.  If a walk
    raises (an attachment it cannot write, a parent segment without a
    line, a segment without a distal point), the export ends with that
    error.  If the walks return, their lines carry these types and they
    visited as many segments as the three groups hold; when that number
    differs from the number of segments of the cell the export raises the
    coverage error, otherwise it returns and the file holds the soma
    lines, then the dendrite lines, then the axon lines.  Whenever the
    export raises, the file of the cell holds no line. *)
Theorem coverage_checked_before_writing
    (base_dir : string) (cell : Cell) (s0 : ExportState) :
  let name := swc_file_name base_dir cell in
  let start := set_files (insert name []) (mkExportState 1 ∅ ∅ (files s0)) in
  let visited := (group_size get_ordered_segments_in_groups cell "soma_group"
                  + group_size get_ordered_segments_in_groups cell "dendrite_group"
                  + group_size get_ordered_segments_in_groups cell "axon_group")%nat in
  match walk_groups get_ordered_segments_in_groups cell start with
  | Raise e s3 =>
      (e = UnsupportedAttachmentError \/ e = KeyError \/ e = AttributeError) /\
      convert_to_swc get_ordered_segments_in_groups base_dir [cell] s0
        = Raise e s3 /\
      files s3 !! name = Some []
  | Ok walked s3 =>
      let soma := walked.1.1 in
      let dend := walked.1.2 in
      let axon := walked.2 in
      (Forall (fun l => line_type l = 1%N) soma.1 /\
       Forall (fun l => line_type l = 3%N) dend.1 /\
       Forall (fun l => line_type l = 2%N) axon.1 /\
       (length soma.2 + length dend.2 + length axon.2)%nat = visited) /\
      (length (c_segments cell) <> visited ->
       convert_to_swc get_ordered_segments_in_groups base_dir [cell] s0
         = Raise IncompleteGroupCoverageError s3 /\
       files s3 !! name = Some []) /\
      (length (c_segments cell) = visited ->
       exists s',
         convert_to_swc get_ordered_segments_in_groups base_dir [cell] s0
           = Ok tt s' /\
         files s' !! name = Some (soma.1 ++ dend.1 ++ axon.1))
  end.
Proof.
  intros name start visited.
  pose proof (convert_one_cell base_dir cell s0) as Hrun.
  cbv zeta in Hrun. fold name in Hrun. fold start in Hrun.
  pose proof (walk_groups_keeps_files cell start) as Hkeep.
  destruct (walk_groups get_ordered_segments_in_groups cell start)
    as [walked s3|e s3] eqn:Hwalk; simpl in Hkeep.
  2:{ split; [by eapply walk_groups_raises|]. split; [exact Hrun|].
      rewrite Hkeep. apply lookup_insert_eq. }
  assert (Hfiles : files s3 !! name = Some [])
    by (rewrite Hkeep; apply lookup_insert_eq).
  apply walk_groups_ok in Hwalk as (s1 & s2 & Hsoma & Hdend & Haxon).
  assert (Hcount : (length walked.1.1.2 + length walked.1.2.2
                    + length walked.2.2)%nat = visited).
  { unfold visited.
    by rewrite <- (get_lines_visits_group _ _ _ _ _ _ Hsoma),
               <- (get_lines_visits_group _ _ _ _ _ _ Hdend),
               <- (get_lines_visits_group _ _ _ _ _ _ Haxon). }
  cbv zeta. split.
  { repeat split; [by eapply get_lines_types..|exact Hcount]. }
  rewrite Hrun, Hcount. split.
  - intros Hne. apply Nat.eqb_neq in Hne. by rewrite Hne.
  - intros Heq. apply Nat.eqb_eq in Heq. rewrite Heq. simpl.
    eexists. split; [reflexivity|]. simpl.
    rewrite lookup_alter_eq, Hfiles. simpl. by rewrite <- app_assoc.
Qed.

End Coverage.

(** A cell with a segment outside the three groups: the walks return, the
    export raises the coverage error and the file stays empty. *)
Lemma coverage_checked_before_writing_witness :
  exists s,
    convert_to_swc ex_ordered_segments "dir" [ex8_cell] empty_export_state
      = Raise IncompleteGroupCoverageError s /\
    files s !! "dir/cell8.swc" = Some [].
Proof.
  pose proof (coverage_checked_before_writing ex_ordered_segments
                "dir" ex8_cell empty_export_state) as H.
  cbv zeta in H.
  set (o := walk_groups ex_ordered_segments ex8_cell _) in H.
  assert (E : o = Ok (outcome_value (([], []), ([], []), ([], [])) o)
                     (final_state o)) by (vm_compute; reflexivity).
  rewrite E in H. destruct H as (_ & Hbad & _).
  exists (final_state o). apply Hbad. vm_compute. lia.
Defined.

(** C8, as stated, fails on the code: the two segments of the cell are the
    two the three groups hold, so the counts agree, and yet the export does
    not complete: the dendrite hangs on the soma at fraction 1/2, and its
    walk raises. *)
Lemma coverage_full_export_fails_counterexample :
  let cell := ex7_cell (1 # 2) in
  (group_size ex_ordered_segments cell "soma_group"
   + group_size ex_ordered_segments cell "dendrite_group"
   + group_size ex_ordered_segments cell "axon_group")%nat
  = length (c_segments cell) /\
  exists s,
    convert_to_swc ex_ordered_segments "dir" [cell] empty_export_state
      = Raise UnsupportedAttachmentError s /\
    files s !! "dir/cell7.swc" = Some [].
Proof.
  split; [vm_compute; reflexivity|].
  eexists. split; vm_compute; reflexivity.
Qed.

(** * Further properties *)

Local Open Scope m_scope.

(** ** What a builder step never does *)

Lemma builder_step_monotone (w w' : NeuroMLWriter) :
  builder_step w w' ->
  points w' = points w /\
  (cell w' = cell w /\ morph_segment_groups w' = morph_segment_groups w /\
   properties w' = properties w /\ nml_doc w' = nml_doc w) /\
  processed_nodes w ⊆ processed_nodes w' /\
  segments w `prefix_of` segments w' /\
  next_segment_id w <= next_segment_id w'.
Proof.
  destruct 1; simpl; repeat split; try done; try lia; try set_solver.
  by apply prefix_app_r.
Qed.

Lemma builder_steps_monotone (w w' : NeuroMLWriter) :
  builder_steps w w' ->
  points w' = points w /\
  (cell w' = cell w /\ morph_segment_groups w' = morph_segment_groups w /\
   properties w' = properties w /\ nml_doc w' = nml_doc w) /\
  processed_nodes w ⊆ processed_nodes w' /\
  segments w `prefix_of` segments w' /\
  next_segment_id w <= next_segment_id w'.
Proof.
  induction 1 as [|w1 w2 w3 Hstep _ IH]; [by repeat split|].
  apply builder_step_monotone in Hstep as (Hp & (Hc & Hm & Hpr & Hd) & Hs & Hsg & Hn).
  destruct IH as (Hp' & (Hc' & Hm' & Hpr' & Hd') & Hs' & Hsg' & Hn').
  repeat split; try congruence; try lia; try set_solver.
  by etrans.
Qed.

(** X1: the traversal only appends. *)
Theorem traversal_only_appends (depth : nat)
    (parent_point this_point : SWCNode) (w : NeuroMLWriter) :
  let w' := final_state (parse_tree depth parent_point this_point w) in
  points w' = points w /\
  processed_nodes w ⊆ processed_nodes w' /\
  segments w `prefix_of` segments w' /\
  next_segment_id w <= next_segment_id w'.
Proof.
  intros w'.
  destruct (builder_steps_monotone w w' (steps_parse_tree _ _ _ _))
    as (? & _ & ? & ? & ?).
  done.
Qed.

Lemma visit_point_marks (parent_point this_point : SWCNode) (w w' : NeuroMLWriter) :
  visit_point parent_point this_point w = Ok tt w' ->
  node_id this_point ∈ processed_nodes w'.
Proof.
  unfold visit_point.
  destruct (if (node_type this_point =? SOMA)%N then _ else _) as [[] w1|e w1];
    [|done].
  intros [= <-]. simpl. set_solver.
Qed.

(** X2: a traversed node is processed, and traversing it again changes
    nothing. *)
Theorem parse_tree_marks_then_skips (depth : nat)
    (parent_point this_point : SWCNode) (w w' : NeuroMLWriter) :
  parse_tree depth parent_point this_point w = Ok tt w' ->
  node_id this_point ∈ processed_nodes w' /\
  forall depth' w'' other_parent,
    builder_steps w' w'' ->
    parse_tree depth' other_parent this_point w'' = Ok tt w''.
Proof.
  intros Hrun.
  assert (Hin : node_id this_point ∈ processed_nodes w').
  { rewrite parse_tree_eq in Hrun.
    destruct (decide (node_id this_point ∈ processed_nodes w)) as [Hin|Hnin].
    - by injection Hrun as <-.
    - destruct (visit_point parent_point this_point w) as [[] w1|e w1] eqn:Ev;
        [|done].
      apply visit_point_marks in Ev.
      assert (Hs : builder_steps w1 (final_state
                (for_each_child (parse_child depth this_point)
                   (children this_point) w1))).
      { apply steps_for_each_child, Forall_forall.
        intros c _ w0. apply steps_parse_child. }
      rewrite Hrun in Hs. simpl in Hs.
      apply builder_steps_monotone in Hs as (_ & _ & Hsub & _). set_solver. }
  split; [exact Hin|].
  intros depth' w'' other_parent Hsteps.
  apply builder_steps_monotone in Hsteps as (_ & _ & Hsub & _).
  rewrite parse_tree_eq. rewrite decide_True; [done | set_solver].
Qed.

(** ** The tables of a built model *)

(** X3: every entry of the point-to-segment table names a segment of the
    list, found at the position of its id. *)
Theorem table_entries_name_segments
    (lib : Z -> list Segment -> list SegmentGroup -> list SegmentGroup)
    (write_document : NeuroMLWriter -> string) (depth : nat)
    (nodes : list SWCNode) (origin : string) :
  let w := final_state
             (nml_string lib write_document depth (init_writer nodes origin)) in
  forall pid sid,
    point_indices_vs_seg_ids w !! pid = Some sid ->
    exists segment,
      segments w !! Z.to_nat sid = Some segment /\
      seg_id segment = sid /\
      is_Some (segment_types w !! sid).
Proof.
  intros w pid sid Hlook.
  destruct (builder_inv_nml_string lib write_document depth nodes origin)
    as [Hn Hids _ Htab _ Hty _]. fold w in Hn, Hids, Htab, Hty.
  apply Htab in Hlook as Hr.
  assert (Hlt : (Z.to_nat sid < length (segments w))%nat) by lia.
  destruct (lookup_lt_is_Some_2 _ _ Hlt) as [segment Hseg].
  exists segment. split; [exact Hseg|]. split; [|by apply Hty].
  assert (H : (seg_id <$> segments w) !! Z.to_nat sid = Some (seg_id segment))
    by by rewrite list_lookup_fmap, Hseg.
  rewrite Hids, list_lookup_fmap, lookup_seq_lt in H by done.
  simpl in H. injection H as <-. lia.
Qed.

(** X4: the groups hold ids of segments of the model only, and which
    group holds an id is decided by the type recorded for it. *)
Theorem groups_follow_types
    (lib : Z -> list Segment -> list SegmentGroup -> list SegmentGroup)
    (write_document : NeuroMLWriter -> string) (depth : nat)
    (nodes : list SWCNode) (origin : string) :
  let w := final_state
             (nml_string lib write_document depth (init_writer nodes origin)) in
  (forall g sid, in_group w g sid ->
     g ∈ group_names /\ 0 <= sid < Z.of_nat (length (segments w))) /\
  (forall sid,
     (in_group w "all" sid <-> is_Some (segment_types w !! sid)) /\
     (in_group w "soma_group" sid <-> segment_types w !! sid = Some SOMA) /\
     (in_group w "axon_group" sid <-> segment_types w !! sid = Some AXON) /\
     (in_group w "basal_dendrite" sid
        <-> segment_types w !! sid = Some BASAL_DENDRITE) /\
     (in_group w "apical_dendrite" sid
        <-> segment_types w !! sid = Some APICAL_DENDRITE) /\
     (in_group w "dendrite_group" sid
        <-> exists t, segment_types w !! sid = Some t /\ (3 <= t)%N)).
Proof.
  intros w.
  destruct (builder_inv_nml_string lib write_document depth nodes origin)
    as [Hn _ _ _ _ Hty Hg]. fold w in Hn, Hty, Hg.
  split.
  - intros g sid (t & Ht & Hin)%Hg. split.
    + by eapply get_groups_for_type_names.
    + rewrite <- Hn. apply Hty. eauto.
  - intros sid. unfold SOMA, AXON, BASAL_DENDRITE, APICAL_DENDRITE.
    repeat split.
    all: try (intros (t & Ht & Hin)%Hg;
              destruct (get_groups_for_type_cases t)
                as [[E G]|[[E G]|[[E G]|[[E G]|[[E G]|[E G]]]]]];
              rewrite G in Hin;
              repeat rewrite ?elem_of_cons, ?elem_of_nil in Hin;
              try (destruct Hin as [?|[?|[?|?]]] || destruct Hin as [?|[?|?]]
                   || destruct Hin as [?|?]; try done);
              first [ by eauto | by subst | (exists t; split; [done|lia]) ]).
    + intros [t Ht]. apply Hg. exists t. split; [done|].
      destruct (get_groups_for_type_cases t)
        as [[E G]|[[E G]|[[E G]|[[E G]|[[E G]|[E G]]]]]];
        rewrite G; apply list_elem_of_here.
    + intros Ht. apply Hg. eexists. split; [done|]. vm_compute. set_solver.
    + intros Ht. apply Hg. eexists. split; [done|]. vm_compute. set_solver.
    + intros Ht. apply Hg. eexists. split; [done|]. vm_compute. set_solver.
    + intros Ht. apply Hg. eexists. split; [done|]. vm_compute. set_solver.
    + intros (t & Ht & Hge). apply Hg. exists t. split; [done|].
      destruct (get_groups_for_type_cases t)
        as [[E G]|[[E G]|[[E G]|[[E G]|[[E G]|[E G]]]]]];
        rewrite G; try lia; set_solver.
Qed.

(** ** The segment groups of the morphology *)

Lemma group_of_spec (w : NeuroMLWriter) (name : string) (g : SegmentGroup) :
  g ∈ group_of w name ->
  group_id g = name /\
  members g <> [] /\
  Sorted Z.le (members g) /\
  NoDup (members g) /\
  forall sid, sid ∈ members g <-> in_group w name sid.
Proof.
  unfold group_of. destruct (decide _) as [|Hne]; [by intros ?%elem_of_nil|].
  intros Hg%list_elem_of_singleton. subst g. simpl.
  set (s := default ∅ (segment_groups w !! name)) in *.
  pose proof (merge_sort_Permutation Z.le (elements s)) as Hperm.
  split; [done|]. split.
  { intros E. rewrite E in Hperm. symmetry in Hperm.
    apply Permutation_nil_r in Hperm. apply elements_empty_inv in Hperm.
    apply Hne. by apply leibniz_equiv. }
  split; [apply Sorted_merge_sort, _|]. split.
  { rewrite Hperm. apply NoDup_elements. }
  intros sid. rewrite Hperm, elem_of_elements. unfold in_group, s.
  destruct (segment_groups w !! name) as [s'|]; simpl.
  - split; [eauto | by intros (? & [= <-] & ?)].
  - split; [by intros ?%not_elem_of_empty | by intros (? & [=] & _)].
Qed.

Lemma group_of_nonempty (w : NeuroMLWriter) (name : string) (sid : Z) :
  in_group w name sid -> exists g, group_of w name = [g].
Proof.
  intros (s & Hs & Hin). unfold group_of. rewrite Hs. simpl.
  rewrite decide_False by set_solver. eauto.
Qed.

Lemma elem_of_concat {A} (x : A) (ls : list (list A)) :
  x ∈ concat ls <-> exists l, x ∈ l /\ l ∈ ls.
Proof.
  induction ls as [|l0 ls IH]; simpl.
  - split; [by intros ?%elem_of_nil | by intros (l & _ & ?%elem_of_nil)].
  - rewrite elem_of_app, IH. split.
    + intros [H|(l & Hx & Hl)]; [exists l0 | exists l]; split; try done.
      * left.
      * by right.
    + intros (l & Hx & [->|Hl]%elem_of_cons); [by left | right; eauto].
Qed.

(** X5: the groups [create_segment_groups] appends to the morphology. *)
Theorem built_groups_mirror_sets (w : NeuroMLWriter) :
  exists new,
    morph_segment_groups (build_groups w) = morph_segment_groups w ++ new /\
    group_id <$> new `sublist_of` group_names /\
    (forall g, g ∈ new ->
       members g <> [] /\ Sorted Z.le (members g) /\ NoDup (members g) /\
       forall sid, sid ∈ members g <-> in_group w (group_id g) sid) /\
    (forall name sid,
       name ∈ group_names -> in_group w name sid -> name ∈ group_id <$> new).
Proof.
  exists (concat (group_of w <$> group_names)). split; [reflexivity|].
  generalize group_names as names. intros names. split; [|split].
  - induction names as [|name names IH]; simpl; [done|].
    rewrite fmap_app. unfold group_of at 1.
    destruct (decide _); simpl; [by apply sublist_cons | by apply sublist_skip].
  - intros g Hin. apply elem_of_concat in Hin as (l & Hg & Hl).
    apply list_elem_of_fmap in Hl as (name & -> & _).
    destruct (group_of_spec w name g Hg) as (<- & ? & ? & ? & ?). done.
  - intros name sid Hname Hin.
    destruct (group_of_nonempty w name sid Hin) as [g Hg].
    apply list_elem_of_fmap. exists g. split.
    + destruct (group_of_spec w name g) as [-> _]; [|done].
      rewrite Hg. apply list_elem_of_here.
    + apply elem_of_concat. exists [g]. split; [apply list_elem_of_here|].
      apply list_elem_of_fmap. eauto.
Qed.

Lemma list_min_spec (l : list Z) :
  match list_min l with
  | None => l = []
  | Some m => m ∈ l /\ forall x, x ∈ l -> m <= x
  end.
Proof.
  destruct l as [|a l]; simpl; [done|].
  induction l as [|b l IH]; simpl.
  - split; [apply list_elem_of_here|].
    intros x Hx%list_elem_of_singleton. subst. lia.
  - destruct IH as [Hin Hle]. split.
    + destruct (Z.min_spec b (foldr Z.min a l)) as [[_ ->]|[_ ->]].
      * right. left.
      * apply elem_of_cons in Hin as [->|Hin]; [left | right; by right].
    + intros x Hx. rewrite !elem_of_cons in Hx.
      assert (foldr Z.min a l <= x \/ x = b) as [? | ->]; [|lia..].
      destruct Hx as [->|[->|Hx]]; [left|by right|left].
      * apply Hle. left.
      * apply Hle. by right.
Qed.

Lemma soma_segment_ids_spec (w : NeuroMLWriter) (sid : Z) :
  sid ∈ soma_segment_ids w <-> segment_types w !! sid = Some SOMA.
Proof.
  unfold soma_segment_ids. rewrite list_elem_of_fmap. split.
  - intros ([k t] & -> & [Ht Hin]%list_elem_of_filter). simpl in *. subst.
    by apply elem_of_map_to_list.
  - intros H. exists (sid, SOMA). split; [done|].
    apply list_elem_of_filter. split; [done|]. by apply elem_of_map_to_list.
Qed.

(** The two ways [create_segment_groups] ends, by whether some segment is
    soma-typed. *)
Lemma create_segment_groups_cases
    (lib : Z -> list Segment -> list SegmentGroup -> list SegmentGroup)
    (w : NeuroMLWriter) :
  ((exists sid, segment_types w !! sid = Some SOMA) ->
   exists root,
     segment_types w !! root = Some SOMA /\
     (forall sid, segment_types w !! sid = Some SOMA -> root <= sid) /\
     create_segment_groups lib w =
       Ok tt (set_properties (fun l => l ++ [("cell_type", "converted_from_swc")])
                (set_morph_groups (lib root (segments w)) (build_groups w)))) /\
  ((forall sid, segment_types w !! sid <> Some SOMA) ->
   create_segment_groups lib w = Raise NoSomaFoundError (build_groups w)).
Proof.
  unfold create_segment_groups.
  change (soma_segment_ids (build_groups w)) with (soma_segment_ids w).
  pose proof (list_min_spec (soma_segment_ids w)) as Hmin.
  destruct (list_min (soma_segment_ids w)) as [root|].
  - destruct Hmin as [Hin Hle]. split.
    + intros _. exists root. split; [by apply soma_segment_ids_spec|].
      split; [|done]. intros sid Hs. by apply Hle, soma_segment_ids_spec.
    + intros Hno. apply soma_segment_ids_spec in Hin. by apply Hno in Hin.
  - split; [|done]. intros [sid Hs]. apply soma_segment_ids_spec in Hs.
    rewrite Hmin in Hs. by apply elem_of_nil in Hs.
Qed.

(** X6: [create_segment_groups] returns exactly when some segment is
    soma-typed, and then the root it hands to the library is the least id
    of a soma-typed segment; otherwise it raises after the groups were
    appended. *)
Theorem create_segment_groups_root
    (lib : Z -> list Segment -> list SegmentGroup -> list SegmentGroup)
    (w : NeuroMLWriter) :
  ((exists sid, segment_types w !! sid = Some SOMA) ->
   exists root,
     segment_types w !! root = Some SOMA /\
     (forall sid, segment_types w !! sid = Some SOMA -> root <= sid) /\
     create_segment_groups lib w =
       Ok tt (set_properties (fun l => l ++ [("cell_type", "converted_from_swc")])
                (set_morph_groups (lib root (segments w)) (build_groups w)))) /\
  ((forall sid, segment_types w !! sid <> Some SOMA) ->
   create_segment_groups lib w = Raise NoSomaFoundError (build_groups w)).
Proof. exact (create_segment_groups_cases lib w). Qed.

(** ** When the traversal returns *)

Lemma handle_soma_returns (this_point parent_point : SWCNode) (w : NeuroMLWriter) :
  soma_points_of (points w) <> [] ->
  exists w', handle_soma this_point parent_point w = Ok tt w'.
Proof.
  intros Hne. unfold handle_soma.
  destruct (decide _); [eauto|].
  destruct (soma_points_of (points w)) as [|a [|b [|c [|d l]]]] eqn:E;
    try done; try (case_bool_decide; eauto); eauto.
  all: match goal with
       | |- context [sorted_by_x ?l] =>
           pose proof (sorted_by_x_perm l) as Hperm;
           destruct (sorted_by_x l) as [|lowest rest];
             [by apply Permutation_nil_l in Hperm|]
       end.
  all: cbv zeta; destruct (node_eqb this_point lowest); eauto.
Qed.

Lemma visit_point_returns (parent_point this_point : SWCNode) (w : NeuroMLWriter) :
  soma_points_of (points w) <> [] ->
  exists w', visit_point parent_point this_point w = Ok tt w'.
Proof.
  intros Hne. unfold visit_point.
  destruct (node_type this_point =? SOMA)%N.
  - destruct (handle_soma_returns this_point parent_point w Hne) as [w' ->]. eauto.
  - destruct (decide _); eauto.
Qed.

Lemma for_each_child_returns (visit : SWCNode -> M NeuroMLWriter unit)
    (cs : list SWCNode) :
  Forall (fun c => forall w,
            soma_points_of (points w) <> [] ->
            exists w', visit c w = Ok tt w' /\ points w' = points w) cs ->
  forall w, soma_points_of (points w) <> [] ->
    exists w', for_each_child visit cs w = Ok tt w'.
Proof.
  induction 1 as [|c cs Hc _ IH]; intros w Hne; simpl; [eauto|].
  destruct (decide _); [by apply IH|].
  destruct (Hc w Hne) as (w1 & -> & Hp). apply IH. by rewrite Hp.
Qed.

(** The traversal raises nothing once the point list has a soma point and
    the interpreter has room for the levels below the point. *)
Lemma parse_tree_total (this_point : SWCNode) :
  forall depth parent_point w,
    (height this_point <= depth)%nat ->
    soma_points_of (points w) <> [] ->
    exists w', parse_tree depth parent_point this_point w = Ok tt w'.
Proof.
  induction this_point as [i t x y z r p cs IH] using SWCNode_tree_ind.
  intros depth parent_point w Hdepth Hne. rewrite parse_tree_eq.
  destruct (decide _); [eauto|].
  destruct (visit_point_returns parent_point (mkSWCNode i t x y z r p cs) w Hne)
    as [w1 Hv]. rewrite Hv.
  assert (Hp1 : points w1 = points w).
  { pose proof (steps_visit_point parent_point (mkSWCNode i t x y z r p cs) w) as Hs.
    rewrite Hv in Hs. by apply builder_steps_monotone in Hs as (? & _). }
  apply for_each_child_returns; [|by rewrite Hp1].
  rewrite Forall_forall in IH. apply Forall_forall. intros c Hc w0 Hne0.
  destruct (parse_child_within depth (mkSWCNode i t x y z r p cs) c)
    as (depth' & Ecall & Hdepth'); [done..|].
  rewrite Ecall.
  destruct (IH c Hc depth' (mkSWCNode i t x y z r p cs) w0 Hdepth' Hne0)
    as [w' Hrun].
  exists w'. split; [done|].
  pose proof (steps_parse_tree c depth' (mkSWCNode i t x y z r p cs) w0) as Hs.
  rewrite Hrun in Hs. by apply builder_steps_monotone in Hs as (? & _).
Qed.

(** X7: with a soma-typed point in the point list, and room in the
    interpreter for as many nested calls as the tree has levels below the
    point, the traversal returns. *)
Theorem parse_tree_returns (this_point : SWCNode) :
  forall depth parent_point w,
    (height this_point <= depth)%nat ->
    soma_points_of (points w) <> [] ->
    exists w', parse_tree depth parent_point this_point w = Ok tt w'.
Proof. exact (parse_tree_total this_point). Qed.

Lemma parse_tree_returns_witness :
  exists w',
    parse_tree 2 ex6_n1 ex6_n1 (fresh_writer ex6_nodes "cell.swc") = Ok tt w'.
Proof.
  apply parse_tree_returns; [vm_compute; lia | vm_compute; discriminate].
Defined.

Lemma builder_steps_keep_types (w w' : NeuroMLWriter) (sid : Z) (t : N) :
  builder_steps w w' -> builder_inv w ->
  segment_types w !! sid = Some t ->
  segment_types w' !! sid = Some t.
Proof.
  induction 1 as [|w1 w2 w3 Hstep _ IH]; [done|].
  intros Hinv Ht. apply IH.
  - destruct Hstep; [by apply builder_inv_emit | by apply builder_inv_mark].
  - destruct Hstep; [|done]. simpl. rewrite lookup_insert_ne; [done|].
    intros <-. destruct Hinv as [_ _ _ _ _ Hty _].
    assert (is_Some (segment_types w !! next_segment_id w)) as Hs%Hty by eauto.
    lia.
Qed.

Lemma multi_branch_first_segment (this_point : SWCNode) (w w' : NeuroMLWriter) :
  builder_inv w ->
  node_id this_point ∉ processed_nodes w ->
  (exists lowest rest,
     sorted_by_x (soma_points_of (points w)) = lowest :: rest /\
     node_eqb this_point lowest = true) ->
  multi_branch this_point w = Ok tt w' ->
  segment_types w' !! next_segment_id w = Some SOMA.
Proof.
  intros Hinv Hnin (lowest & rest & Es & Eq). unfold multi_branch.
  rewrite Es, Eq. intros Hrun.
  assert (w' = mark_processed (node_id this_point)
                 (multi_point_soma 0 (lowest :: rest) w)) as -> by congruence.
  clear Hrun.
  change (segment_types (mark_processed (node_id this_point)
            (multi_point_soma 0 (lowest :: rest) w)))
    with (segment_types (multi_point_soma 0 (lowest :: rest) w)).
  rewrite multi_point_soma_cons.
  unfold node_eqb in Eq. apply bool_decide_eq_true in Eq.
  rewrite decide_False by (by rewrite <- Eq).
  set (seg := multi_segment 0 lowest rest (next_segment_id w)).
  set (w1 := mark_processed (node_id lowest) (emit seg (node_id lowest) SOMA w)).
  assert (Hok : emit_ok w seg) by (split; [reflexivity | exact I]).
  eapply (builder_steps_keep_types w1).
  - apply steps_multi_point_soma; [|intros [=]].
    intros _. simpl. intros H. by apply app_eq_nil in H as [_ ?].
  - by apply builder_inv_mark, builder_inv_emit.
  - simpl. by rewrite lookup_insert_eq.
Qed.

Lemma handle_soma_first_segment (first_point parent_point : SWCNode)
    (w w' : NeuroMLWriter) :
  builder_inv w ->
  node_id first_point ∉ processed_nodes w ->
  head (soma_points_of (points w)) = Some first_point ->
  start_gets_segment (points w) = true ->
  handle_soma first_point parent_point w = Ok tt w' ->
  segment_types w' !! next_segment_id w = Some SOMA.
Proof.
  intros Hinv Hnin Hhead Hstart.
  destruct (decide (length (soma_points_of (points w)) = 3%nat)) as [H3|H3].
  { unfold handle_soma. rewrite decide_False by done.
    destruct (soma_points_of (points w)) as [|a [|b [|c [|d l]]]]; try done.
    injection Hhead as ->. rewrite bool_decide_eq_true_2 by done.
    intros [= <-]. simpl.
    rewrite lookup_insert_ne by lia. by rewrite lookup_insert_eq. }
  destruct (decide (length (soma_points_of (points w)) = 1%nat)) as [H1|H1].
  { unfold handle_soma. rewrite decide_False by done.
    destruct (soma_points_of (points w)) as [|a [|b [|c [|d l]]]]; try done.
    intros [= <-]. simpl. by rewrite lookup_insert_eq. }
  rewrite handle_soma_multi by done.
  apply multi_branch_first_segment; [done..|].
  unfold start_gets_segment in Hstart.
  destruct (soma_points_of (points w)) as [|a [|b [|c [|d l]]]] eqn:E;
    try done; injection Hhead as ->.
  all: match type of Hstart with
       | context [sorted_by_x ?l] =>
           destruct (sorted_by_x l) as [|lowest rest]; [done|]
       end; eauto.
Qed.

(** X8: when the start point gets a segment and the interpreter has room
    for the levels of the tree below it, [nml_string] returns the text of
    the document; segment 0 is a soma segment and is the root handed to the
    library.  The origin is ASCII text, on which the cell name of the model
    is the one the source computes. *)
Theorem nml_string_builds
    (lib : Z -> list Segment -> list SegmentGroup -> list SegmentGroup)
    (write_document : NeuroMLWriter -> string) (depth : nat)
    (nodes : list SWCNode) (origin : string) (start : SWCNode) :
  (2 <= length nodes)%nat ->
  ascii_text origin = true ->
  head (soma_points_of nodes) = Some start ->
  (height start <= depth)%nat ->
  start_gets_segment nodes = true ->
  exists w',
    nml_string lib write_document depth (init_writer nodes origin)
      = Ok (write_document w') w' /\
    cell_id <$> cell w' = Some (get_cell_name (init_writer nodes origin)) /\
    nml_doc w' = Some (get_cell_name (init_writer nodes origin)) /\
    segment_types w' !! 0 = Some SOMA /\
    properties w' = [("cell_type", "converted_from_swc")] /\
    morph_segment_groups w'
      = lib 0 (segments w') (concat (group_of w' <$> group_names)).
Proof.
  intros Hlen _ Hhead Hdepth Hstart. set (w0 := fresh_writer nodes origin).
  assert (Hinv0 : builder_inv w0)
    by apply builder_inv_create_cell, builder_inv_init.
  destruct (soma_points_of nodes) as [|first_point rest] eqn:Es; [done|].
  injection Hhead as ->.
  assert (Hfind : find_start_point w0 = Ok start w0).
  { unfold find_start_point. simpl points. by rewrite Es. }
  assert (Hne : soma_points_of (points w0) <> []) by (simpl; by rewrite Es).
  destruct (parse_tree_total start depth start w0 Hdepth Hne) as [w1 Hrun].
  pose proof (steps_parse_tree start depth start w0) as Hsteps.
  rewrite Hrun in Hsteps. simpl in Hsteps.
  pose proof (builder_inv_steps _ _ Hsteps Hinv0) as Hinv1.
  apply builder_steps_monotone in Hsteps as (_ & (Hc & Hm & Hpr & _) & _).
  assert (Htype : segment_types w1 !! 0 = Some SOMA).
  { rewrite parse_tree_eq in Hrun.
    rewrite decide_False in Hrun by (simpl; set_solver).
    destruct (visit_point start start w0) as [[] wv|e wv] eqn:Ev;
      [|done].
    assert (Hsv : builder_steps wv w1).
    { pose proof (steps_for_each_child (parse_child depth start)
                    (children start)) as Hs.
      specialize (Hs ltac:(apply Forall_forall; intros c _ w2;
                           apply steps_parse_child) wv).
      by rewrite Hrun in Hs. }
    pose proof (steps_visit_point start start w0) as Hs0.
    rewrite Ev in Hs0. simpl in Hs0.
    eapply builder_steps_keep_types; [exact Hsv | by eapply builder_inv_steps |].
    unfold visit_point in Ev.
    assert (Hsoma : node_type start = SOMA).
    { assert (start ∈ soma_points_of nodes) as Hin
        by (rewrite Es; apply list_elem_of_here).
      by apply list_elem_of_filter in Hin as [? _]. }
    rewrite Hsoma in Ev. simpl in Ev.
    destruct (handle_soma start start w0) as [[] wh|e wh] eqn:Eh;
      [|done].
    injection Ev as <-.
    change (segment_types wh !! next_segment_id w0 = Some SOMA).
    eapply handle_soma_first_segment; [exact Hinv0 | | | exact Hstart | exact Eh].
    - simpl. set_solver.
    - simpl points. by rewrite Es. }
  destruct (create_segment_groups_cases lib w1) as [Hroot _].
  destruct Hroot as (root & Hr & Hle & Hgroups); [eauto|].
  assert (root = 0) as ->.
  { specialize (Hle 0 Htype). destruct Hinv1 as [_ _ _ _ _ Hty _].
    assert (is_Some (segment_types w1 !! root)) as Hs%Hty by eauto. lia. }
  eexists. split.
  { unfold nml_string. simpl points.
    rewrite bool_decide_eq_false_2 by lia. simpl orb. cbv iota.
    change (create_cell (init_writer nodes origin)) with w0.
    rewrite Hfind, Hrun, Hgroups. reflexivity. }
  simpl. rewrite Hc, Hpr, Hm. simpl. repeat split; done.
Qed.

Lemma nml_string_builds_witness :
  returns (nml_string ex_branches ex_write ex_depth
             (init_writer ex3_nodes "dir/n12.swc"))
  = true.
Proof.
  destruct (nml_string_builds ex_branches ex_write ex_depth ex3_nodes
              "dir/n12.swc" ex3_n1)
    as (w' & -> & _).
  - simpl. lia.
  - reflexivity.
  - reflexivity.
  - vm_compute. lia.
  - vm_compute. reflexivity.
  - reflexivity.
Defined.

(** ** The multi-point soma and the rest of the tree *)

Lemma multi_point_soma_processed (rest : list SWCNode) :
  forall (i : nat) (w : NeuroMLWriter),
    processed_nodes w ⊆ processed_nodes (multi_point_soma i rest w) /\
    forall p, p ∈ rest -> node_id p ∈ processed_nodes (multi_point_soma i rest w).
Proof.
  induction rest as [|cur rest IH]; intros i w.
  - split; [done|]. by intros p ?%elem_of_nil.
  - rewrite multi_point_soma_cons.
    set (w1 := if decide (node_id cur ∈ processed_nodes w) then w else _).
    assert (Hcur : processed_nodes w ⊆ processed_nodes w1
                   /\ node_id cur ∈ processed_nodes w1).
    { subst w1. destruct (decide _); [done|]. simpl. set_solver. }
    destruct (IH (S i) w1) as [Hsub Hall]. split; [set_solver|].
    intros p [->|Hp]%elem_of_cons; [set_solver | by apply Hall].
Qed.

(** X9: the chain of the multi-point branch marks every soma point, so the
    traversal skips every soma point it reaches afterwards, with all that
    hangs below it. *)
Theorem multi_point_soma_closes_soma_points (w : NeuroMLWriter)
    (parent_point lowest : SWCNode) :
  length (soma_points_of (points w)) <> 1%nat ->
  length (soma_points_of (points w)) <> 3%nat ->
  head (sorted_by_x (soma_points_of (points w))) = Some lowest ->
  node_id lowest ∉ processed_nodes w ->
  exists w',
    handle_soma lowest parent_point w = Ok tt w' /\
    forall p, p ∈ soma_points_of (points w) ->
      node_id p ∈ processed_nodes w' /\
      forall depth w'' other_parent,
        builder_steps w' w'' ->
        parse_tree depth other_parent p w'' = Ok tt w''.
Proof.
  intros H1 H3 Hhead Hnin. rewrite handle_soma_multi by done.
  unfold multi_branch.
  destruct (sorted_by_x (soma_points_of (points w))) as [|l rest] eqn:Es; [done|].
  injection Hhead as ->. unfold node_eqb. rewrite bool_decide_eq_true_2 by done.
  eexists. split; [reflexivity|]. intros p Hp.
  assert (Hin : node_id p ∈ processed_nodes
            (mark_processed (node_id lowest)
               (multi_point_soma 0 (lowest :: rest) w))).
  { simpl. apply elem_of_union_l.
    destruct (multi_point_soma_processed (lowest :: rest) 0 w) as [_ Hall].
    apply Hall. rewrite <- Es. by rewrite sorted_by_x_perm. }
  split; [exact Hin|]. intros depth w'' other_parent Hsteps.
  apply builder_steps_monotone in Hsteps as (_ & _ & Hsub & _).
  rewrite parse_tree_eq. rewrite decide_True; [done | set_solver].
Qed.

Lemma multi_point_soma_closes_soma_points_witness :
  exists w',
    handle_soma ex13_n1 ex13_n1 (fresh_writer ex13_nodes "cell.swc") = Ok tt w' /\
    parse_tree ex_depth ex13_n1 ex13_n2 w' = Ok tt w'.
Proof.
  destruct (multi_point_soma_closes_soma_points
              (fresh_writer ex13_nodes "cell.swc") ex13_n1 ex13_n1)
    as (w' & Hrun & Hall).
  - vm_compute. discriminate.
  - vm_compute. discriminate.
  - vm_compute. reflexivity.
  - simpl. set_solver.
  - exists w'. split; [exact Hrun|].
    destruct (Hall ex13_n2) as [_ Hskip].
    + apply (list_elem_of_lookup_2 _ 1%nat). vm_compute. reflexivity.
    + apply Hskip. apply rtc_refl.
Defined.

(** On that tree the build gives the four soma segments and the two
    segments of the dendrite on the first soma point; the dendrites below
    the second and the fourth soma point get no segment. *)
Example multiple_cylinder_test_tree :
  let o := nml_string ex_branches ex_write ex_depth
             (init_writer ex13_nodes "cell.swc") in
  let w := final_state o in
  returns o = true /\
  length (segments w) = 6%nat /\
  point_indices_vs_seg_ids w !! 7 = Some 4 /\
  point_indices_vs_seg_ids w !! 8 = Some 5 /\
  point_indices_vs_seg_ids w !! 5 = None /\
  point_indices_vs_seg_ids w !! 6 = None /\
  point_indices_vs_seg_ids w !! 9 = None /\
  point_indices_vs_seg_ids w !! 10 = None.
Proof. repeat split; vm_compute; reflexivity. Qed.

(** ** Depth-first traversal of a subtree without soma points *)

Lemma nodes_of_eq (n : SWCNode) :
  nodes_of n = n :: flat_map nodes_of (children n).
Proof. by destruct n. Qed.

Lemma traversed_nil (w : NeuroMLWriter) : traversed [] w w.
Proof.
  unfold traversed. simpl. rewrite Z.add_0_r, Nat.add_0_r.
  repeat split; try done. set_solver.
Qed.

Lemma traversed_app (ns1 ns2 : list SWCNode) (w w1 w2 : NeuroMLWriter) :
  NoDup (node_id <$> ns1 ++ ns2) ->
  traversed ns1 w w1 -> traversed ns2 w1 w2 ->
  traversed (ns1 ++ ns2) w w2.
Proof.
  rewrite fmap_app. intros (_ & Hdisj & _)%NoDup_app
    (P1 & N1 & L1 & K1 & T1 & S1) (P2 & N2 & L2 & K2 & T2 & S2).
  unfold traversed. rewrite fmap_app, length_app, list_to_set_app_L.
  split; [rewrite P2, P1; set_solver|]. split; [lia|]. split; [lia|].
  split; [|split].
  - intros k n Hk. apply lookup_app_Some in Hk as [Hk|[Hge Hk]].
    + destruct (K1 k n Hk) as [Ht Hs]. split.
      * rewrite T2; [done|]. apply Hdisj, list_elem_of_fmap.
        exists n. split; [done|]. by eapply list_elem_of_lookup_2.
      * rewrite S2; [done|]. apply lookup_lt_Some in Hk. lia.
    + destruct (K2 _ n Hk) as [Ht Hs].
      replace (next_segment_id w + Z.of_nat k)
        with (next_segment_id w1 + Z.of_nat (k - length ns1)) by lia.
      done.
  - intros pid Hpid. rewrite elem_of_app in Hpid.
    rewrite T2, T1; [done|tauto..].
  - intros sid Hsid. rewrite S2, S1; [done|lia..].
Qed.

Lemma visit_point_traverses (parent_point this_point : SWCNode) (w : NeuroMLWriter) :
  node_type this_point <> SOMA ->
  node_id this_point ∉ processed_nodes w ->
  exists w',
    visit_point parent_point this_point w = Ok tt w' /\
    traversed [this_point] w w'.
Proof.
  intros Hns Hnin. unfold visit_point.
  apply N.eqb_neq in Hns. rewrite Hns. rewrite decide_False by done.
  eexists. split; [reflexivity|].
  destruct (create_segment_emit this_point parent_point
              (bool_decide (1 < length (children parent_point))%nat
               || negb (node_type this_point =? node_type parent_point)%N) w)
    as (segment & -> & _).
  unfold traversed. simpl.
  split; [set_solver|]. split; [lia|]. split; [rewrite length_app; simpl; lia|].
  split; [|split].
  - intros [|k] n; [|done]. intros [= <-]. simpl. rewrite Z.add_0_r.
    by rewrite !lookup_insert_eq.
  - intros pid Hpid. rewrite lookup_insert_ne; [done|].
    intros <-. apply Hpid. apply list_elem_of_here.
  - intros sid Hsid. rewrite lookup_insert_ne; [done|lia].
Qed.

Lemma for_each_child_traverses (visit : SWCNode -> M NeuroMLWriter unit)
    (cs : list SWCNode) :
  Forall (fun c => forall w,
            (forall n, n ∈ nodes_of c -> node_id n ∉ processed_nodes w) ->
            exists w', visit c w = Ok tt w' /\ traversed (nodes_of c) w w') cs ->
  NoDup (node_id <$> flat_map nodes_of cs) ->
  forall w,
    (forall n, n ∈ flat_map nodes_of cs -> node_id n ∉ processed_nodes w) ->
    exists w',
      for_each_child visit cs w = Ok tt w' /\
      traversed (flat_map nodes_of cs) w w'.
Proof.
  induction 1 as [|c cs Hc _ IH]; intros Hnd w Hnin; simpl.
  - exists w. split; [done | apply traversed_nil].
  - simpl in Hnd, Hnin.
    assert (Hc_in : c ∈ nodes_of c) by (rewrite nodes_of_eq; apply list_elem_of_here).
    rewrite decide_False by (apply Hnin, elem_of_app; by left).
    destruct (Hc w) as (w1 & -> & Htr1).
    { intros n Hn. apply Hnin, elem_of_app. by left. }
    pose proof Hnd as Hnd'. rewrite fmap_app in Hnd'.
    apply NoDup_app in Hnd' as (_ & Hdisj & Hnd2).
    destruct (IH Hnd2 w1) as (w2 & -> & Htr2).
    { intros n Hn. destruct Htr1 as (-> & _).
      intros [Hin|Hin]%elem_of_union.
      - revert Hin. apply Hnin, elem_of_app. by right.
      - apply elem_of_list_to_set in Hin. apply Hdisj in Hin.
        apply Hin, list_elem_of_fmap. eauto. }
    exists w2. split; [done|]. by eapply traversed_app.
Qed.

Lemma nodes_of_child_sublist (c : SWCNode) (cs : list SWCNode) :
  c ∈ cs -> nodes_of c `sublist_of` flat_map nodes_of cs.
Proof.
  induction cs as [|c0 cs IH]; [by intros ?%elem_of_nil|].
  intros [->|Hin]%elem_of_cons; simpl.
  - by apply sublist_inserts_r.
  - by apply sublist_inserts_l, IH.
Qed.

(** The traversal of a subtree without soma points, by induction on the
    tree. *)
Lemma soma_free_traversal (this_point : SWCNode) :
  soma_free this_point = true ->
  NoDup (node_id <$> nodes_of this_point) ->
  forall depth parent_point w,
    (height this_point <= depth)%nat ->
    (forall n, n ∈ nodes_of this_point -> node_id n ∉ processed_nodes w) ->
    exists w',
      parse_tree depth parent_point this_point w = Ok tt w' /\
      traversed (nodes_of this_point) w w'.
Proof.
  induction this_point as [i t x y z r p cs IH] using SWCNode_tree_ind.
  rewrite soma_free_eq, nodes_of_eq. cbn [node_type children].
  intros [Ht Hcs]%andb_true_iff Hnd depth parent_point w Hdepth Hnin.
  set (this := mkSWCNode i t x y z r p cs) in *.
  apply negb_true_iff, N.eqb_neq in Ht.
  assert (Hthis : node_id this ∉ processed_nodes w)
    by (apply Hnin, list_elem_of_here).
  rewrite parse_tree_eq. rewrite decide_False by done.
  destruct (visit_point_traverses parent_point this w Ht Hthis) as (w1 & -> & Htr1).
  change (children this) with cs.
  pose proof Hnd as Hnd'. rewrite fmap_cons in Hnd'.
  apply NoDup_cons in Hnd' as [Hfresh Hnd2].
  assert (Hchildren : Forall (fun c => forall w0,
            (forall n, n ∈ nodes_of c -> node_id n ∉ processed_nodes w0) ->
            exists w', parse_child depth this c w0 = Ok tt w'
                       /\ traversed (nodes_of c) w0 w') cs).
  { rewrite Forall_forall in IH. apply Forall_forall. intros c Hc w0 Hnin0.
    destruct (parse_child_within depth this c) as (depth' & -> & Hdepth');
      [done..|].
    apply IH; [done| | |done|done].
    - eapply forallb_forall; [exact Hcs | by apply list_elem_of_In].
    - eapply sublist_NoDup; [exact Hnd2|].
      by apply fmap_sublist, nodes_of_child_sublist. }
  assert (Hnin1 : forall n, n ∈ flat_map nodes_of cs ->
                            node_id n ∉ processed_nodes w1).
  { intros n Hn. destruct Htr1 as (-> & _).
    intros [Hin|Hin]%elem_of_union.
    - revert Hin. apply Hnin. by right.
    - simpl in Hin. apply Hfresh. apply list_elem_of_fmap.
      exists n. split; [set_solver | done]. }
  destruct (for_each_child_traverses (parse_child depth this) cs
              Hchildren Hnd2 w1 Hnin1)
    as (w2 & -> & Htr2).
  exists w2. split; [done|].
  by apply (traversed_app [this] (flat_map nodes_of cs) w w1 w2).
Qed.

(** X10: a subtree without soma points, no deeper than the interpreter
    has room for nested calls, is traversed depth-first, one segment per
    node. *)
Theorem soma_free_subtree_traversed (this_point : SWCNode) :
  soma_free this_point = true ->
  NoDup (node_id <$> nodes_of this_point) ->
  forall depth parent_point w,
    (height this_point <= depth)%nat ->
    (forall n, n ∈ nodes_of this_point -> node_id n ∉ processed_nodes w) ->
    exists w',
      parse_tree depth parent_point this_point w = Ok tt w' /\
      traversed (nodes_of this_point) w w'.
Proof. exact (soma_free_traversal this_point). Qed.

Lemma soma_free_subtree_traversed_witness :
  exists w',
    parse_tree 2 ex9_n1 ex9_n1 (fresh_writer ex9_nodes "axons.swc") = Ok tt w' /\
    point_indices_vs_seg_ids w' !! 5 = Some 4.
Proof.
  destruct (soma_free_subtree_traversed ex9_n1) with
    (depth := 2%nat) (parent_point := ex9_n1)
    (w := fresh_writer ex9_nodes "axons.swc")
    as (w' & Hrun & _ & _ & _ & Hk & _).
  - vm_compute. reflexivity.
  - vm_compute. repeat constructor; set_solver.
  - vm_compute. lia.
  - intros n _. simpl. set_solver.
  - exists w'. split; [exact Hrun|].
    destruct (Hk 4%nat ex9_n5) as [Htab _]; [reflexivity|]. exact Htab.
Defined.

(** ** Trees deeper than the interpreter allows *)

Lemma for_each_child_app (visit : SWCNode -> M NeuroMLWriter unit)
    (cs1 cs2 : list SWCNode) (w : NeuroMLWriter) :
  for_each_child visit (cs1 ++ cs2) w =
  match for_each_child visit cs1 w with
  | Ok _ w' => for_each_child visit cs2 w'
  | Raise e w' => Raise e w'
  end.
Proof.
  revert w. induction cs1 as [|c cs1 IH]; intros w; simpl; [done|].
  destruct (decide _); [apply IH|].
  destruct (visit c w) as [[] w'|e w']; [apply IH | done].
Qed.

(** The first child whose subtree does not fit. *)
Lemma first_deep_child (depth : nat) (cs : list SWCNode) :
  (depth < max_list ((fun c => S (height c)) <$> cs))%nat ->
  exists pre c post,
    cs = pre ++ c :: post /\
    Forall (fun c' => (S (height c') <= depth)%nat) pre /\
    (depth < S (height c))%nat.
Proof.
  induction cs as [|a cs IH]; intros H; [simpl in H; lia|].
  change (depth < S (height a)
                  `max` max_list ((fun c => S (height c)) <$> cs))%nat in H.
  destruct (decide (depth < S (height a))%nat) as [Ha|Ha].
  - exists [], a, cs. repeat split; [apply Forall_nil_2 | done].
  - destruct IH as (pre & c & post & -> & Hpre & Hc); [lia|].
    exists (a :: pre), c, post. repeat split; [|done].
    apply Forall_cons_2; [lia | done].
Qed.

(** The traversal of a subtree without soma points that is deeper than
    the interpreter has room for nested calls. *)
Lemma deep_subtree_traversal (this_point : SWCNode) :
  soma_free this_point = true ->
  NoDup (node_id <$> nodes_of this_point) ->
  forall depth parent_point w,
    (depth < height this_point)%nat ->
    (forall n, n ∈ nodes_of this_point -> node_id n ∉ processed_nodes w) ->
    exists w',
      parse_tree depth parent_point this_point w = Raise RecursionError w' /\
      (length (segments w) + S depth <= length (segments w'))%nat.
Proof.
  induction this_point as [i t x y z r p cs IH] using SWCNode_tree_ind.
  rewrite soma_free_eq, nodes_of_eq, height_eq. cbn [node_type children].
  intros [Ht Hcs]%andb_true_iff Hnd depth parent_point w Hdepth Hnin.
  set (this := mkSWCNode i t x y z r p cs) in *.
  apply negb_true_iff, N.eqb_neq in Ht.
  assert (Hthis : node_id this ∉ processed_nodes w)
    by (apply Hnin, list_elem_of_here).
  rewrite parse_tree_eq. rewrite decide_False by done.
  destruct (visit_point_traverses parent_point this w Ht Hthis)
    as (w1 & -> & Htr1).
  change (children this) with cs.
  destruct (first_deep_child depth cs Hdepth)
    as (pre & c & post & -> & Hpre & Hc).
  rewrite fmap_cons in Hnd. apply NoDup_cons in Hnd as [Hfresh Hnd2].
  rewrite flat_map_app, fmap_app in Hnd2. simpl in Hnd2.
  rewrite fmap_app in Hnd2.
  apply NoDup_app in Hnd2 as (Hnd_pre & Hdisj & Hnd3).
  apply NoDup_app in Hnd3 as (Hnd_c & _ & _).
  assert (Hfree : forall c', c' ∈ pre ++ c :: post -> soma_free c' = true).
  { intros c' Hc'. eapply forallb_forall; [exact Hcs | by apply list_elem_of_In]. }
  rewrite for_each_child_app.
  assert (Hchildren : Forall (fun c' => forall w0,
            (forall n, n ∈ nodes_of c' -> node_id n ∉ processed_nodes w0) ->
            exists w', parse_child depth this c' w0 = Ok tt w'
                       /\ traversed (nodes_of c') w0 w') pre).
  { apply Forall_forall. intros c' Hc' w0 Hnin0.
    rewrite Forall_forall in Hpre. specialize (Hpre c' Hc').
    destruct depth as [|depth']; [lia|]. simpl.
    apply soma_free_traversal; [| |lia|done].
    - apply Hfree, elem_of_app. by left.
    - eapply sublist_NoDup; [exact Hnd_pre|].
      by apply fmap_sublist, nodes_of_child_sublist. }
  assert (Hnin1 : forall n, n ∈ flat_map nodes_of (pre ++ c :: post) ->
                            node_id n ∉ processed_nodes w1).
  { intros n Hn. destruct Htr1 as (-> & _).
    intros [Hin|Hin]%elem_of_union.
    - revert Hin. apply Hnin. by right.
    - simpl in Hin. apply Hfresh. apply list_elem_of_fmap.
      exists n. split; [set_solver | done]. }
  destruct (for_each_child_traverses (parse_child depth this) pre
              Hchildren Hnd_pre w1) as (w2 & -> & Htr2).
  { intros n Hn. apply Hnin1. rewrite flat_map_app, elem_of_app. by left. }
  assert (Hnin2 : forall n, n ∈ nodes_of c -> node_id n ∉ processed_nodes w2).
  { intros n Hn. destruct Htr2 as (-> & _).
    intros [Hin|Hin]%elem_of_union.
    - revert Hin. apply Hnin1. rewrite flat_map_app, elem_of_app. right.
      simpl. rewrite elem_of_app. by left.
    - apply elem_of_list_to_set in Hin. apply Hdisj in Hin.
      apply Hin. rewrite elem_of_app. left. apply list_elem_of_fmap. eauto. }
  assert (Hlen2 : (length (segments w) + 1 <= length (segments w2))%nat).
  { destruct Htr1 as (_ & _ & L1 & _). destruct Htr2 as (_ & _ & L2 & _).
    simpl in L1. lia. }
  simpl. rewrite decide_False
    by (apply Hnin2; rewrite nodes_of_eq; apply list_elem_of_here).
  destruct depth as [|depth']; simpl.
  - unfold raise. exists w2. split; [done | lia].
  - rewrite Forall_forall in IH.
    destruct (IH c) with (depth := depth') (parent_point := this) (w := w2)
      as (w3 & -> & Hlen3); [| | |lia|done|].
    + apply elem_of_app. right. apply list_elem_of_here.
    + apply Hfree, elem_of_app. right. apply list_elem_of_here.
    + done.
    + exists w3. split; [done | lia].
Qed.

(** X22: a subtree without soma points, with unique ids none of which is
    processed, that is deeper than the interpreter has room for nested
    calls makes the traversal raise RecursionError, after at least one
    segment per level that could be entered. *)
Theorem deep_subtree_raises_recursion_error (this_point : SWCNode) :
  soma_free this_point = true ->
  NoDup (node_id <$> nodes_of this_point) ->
  forall depth parent_point w,
    (depth < height this_point)%nat ->
    (forall n, n ∈ nodes_of this_point -> node_id n ∉ processed_nodes w) ->
    exists w',
      parse_tree depth parent_point this_point w = Raise RecursionError w' /\
      (length (segments w) + S depth <= length (segments w'))%nat.
Proof. exact (deep_subtree_traversal this_point). Qed.

(** The axon tree of the no-soma test has two levels below its first
    point: with room for one nested call the traversal raises. *)
Lemma deep_subtree_raises_recursion_error_witness :
  exists w',
    parse_tree 1 ex9_n1 ex9_n1 (fresh_writer ex9_nodes "axons.swc")
      = Raise RecursionError w' /\
    (2 <= length (segments w'))%nat.
Proof.
  destruct (deep_subtree_raises_recursion_error ex9_n1) with
    (depth := 1%nat) (parent_point := ex9_n1)
    (w := fresh_writer ex9_nodes "axons.swc")
    as (w' & Hrun & Hlen).
  - vm_compute. reflexivity.
  - vm_compute. repeat constructor; set_solver.
  - vm_compute. lia.
  - intros n _. simpl. set_solver.
  - exists w'. split; [exact Hrun|]. simpl in Hlen. lia.
Defined.

(** ** A tree on a single-point soma *)

Lemma nml_string_after_traversal
    (lib : Z -> list Segment -> list SegmentGroup -> list SegmentGroup)
    (write_document : NeuroMLWriter -> string) (depth : nat)
    (nodes : list SWCNode) (origin : string) (start : SWCNode) (w1 : NeuroMLWriter) :
  (2 <= length nodes)%nat ->
  find_start_point (fresh_writer nodes origin)
    = Ok start (fresh_writer nodes origin) ->
  parse_tree depth start start (fresh_writer nodes origin) = Ok tt w1 ->
  segment_types w1 !! 0 = Some SOMA ->
  nml_string lib write_document depth (init_writer nodes origin)
    = Ok (write_document (finished_writer lib w1)) (finished_writer lib w1).
Proof.
  intros Hlen Hfind Hrun Htype.
  pose proof (builder_inv_parse_tree depth nodes origin start) as Hinv1.
  rewrite Hrun in Hinv1. simpl in Hinv1.
  destruct (create_segment_groups_cases lib w1) as [Hroot _].
  destruct Hroot as (root & Hr & Hle & Hgroups); [eauto|].
  assert (root = 0) as ->.
  { specialize (Hle 0 Htype). destruct Hinv1 as [_ _ _ _ _ Hty _].
    assert (is_Some (segment_types w1 !! root)) as Hs%Hty by eauto. lia. }
  unfold nml_string. simpl points.
  rewrite bool_decide_eq_false_2 by lia. simpl orb. cbv iota.
  change (create_cell (init_writer nodes origin)) with (fresh_writer nodes origin).
  rewrite Hfind, Hrun, Hgroups. reflexivity.
Qed.

(** X11: a tree whose root is the only soma point, with unique ids and no
    deeper than the interpreter has room for nested calls: the build
    returns, the root gets segment 0 with both ends at its own point, and
    the k-th node in depth-first order gets segment k. *)
Theorem single_point_soma_tree_built
    (lib : Z -> list Segment -> list SegmentGroup -> list SegmentGroup)
    (write_document : NeuroMLWriter -> string) (depth : nat)
    (nodes : list SWCNode) (origin : string) (root : SWCNode) :
  (2 <= length nodes)%nat ->
  soma_points_of nodes = [root] ->
  forallb soma_free (children root) = true ->
  NoDup (node_id <$> nodes_of root) ->
  (height root <= depth)%nat ->
  exists w',
    nml_string lib write_document depth (init_writer nodes origin)
      = Ok (write_document w') w' /\
    length (segments w') = length (nodes_of root) /\
    segments w' !! 0%nat
      = Some (mkSegment 0 "soma_Seg_0" None
                (Some (point_of root)) (Some (point_of root))) /\
    forall k n, nodes_of root !! k = Some n ->
      point_indices_vs_seg_ids w' !! node_id n = Some (Z.of_nat k) /\
      segment_types w' !! Z.of_nat k = Some (node_type n).
Proof.
  intros Hlen Hsoma Hfree Hnd Hdepth. set (w0 := fresh_writer nodes origin).
  assert (Hfind : find_start_point w0 = Ok root w0).
  { unfold find_start_point. simpl points. by rewrite Hsoma. }
  assert (Hroot_soma : node_type root = SOMA).
  { assert (root ∈ soma_points_of nodes) as Hin
      by (rewrite Hsoma; apply list_elem_of_here).
    by apply list_elem_of_filter in Hin as [? _]. }
  set (seg0 := mkSegment 0 "soma_Seg_0" None
                 (Some (point_of root)) (Some (point_of root))).
  set (wv := mark_processed (node_id root)
               (mark_processed (node_id root) (single_point_soma root w0))).
  assert (Hvisit : visit_point root root w0 = Ok tt wv).
  { unfold visit_point.
    assert (E : (node_type root =? SOMA)%N = true) by (by apply N.eqb_eq).
    rewrite E.
    unfold handle_soma. rewrite decide_False by (simpl; set_solver).
    simpl points. rewrite Hsoma. reflexivity. }
  assert (Htr0 : traversed [root] w0 wv).
  { unfold traversed. simpl.
    split; [set_solver|]. split; [done|]. split; [done|]. split; [|split].
    - intros [|k] n; [|done]. intros [= <-]. rewrite Hroot_soma.
      by rewrite !lookup_insert_eq.
    - intros pid Hpid. rewrite lookup_insert_ne; [done|].
      intros <-. apply Hpid, list_elem_of_here.
    - intros sid Hsid. rewrite lookup_insert_ne; [done|lia]. }
  rewrite nodes_of_eq in Hnd. pose proof Hnd as Hnd'.
  rewrite fmap_cons in Hnd'. apply NoDup_cons in Hnd' as [Hfresh Hnd2].
  assert (Hchildren : Forall (fun c => forall w,
            (forall n, n ∈ nodes_of c -> node_id n ∉ processed_nodes w) ->
            exists w', parse_child depth root c w = Ok tt w'
                       /\ traversed (nodes_of c) w w') (children root)).
  { apply Forall_forall. intros c Hc w Hnin.
    destruct (parse_child_within depth root c) as (depth' & -> & Hdepth');
      [done..|].
    apply soma_free_traversal; [| |done|done].
    - eapply forallb_forall; [exact Hfree | by apply list_elem_of_In].
    - eapply sublist_NoDup; [exact Hnd2|].
      by apply fmap_sublist, nodes_of_child_sublist. }
  assert (Hnin1 : forall n, n ∈ flat_map nodes_of (children root) ->
                            node_id n ∉ processed_nodes wv).
  { intros n Hn. simpl. intros Hin. apply Hfresh, list_elem_of_fmap.
    exists n. split; [set_solver | done]. }
  destruct (for_each_child_traverses (parse_child depth root) (children root)
              Hchildren Hnd2 wv Hnin1) as (w1 & Hloop & Htr1).
  assert (Hrun : parse_tree depth root root w0 = Ok tt w1).
  { rewrite parse_tree_eq. rewrite decide_False by (simpl; set_solver).
    by rewrite Hvisit. }
  assert (Htr : traversed (nodes_of root) w0 w1).
  { rewrite nodes_of_eq. exact (traversed_app [root] _ w0 wv w1 Hnd Htr0 Htr1). }
  destruct Htr as (_ & _ & Hlen1 & Hk & _).
  assert (H0 : segment_types w1 !! 0 = Some SOMA).
  { destruct (Hk 0%nat root) as [_ H]; [by rewrite nodes_of_eq|].
    by rewrite Hroot_soma in H. }
  exists (finished_writer lib w1). split.
  { by apply nml_string_after_traversal with (start := root). }
  split; [exact Hlen1|]. split; [|exact Hk].
  assert (Hpre : segments wv `prefix_of` segments w1).
  { pose proof (steps_for_each_child (parse_child depth root) (children root))
      as Hs.
    specialize (Hs ltac:(apply Forall_forall; intros c _ w2;
                         apply steps_parse_child) wv).
    rewrite Hloop in Hs. by apply builder_steps_monotone in Hs as (_ & _ & _ & ? & _). }
  destruct Hpre as [more Hmore]. simpl. rewrite Hmore. reflexivity.
Qed.

Lemma single_point_soma_tree_built_witness :
  exists w',
    nml_string ex_branches ex_write ex_depth (init_writer ex1_nodes "cell.swc")
      = Ok (ex_write w') w' /\
    length (segments w') = 4%nat /\
    point_indices_vs_seg_ids w' !! 4 = Some 3.
Proof.
  destruct (single_point_soma_tree_built ex_branches ex_write ex_depth
              ex1_nodes "cell.swc" ex1_n1) as (w' & Hrun & Hlen & _ & Hk).
  - simpl. lia.
  - reflexivity.
  - vm_compute. reflexivity.
  - vm_compute. repeat constructor; set_solver.
  - vm_compute. lia.
  - exists w'. split; [exact Hrun|]. split; [exact Hlen|].
    by destruct (Hk 3%nat ex1_n4) as [Htab _].
Defined.

(** ** Trees without a soma: what is built before the error *)

Lemma built_group_members (w : NeuroMLWriter) (name : string) (sid : Z) :
  (exists g, g ∈ concat (group_of w <$> group_names) /\
             group_id g = name /\ sid ∈ members g)
  <-> name ∈ group_names /\ in_group w name sid.
Proof.
  split.
  - intros (g & Hg & <- & Hsid).
    apply elem_of_concat in Hg as (l & Hg & Hl).
    apply list_elem_of_fmap in Hl as (name' & -> & Hname).
    apply group_of_spec in Hg as (<- & _ & _ & _ & Hmem).
    split; [done | by apply Hmem].
  - intros [Hname Hin]. destruct (group_of_nonempty w name sid Hin) as [g Hg].
    assert (Hg' : g ∈ group_of w name) by (rewrite Hg; apply list_elem_of_here).
    exists g. split.
    + apply elem_of_concat. exists (group_of w name). split; [done|].
      apply list_elem_of_fmap. eauto.
    + apply group_of_spec in Hg' as (-> & _ & _ & _ & Hmem).
      split; [done | by apply Hmem].
Qed.

(** C9, amended.  For a point list in which no node, nor any descendant
    of a node, is soma-typed, and whose first point has no more levels
    below it than the interpreter has room for nested calls: the traversal
    from the first point returns, having made at least one segment, every
    segment with a type that is not soma (with unique ids: one segment per
    node of the first point's tree, in depth-first order, typed as the
    node); then the derivation of the unbranched groups raises the no-soma
    error (Python's ValueError from [min] of an empty sequence), after the
    groups were appended to the morphology: a group holds a segment exactly
    when the segment's type belongs to the group; and with at least two
    points, so that [nml_string] gets to build at all, [nml_string] ends
    with that error in that state. *)
Theorem no_soma_fails_after_construction
    (lib : Z -> list Segment -> list SegmentGroup -> list SegmentGroup)
    (write_document : NeuroMLWriter -> string) (depth : nat)
    (nodes : list SWCNode) (origin : string) (start : SWCNode) :
  head nodes = Some start ->
  forallb soma_free nodes = true ->
  (height start <= depth)%nat ->
  exists w1,
    find_start_point (fresh_writer nodes origin)
      = Ok start (fresh_writer nodes origin) /\
    parse_tree depth start start (fresh_writer nodes origin) = Ok tt w1 /\
    segments w1 <> [] /\
    (forall sid, is_Some (segment_types w1 !! sid)
                 <-> 0 <= sid < Z.of_nat (length (segments w1))) /\
    (NoDup (node_id <$> nodes_of start) ->
     length (segments w1) = length (nodes_of start) /\
     forall k n, nodes_of start !! k = Some n ->
       point_indices_vs_seg_ids w1 !! node_id n = Some (Z.of_nat k) /\
       segment_types w1 !! Z.of_nat k = Some (node_type n)) /\
    create_segment_groups lib w1 = Raise NoSomaFoundError (build_groups w1) /\
    segments (build_groups w1) = segments w1 /\
    (forall g sid,
       (exists grp, grp ∈ morph_segment_groups (build_groups w1) /\
                    group_id grp = g /\ sid ∈ members grp)
       <-> exists t, segment_types w1 !! sid = Some t /\ t <> SOMA /\
                     g ∈ get_groups_for_type t) /\
    ((2 <= length nodes)%nat ->
     nml_string lib write_document depth (init_writer nodes origin)
       = Raise NoSomaFoundError (build_groups w1)).
Proof.
  intros Hhead Hfree Hdepth.
  destruct nodes as [|start' rest]; [done|]. injection Hhead as ->.
  pose proof (soma_free_no_soma_points _ Hfree) as Hsoma.
  assert (Hstart : soma_free start = true)
    by (simpl in Hfree; by apply andb_true_iff in Hfree as [? _]).
  set (w0 := fresh_writer (start :: rest) origin).
  assert (Hinv0 : builder_inv w0)
    by apply builder_inv_create_cell, builder_inv_init.
  destruct (parse_tree_soma_free start Hstart depth start w0 Hdepth)
    as (w1 & Hrun & Hnosoma & Hgrow).
  { simpl. set_solver. }
  { intros sid t. simpl. by rewrite lookup_empty. }
  pose proof (steps_parse_tree start depth start w0) as Hsteps.
  rewrite Hrun in Hsteps. simpl in Hsteps.
  pose proof (builder_inv_steps _ _ Hsteps Hinv0) as Hinv1.
  apply builder_steps_monotone in Hsteps as (_ & (_ & Hm & _ & _) & _).
  assert (Hfind : find_start_point w0 = Ok start w0).
  { unfold find_start_point. simpl points. by rewrite Hsoma. }
  assert (Hgroups : create_segment_groups lib w1
                    = Raise NoSomaFoundError (build_groups w1)).
  { unfold create_segment_groups.
    change (soma_segment_ids (build_groups w1)) with (soma_segment_ids w1).
    by rewrite no_soma_type_no_root. }
  exists w1. split; [exact Hfind|]. split; [exact Hrun|].
  split; [intros E; rewrite E in Hgrow; simpl in Hgrow; lia|].
  split; [|split; [|split; [exact Hgroups|split; [reflexivity|split]]]].
  - intros sid. destruct Hinv1 as [Hn _ _ _ _ Hty _]. by rewrite Hty, Hn.
  - intros Hnd.
    destruct (soma_free_traversal start Hstart Hnd depth start w0 Hdepth)
      as (w1' & Hrun' & Htr).
    { intros n _. simpl. set_solver. }
    assert (w1' = w1) as -> by congruence.
    destruct Htr as (_ & _ & Hlen & Hk & _ & _). split; [exact Hlen|].
    intros k n Hn. destruct (Hk k n Hn) as [Ht Hs].
    change (next_segment_id w0) with 0 in Ht, Hs.
    by rewrite Z.add_0_l in Ht, Hs.
  - intros g sid.
    change (morph_segment_groups (build_groups w1))
      with (morph_segment_groups w1 ++ concat (group_of w1 <$> group_names)).
    rewrite Hm. change (morph_segment_groups w0) with (@nil SegmentGroup).
    rewrite app_nil_l, built_group_members.
    destruct Hinv1 as [_ _ _ _ _ _ Hg]. rewrite Hg. split.
    + intros (_ & t & Ht & Hin). exists t. split; [done|].
      split; [by eapply Hnosoma | done].
    + intros (t & Ht & _ & Hin).
      split; [by eapply get_groups_for_type_names | eauto].
  - intros Hlen2. unfold nml_string. simpl points.
    rewrite bool_decide_eq_false_2 by (simpl; simpl in Hlen2; lia).
    simpl orb. cbv iota.
    change (create_cell (init_writer (start :: rest) origin)) with w0.
    rewrite Hfind, Hrun, Hgroups. reflexivity.
Qed.

(** The axon tree of the source's no-soma test: six segments, the group
    [axon_group] with all six of them, then the error. *)
Lemma no_soma_fails_after_construction_witness :
  exists w,
    nml_string ex_branches ex_write ex_depth (init_writer ex9_nodes "axons.swc")
      = Raise NoSomaFoundError w /\
    length (segments w) = 6%nat /\
    mkSegmentGroup "axon_group" [0; 1; 2; 3; 4; 5] ∈ morph_segment_groups w.
Proof.
  destruct (no_soma_fails_after_construction ex_branches ex_write ex_depth
              ex9_nodes "axons.swc" ex9_n1)
    as (w1 & _ & Hrun & _ & _ & _ & _ & _ & _ & Hnml).
  - reflexivity.
  - vm_compute. reflexivity.
  - vm_compute. lia.
  - exists (build_groups w1). split; [apply Hnml; simpl; lia|].
    vm_compute in Hrun. injection Hrun as <-.
    split; [vm_compute; reflexivity|].
    apply (list_elem_of_lookup_2 _ 1%nat). vm_compute. reflexivity.
Defined.

(** C9, as stated, fails on the code: on a chain of axon points with one
    level more than the interpreter has room for nested calls, the
    traversal itself raises RecursionError, with one segment made per call
    that could be entered and no group built. *)
Lemma no_soma_deep_chain_counterexample :
  let nodes := nodes_of (ex_chain (-1) 1 (S ex_depth)) in
  forallb soma_free nodes = true /\
  length nodes = (ex_depth + 2)%nat /\
  match nml_string ex_branches ex_write ex_depth (init_writer nodes "axons.swc") with
  | Raise e w =>
      e = RecursionError /\ e <> NoSomaFoundError /\
      length (segments w) = S ex_depth /\
      morph_segment_groups w = []
  | Ok _ _ => False
  end.
Proof.
  cbv zeta. split; [vm_compute; reflexivity|].
  split; [vm_compute; reflexivity|].
  vm_compute. repeat split; discriminate.
Qed.

(** ** The start point *)

Lemma filter_head_split {A} (P : A -> Prop) `{!forall x, Decision (P x)}
    (l : list A) (x : A) (r : list A) :
  filter P l = x :: r ->
  exists before after,
    l = before ++ x :: after /\ Forall (fun y => ~ P y) before /\ P x.
Proof.
  induction l as [|a l IH]; [done|].
  rewrite filter_cons. destruct (decide (P a)) as [Ha|Ha].
  - intros [= -> _]. exists [], l. repeat split; [apply Forall_nil_2 | done].
  - intros (before & after & -> & Hb & Hx)%IH.
    exists (a :: before), after. repeat split; [by apply Forall_cons_2 | done].
Qed.

(** X12: the traversal starts at the first soma-typed point of the file, or
    at the first point when none is soma-typed; an empty point list
    raises. *)
Theorem find_start_point_first_soma (w : NeuroMLWriter) :
  match find_start_point w with
  | Ok start w' =>
      w' = w /\
      ((node_type start = SOMA /\
        exists before after,
          points w = before ++ start :: after /\
          Forall (fun p => node_type p <> SOMA) before) \/
       (Forall (fun p => node_type p <> SOMA) (points w) /\
        head (points w) = Some start))
  | Raise e w' => e = IndexError /\ w' = w /\ points w = []
  end.
Proof.
  unfold find_start_point.
  destruct (soma_points_of (points w)) as [|start rest] eqn:Es.
  - assert (Hno : Forall (fun p => node_type p <> SOMA) (points w)).
    { apply Forall_forall. intros p Hp Hsoma.
      assert (p ∈ soma_points_of (points w)) as Hin
        by (apply list_elem_of_filter; done).
      rewrite Es in Hin. by apply elem_of_nil in Hin. }
    destruct (points w) as [|p l]; [done|]. split; [done|]. by right.
  - split; [done|]. left.
    apply filter_head_split in Es as (before & after & E & Hb & Hs).
    split; [done|]. eauto.
Qed.

(** ** Accepted attachment fractions *)

(** X13: the attachment is refused exactly for the fractions that are
    neither within the tolerance of 1 nor equal to 0. *)
Theorem attachment_refused_iff (p : SegmentParent) (s : ExportState) :
  parent_line_of p s = Raise UnsupportedAttachmentError s <->
  ~ (Qabs (fraction_along p - 1) < tolerance)%Q /\ ~ (fraction_along p == 0)%Q.
Proof.
  split.
  - intros Hrun. split; intros H.
    + rewrite parent_line_near_one in Hrun by done.
      unfold dict_get in Hrun. by destruct (_ !! _).
    + rewrite parent_line_zero in Hrun by done.
      unfold dict_get in Hrun. by destruct (_ !! _).
  - intros [H1 H0]. by apply parent_line_other.
Qed.

(** ** The cell name *)

Lemma chars_append (a b : string) : chars (a +:+ b) = chars a ++ chars b.
Proof. induction a as [|c a IH]; simpl; [done|]. unfold chars in *. simpl. by f_equal. Qed.

Lemma chars_substring (n m : nat) (s : string) (c : ascii) :
  c ∈ chars (String.substring n m s) -> c ∈ chars s.
Proof.
  revert n m. induction s as [|a s IH]; intros n m.
  - by destruct n, m.
  - destruct n as [|n]; simpl.
    + destruct m as [|m]; simpl; [by intros ?%elem_of_nil|].
      intros [->|H]%elem_of_cons; [left | right; by eapply (IH 0%nat)].
    + intros H. right. by eapply IH.
Qed.

Lemma substring_full (s : string) :
  String.substring 0 (String.length s) s = s.
Proof. induction s as [|a s IH]; simpl; [done|]. by f_equal. Qed.

Lemma after_last_no_sep (sep : ascii) (s : string) :
  sep ∉ chars (after_last sep s).
Proof.
  induction s as [|c s IH]; simpl; [apply not_elem_of_nil|].
  destruct (existsb (Ascii.eqb sep) (list_ascii_of_string s)) eqn:E; [done|].
  assert (Hs : sep ∉ chars s).
  { intros Hin. apply list_elem_of_In in Hin.
    assert (existsb (Ascii.eqb sep) (list_ascii_of_string s) = true)
      by (apply existsb_exists; exists sep; split; [done | apply Ascii.eqb_refl]).
    congruence. }
  destruct (Ascii.eqb_spec c sep) as [->|Hne]; [done|].
  unfold chars. simpl. rewrite not_elem_of_cons. split; [congruence | done].
Qed.

Lemma replace_fuel_chars (fuel : nat) (old new s : string) (c : ascii) :
  c ∈ chars (replace_fuel fuel old new s) -> c ∈ chars s \/ c ∈ chars new.
Proof.
  revert s. induction fuel as [|fuel IH]; intros s; simpl; [by left|].
  destruct (String.prefix old s).
  - rewrite chars_append, elem_of_app. intros [H|H]; [by right|].
    apply IH in H as [H|H]; [left | by right]. by eapply chars_substring.
  - destruct s as [|a s]; [by left|].
    unfold chars. simpl. intros [->|H]%elem_of_cons; [left; left|].
    apply IH in H as [H|H]; [left; by right | by right].
Qed.

Lemma replace_char_gone (o : ascii) (new : string) (fuel : nat) :
  o ∉ chars new ->
  forall s, (String.length s < fuel)%nat ->
    o ∉ chars (replace_fuel fuel (String o EmptyString) new s).
Proof.
  intros Hnew. induction fuel as [|fuel IH]; intros s Hlen; [lia|].
  simpl. destruct s as [|a s]; simpl.
  - apply not_elem_of_nil.
  - destruct (ascii_dec o a) as [<-|Hne]; simpl.
    + assert (Hp : String.prefix "" s = true) by (by destruct s).
      rewrite Hp, Nat.sub_0_r, substring_full, chars_append, not_elem_of_app.
      split; [done|]. apply IH. simpl in Hlen. lia.
    + unfold chars. simpl. rewrite not_elem_of_cons. split; [done|].
      apply IH. simpl in Hlen. lia.
Qed.

Lemma replace_chars (old new s : string) (c : ascii) :
  c ∈ chars (replace old new s) -> c ∈ chars s \/ c ∈ chars new.
Proof. apply replace_fuel_chars. Qed.

Lemma replace_char_absent (o : ascii) (new s : string) :
  o ∉ chars new -> o ∉ chars (replace (String o EmptyString) new s).
Proof. intros H. apply replace_char_gone; [done|lia]. Qed.

(** X14: the cell name holds no slash, dot or dash and does not begin
    with a digit. *)
Theorem cell_name_is_clean (w : NeuroMLWriter) :
  let name := get_cell_name w in
  (slash ∉ chars name) /\ (dot ∉ chars name) /\ (dash ∉ chars name) /\
  forall c rest, name = String c rest -> isdigit c = false.
Proof.
  intros name. subst name. unfold get_cell_name.
  set (n0 := after_last "/" (morphology_origin w)).
  set (n1 := replace ".swc" "" n0).
  set (n2 := replace "." "_" n1).
  set (n3 := replace "-" "_" n2).
  assert (H0 : slash ∉ chars n0) by apply after_last_no_sep.
  assert (H1 : slash ∉ chars n1).
  { intros [H|H]%replace_chars; [done | by apply elem_of_nil in H]. }
  assert (Hu : forall c : ascii, c ∈ chars "_" -> c = underscore).
  { intros c H. by apply list_elem_of_singleton in H. }
  assert (H2 : (slash ∉ chars n2) /\ (dot ∉ chars n2)).
  { split.
    - intros [H|H]%replace_chars; [done|]. by apply Hu in H.
    - apply replace_char_absent. intros H. by apply Hu in H. }
  assert (H3 : (slash ∉ chars n3) /\ (dot ∉ chars n3) /\ (dash ∉ chars n3)).
  { destruct H2 as [Ha Hb]. repeat split.
    - intros [H|H]%replace_chars; [done|]. by apply Hu in H.
    - intros [H|H]%replace_chars; [done|]. by apply Hu in H.
    - apply replace_char_absent. intros H. by apply Hu in H. }
  destruct H3 as (Ha & Hb & Hc).
  destruct n3 as [|c rest] eqn:E3.
  - split; [apply not_elem_of_nil|]. split; [apply not_elem_of_nil|].
    split; [apply not_elem_of_nil|]. done.
  - destruct (isdigit c) eqn:Hd.
    + assert (Hcell : forall a : ascii, a ∈ chars "Cell_" ->
                a <> slash /\ a <> dot /\ a <> dash).
      { intros a Hin. unfold chars in Hin. simpl in Hin.
        repeat rewrite ?elem_of_cons, ?elem_of_nil in Hin.
        by destruct Hin as [->|[->|[->|[->|[->|[]]]]]]. }
      rewrite !chars_append, !not_elem_of_app.
      split; [split; [|done]; by intros (? & _)%Hcell|].
      split; [split; [|done]; by intros (_ & ? & _)%Hcell|].
      split; [split; [|done]; by intros (_ & _ & ?)%Hcell|].
      intros c' rest' [= <- _]. reflexivity.
    + split; [done|]. split; [done|]. split; [done|].
      by intros c' rest' [= <- _].
Qed.

Lemma parse_tree_marks_then_skips_witness :
  let w' := final_state
              (parse_tree ex_depth ex3_n1 ex3_n1
                 (fresh_writer ex3_nodes "cell.swc")) in
  (1 ∈ processed_nodes w') /\ parse_tree ex_depth ex3_n4 ex3_n1 w' = Ok tt w'.
Proof.
  intros w'.
  destruct (parse_tree_marks_then_skips ex_depth ex3_n1 ex3_n1
              (fresh_writer ex3_nodes "cell.swc") w') as [Hin Hskip].
  - vm_compute. reflexivity.
  - split; [exact Hin|]. apply Hskip, rtc_refl.
Defined.

Lemma table_entries_name_segments_witness :
  let w := final_state
             (nml_string ex_branches ex_write ex_depth
                (init_writer ex3_nodes "cell.swc")) in
  exists segment, segments w !! 2%nat = Some segment /\ seg_id segment = 2.
Proof.
  intros w.
  destruct (table_entries_name_segments ex_branches ex_write ex_depth ex3_nodes
              "cell.swc" 4 2) as (segment & Hseg & Hid & _).
  - vm_compute. reflexivity.
  - exists segment. split; [exact Hseg | exact Hid].
Defined.

Lemma groups_follow_types_witness :
  let w := final_state
             (nml_string ex_branches ex_write ex_depth
                (init_writer ex3_nodes "cell.swc")) in
  in_group w "soma_group" 1 /\ 0 <= 1 < Z.of_nat (length (segments w)).
Proof.
  intros w.
  destruct (groups_follow_types ex_branches ex_write ex_depth ex3_nodes "cell.swc")
    as [Hmem Htypes].
  destruct (Htypes 1) as (_ & Hsoma & _).
  assert (Hin : in_group w "soma_group" 1)
    by (apply Hsoma; vm_compute; reflexivity).
  split; [exact Hin|]. by destruct (Hmem "soma_group" 1 Hin).
Defined.

Lemma built_groups_mirror_sets_witness :
  let w := final_state
             (parse_tree ex_depth ex3_n1 ex3_n1
                (fresh_writer ex3_nodes "cell.swc")) in
  exists new,
    morph_segment_groups (build_groups w) = new /\
    "dendrite_group" ∈ group_id <$> new.
Proof.
  intros w.
  destruct (built_groups_mirror_sets w) as (new & Hnew & _ & _ & Hall).
  exists new. split; [exact Hnew|].
  apply (Hall "dendrite_group" 2).
  - unfold group_names. rewrite !elem_of_cons. tauto.
  - exists {[2]}. split; [vm_compute; reflexivity | set_solver].
Defined.

Lemma create_segment_groups_root_witness :
  let w := final_state
             (parse_tree ex_depth ex3_n1 ex3_n1
                (fresh_writer ex3_nodes "cell.swc")) in
  returns (create_segment_groups ex_branches w) = true.
Proof.
  intros w.
  destruct (create_segment_groups_root ex_branches w) as [Hroot _].
  destruct Hroot as (root & _ & _ & Hrun).
  - exists 0. vm_compute. reflexivity.
  - rewrite Hrun. reflexivity.
Defined.

Lemma cell_name_is_clean_witness :
  get_cell_name (init_writer [] "/data/cells/12-a.b.swc") = "Cell_12_a_b" /\
  isdigit "C" = false.
Proof.
  split; [vm_compute; reflexivity|].
  destruct (cell_name_is_clean (init_writer [] "/data/cells/12-a.b.swc"))
    as (_ & _ & _ & Hfirst).
  apply (Hfirst "C"%char "ell_12_a_b"). vm_compute. reflexivity.
Defined.

Lemma attachment_refused_iff_witness :
  parent_line_of (mkSegmentParent 0 (1 # 2)) empty_export_state
  = Raise UnsupportedAttachmentError empty_export_state.
Proof.
  apply attachment_refused_iff. split.
  - vm_compute. discriminate.
  - vm_compute. discriminate.
Defined.

(** ** Segments that can be exported *)

Lemma all_exportable_emit (w : NeuroMLWriter) segment pid t :
  all_exportable w -> exportable segment -> all_exportable (emit segment pid t w).
Proof.
  intros H Hs. unfold all_exportable. simpl. apply Forall_app. split; [done|].
  by apply Forall_cons_2; [|apply Forall_nil_2].
Qed.

Lemma all_exportable_multi_point_soma (rest : list SWCNode) :
  forall i w, all_exportable w -> all_exportable (multi_point_soma i rest w).
Proof.
  induction rest as [|cur rest IH]; intros i w H; [done|].
  rewrite multi_point_soma_cons. apply IH.
  destruct (decide _); [done|].
  change (all_exportable (emit (multi_segment i cur rest (next_segment_id w))
                            (node_id cur) SOMA w)).
  apply all_exportable_emit; [done|]. split.
  - simpl. destruct rest; eauto.
  - simpl. destruct (i =? 0)%nat; [done|]. by intros p [= <-].
Qed.

Lemma all_exportable_handle_soma (this_point parent_point : SWCNode)
    (w : NeuroMLWriter) :
  all_exportable w ->
  all_exportable (final_state (handle_soma this_point parent_point w)).
Proof.
  intros H.
  destruct (decide (node_id this_point ∈ processed_nodes w)) as [Hin|Hnin].
  { unfold handle_soma. by rewrite decide_True. }
  destruct (decide (length (soma_points_of (points w)) = 3%nat)) as [H3|H3].
  { unfold handle_soma. rewrite decide_False by done.
    destruct (soma_points_of (points w)) as [|a [|b [|c [|d l]]]]; try done.
    case_bool_decide; [|done]. cbn [final_state].
    unfold all_exportable. simpl. rewrite <- app_assoc.
    apply Forall_app. split; [done|].
    apply Forall_cons_2; [|apply Forall_cons_2; [|apply Forall_nil_2]];
      (split; simpl; [eauto|]); [done | by intros p [= <-]]. }
  destruct (decide (length (soma_points_of (points w)) = 1%nat)) as [H1|H1].
  { unfold handle_soma. rewrite decide_False by done.
    destruct (soma_points_of (points w)) as [|a [|b [|c [|d l]]]]; try done.
    cbn [final_state]. unfold all_exportable. simpl.
    apply Forall_app. split; [done|].
    apply Forall_cons_2; [|apply Forall_nil_2]. split; simpl; [eauto | done]. }
  rewrite handle_soma_multi by done. unfold multi_branch.
  destruct (sorted_by_x _) as [|lowest rest]; [done|].
  destruct (node_eqb this_point lowest); [|done]. cbn [final_state].
  change (all_exportable (multi_point_soma 0 (lowest :: rest) w)).
  by apply all_exportable_multi_point_soma.
Qed.

(** What [visit_point] records for a point that is not soma-typed. *)
Lemma visit_point_general (w : NeuroMLWriter)
    (parent_point this_point : SWCNode) :
  node_type this_point <> SOMA ->
  node_id this_point ∉ processed_nodes w ->
  exists segment w',
    visit_point parent_point this_point w = Ok tt w' /\
    segments w' = segments w ++ [segment] /\
    parent segment
      = default_parent <$> point_indices_vs_seg_ids w !! node_id parent_point /\
    is_Some (distal segment) /\
    point_indices_vs_seg_ids w' !! node_id this_point = Some (seg_id segment) /\
    segment_types w' !! seg_id segment = Some (node_type this_point).
Proof.
  intros Hns Hnin. unfold visit_point.
  apply N.eqb_neq in Hns. rewrite Hns. rewrite decide_False by done.
  unfold create_segment.
  assert (Hpar : match point_indices_vs_seg_ids w !! node_id parent_point with
                 | Some v => Some (default_parent v)
                 | None => None
                 end
                 = default_parent <$> point_indices_vs_seg_ids w !! node_id parent_point)
    by (by destruct (_ !! _)).
  destruct (negb _); [|destruct (bool_decide (1 < _)%nat);
                       [|simpl; rewrite bool_decide_eq_true_2 by done]];
    (eexists _, _; split; [reflexivity|]); simpl;
    rewrite ?lookup_insert_eq; split_and!; try done;
    try (destruct (children this_point); by eauto); try (by eauto);
    apply lookup_insert_eq.
Qed.

(** X15: the segment the general rule makes hangs on the segment recorded
    for the parent point, and has no parent when none is recorded. *)
Theorem general_segment_parent (w : NeuroMLWriter)
    (parent_point this_point : SWCNode) :
  node_type this_point <> SOMA ->
  node_id this_point ∉ processed_nodes w ->
  exists segment w',
    visit_point parent_point this_point w = Ok tt w' /\
    segments w' = segments w ++ [segment] /\
    parent segment
      = default_parent <$> point_indices_vs_seg_ids w !! node_id parent_point /\
    is_Some (distal segment) /\
    point_indices_vs_seg_ids w' !! node_id this_point = Some (seg_id segment) /\
    segment_types w' !! seg_id segment = Some (node_type this_point).
Proof. exact (visit_point_general w parent_point this_point). Qed.

Lemma general_segment_parent_witness :
  exists segment w',
    visit_point ex6_n2 ex6_n4
      (final_state (handle_soma ex6_n1 ex6_n1 (fresh_writer ex6_nodes "cell.swc")))
      = Ok tt w' /\
    segments w' !! 2%nat = Some segment /\
    parent segment = None.
Proof.
  destruct (general_segment_parent
              (final_state (handle_soma ex6_n1 ex6_n1
                              (fresh_writer ex6_nodes "cell.swc")))
              ex6_n2 ex6_n4)
    as (segment & w' & Hrun & Hsegs & Hpar & _).
  - vm_compute. discriminate.
  - vm_compute. set_solver.
  - exists segment, w'. split; [exact Hrun|]. split.
    + rewrite Hsegs. vm_compute. reflexivity.
    + rewrite Hpar. vm_compute. reflexivity.
Defined.

Lemma all_exportable_visit_point (parent_point this_point : SWCNode)
    (w : NeuroMLWriter) :
  all_exportable w ->
  all_exportable (final_state (visit_point parent_point this_point w)).
Proof.
  intros H. unfold visit_point.
  destruct (node_type this_point =? SOMA)%N eqn:Et.
  - pose proof (all_exportable_handle_soma this_point parent_point w H) as Hh.
    by destruct (handle_soma this_point parent_point w).
  - destruct (decide (node_id this_point ∈ processed_nodes w)) as [|Hnin]; [done|].
    apply N.eqb_neq in Et.
    destruct (visit_point_general w parent_point this_point Et Hnin)
      as (segment & w' & Hrun & Hsegs & Hpar & Hdist & _).
    unfold visit_point in Hrun. apply N.eqb_neq in Et. rewrite Et in Hrun.
    rewrite decide_False in Hrun by done. rewrite Hrun. cbn [final_state].
    unfold all_exportable. rewrite Hsegs. apply Forall_app. split; [done|].
    apply Forall_cons_2; [|apply Forall_nil_2]. split; [done|].
    rewrite Hpar. destruct (_ !! _); [|done]. by intros p [= <-].
Qed.

Lemma all_exportable_for_each_child (visit : SWCNode -> M NeuroMLWriter unit)
    (cs : list SWCNode) :
  Forall (fun c => forall w, all_exportable w ->
                             all_exportable (final_state (visit c w))) cs ->
  forall w, all_exportable w ->
            all_exportable (final_state (for_each_child visit cs w)).
Proof.
  induction 1 as [|c cs Hc _ IH]; intros w H; simpl; [done|].
  destruct (decide _); [by apply IH|].
  specialize (Hc w H). destruct (visit c w) as [[] w'|e w']; simpl in *; [|done].
  by apply IH.
Qed.

Lemma all_exportable_parse_tree (this_point : SWCNode) :
  forall depth parent_point w,
    all_exportable w ->
    all_exportable (final_state (parse_tree depth parent_point this_point w)).
Proof.
  induction this_point as [i t x y z r p cs IH] using SWCNode_tree_ind.
  intros depth parent_point w H. rewrite parse_tree_eq.
  destruct (decide _); [done|].
  pose proof (all_exportable_visit_point parent_point
                (mkSWCNode i t x y z r p cs) w H) as Hv.
  destruct (visit_point _ _ w) as [[] w'|e w']; simpl in *; [|done].
  apply all_exportable_for_each_child; [|done].
  apply (Forall_parse_child
           (fun w o => all_exportable w -> all_exportable (final_state o)));
    [done | exact IH].
Qed.

(** X16: every segment of the model [nml_string] builds has a distal point
    and hangs on its parent, if it has one, at fraction 1. *)
Theorem built_segments_exportable
    (lib : Z -> list Segment -> list SegmentGroup -> list SegmentGroup)
    (write_document : NeuroMLWriter -> string) (depth : nat)
    (nodes : list SWCNode) (origin : string) :
  Forall exportable
    (segments (final_state
       (nml_string lib write_document depth (init_writer nodes origin)))).
Proof.
  unfold nml_string.
  destruct (_ || _); [apply Forall_nil_2|].
  set (w0 := create_cell (init_writer nodes origin)).
  assert (H0 : all_exportable w0) by apply Forall_nil_2.
  assert (Hgo : forall start,
    all_exportable (final_state
      match parse_tree depth start start w0 with
      | Raise e w => Raise e w
      | Ok _ w =>
          match create_segment_groups lib w with
          | Raise e w1 => Raise e w1
          | Ok _ w1 =>
              Ok (write_document (set_nml_doc (cell_id <$> cell w1) w1))
                 (set_nml_doc (cell_id <$> cell w1) w1)
          end
      end)).
  { intros start.
    pose proof (all_exportable_parse_tree start depth start w0 H0) as Hp.
    destruct (parse_tree depth start start w0) as [[] w1|e w1]; simpl in *; [|done].
    unfold create_segment_groups. by destruct (list_min _). }
  unfold find_start_point.
  destruct (soma_points_of (points w0)) as [|p l]; [|apply Hgo].
  destruct (points w0); [apply Forall_nil_2 | apply Hgo].
Qed.

(** X17: walking exportable segments can only fail on a parent that has no
    line yet. *)
Theorem exportable_segments_fail_on_missing_parent_only (type : N)
    (segs : list Segment) :
  Forall exportable segs ->
  forall s e s',
    lines_for_segments type segs s = Raise e s' -> e = KeyError.
Proof.
  induction 1 as [|segment segs [Hd Hf] _ IH]; intros s e s'; simpl; [done|].
  unfold bind at 1.
  destruct (lines_for_segment type segment s) as [here s1|e1 s1] eqn:E1.
  - unfold bind at 1.
    destruct (lines_for_segments type segs s1) as [[rest ids] s2|e2 s2] eqn:E2;
      [done|].
    intros [= <- _]. by eapply IH.
  - intros [= <- _]. revert E1. unfold lines_for_segment. unfold bind at 1.
    destruct (parent segment) as [p|] eqn:Ep.
    + rewrite parent_line_near_one.
      * unfold dict_get. destruct (_ !! _); [|by intros [= <- _]].
        destruct Hd as [dist ->]. by destruct (proximal segment).
      * rewrite (Hf p eq_refl). vm_compute. reflexivity.
    + destruct Hd as [dist ->]. by destruct (proximal segment).
Qed.

Lemma exportable_segments_fail_on_missing_parent_only_witness :
  lines_for_segments 3%N [ex7_dend 1] empty_export_state
  = Raise KeyError empty_export_state.
Proof.
  assert (H : exists e s', lines_for_segments 3%N [ex7_dend 1] empty_export_state
                           = Raise e s' /\ s' = empty_export_state)
    by (vm_compute; eauto).
  destruct H as (e & s' & Hrun & ->).
  rewrite Hrun. f_equal.
  apply (exportable_segments_fail_on_missing_parent_only 3%N [ex7_dend 1])
    with (s := empty_export_state) (s' := empty_export_state); [|exact Hrun].
  apply Forall_cons_2; [|apply Forall_nil_2].
  split; [simpl; eauto|]. intros p [= <-]. reflexivity.
Defined.

(** ** The exporter: line numbers and parents *)

Lemma parent_line_of_ok (p : SegmentParent) (s s' : ExportState) (v : Z) :
  parent_line_of p s = Ok v s' ->
  s' = s /\
  (line_index_vs_distals s !! parent_segments p = Some v \/
   line_index_vs_proximals s !! parent_segments p = Some v).
Proof.
  unfold parent_line_of, dict_get, raise.
  destruct (Qeq_bool _ 1).
  - destruct (_ !! _) eqn:E; [|done]. intros [= <- <-]. auto.
  - destruct (Qeq_bool _ 0); [|done].
    destruct (_ !! _) eqn:E; [|done]. intros [= <- <-]. auto.
Qed.

Lemma lines_for_segment_spec (type : N) (segment : Segment)
    (s s' : ExportState) (lines : list SwcLine) :
  export_inv s ->
  lines_for_segment type segment s = Ok lines s' ->
  export_inv s' /\
  line_index <$> lines = seqZ (line_count s) (Z.of_nat (length lines)) /\
  line_count s' = line_count s + Z.of_nat (length lines) /\
  length lines = lines_of_segment segment /\
  Forall line_ok lines.
Proof.
  intros (Hc & Hd & Hp). unfold lines_for_segment, lines_of_segment.
  unfold bind at 1.
  assert (Hpl : forall v s1,
    match parent segment with
    | Some p => parent_line_of p
    | None => ret (-1)
    end s = Ok v s1 -> s1 = s /\ (v = -1 \/ 1 <= v < line_count s)).
  { intros v s1. destruct (parent segment) as [p|].
    - intros (-> & [H|H])%parent_line_of_ok; split; auto; right; eauto.
    - intros [= <- <-]. auto. }
  destruct (match parent segment with
            | Some p => parent_line_of p
            | None => ret (-1)
            end s) as [v s1|e s1]; [|done].
  destruct (Hpl v s1 eq_refl) as [-> Hv]. clear Hpl.
  destruct (proximal segment) as [prox|], (distal segment) as [dist|];
    simpl; try discriminate; intros [= <- <-]; simpl.
  - split; [|split; [|split; [lia|split; [done|]]]].
    + unfold export_inv; simpl. split; [lia|]. split; intros k v'.
      * rewrite lookup_insert. case_decide; [intros [= <-]; lia|].
        intros H'%Hd. lia.
      * rewrite lookup_insert. case_decide; [intros [= <-]; lia|].
        intros H'%Hp. lia.
    + rewrite seqZ_cons by lia. rewrite seqZ_cons by lia.
      rewrite seqZ_nil by lia. f_equal.
    + apply Forall_cons_2; [|apply Forall_cons_2; [|apply Forall_nil_2]];
        unfold line_ok; simpl; lia.
  - split; [|split; [|split; [lia|split; [done|]]]].
    + unfold export_inv; simpl. split; [lia|]. split; intros k v'.
      * rewrite lookup_insert. case_decide; [intros [= <-]; lia|].
        intros H'%Hd. lia.
      * intros H'%Hp. lia.
    + rewrite seqZ_cons by lia. by rewrite seqZ_nil by lia.
    + apply Forall_cons_2; [|apply Forall_nil_2]; unfold line_ok; simpl; lia.
Qed.

Lemma lines_for_segments_spec (type : N) (segs : list Segment) :
  forall (s s' : ExportState) (lines : list SwcLine) (ids : list Z),
    export_inv s ->
    lines_for_segments type segs s = Ok (lines, ids) s' ->
    export_inv s' /\
    line_index <$> lines = seqZ (line_count s) (Z.of_nat (length lines)) /\
    line_count s' = line_count s + Z.of_nat (length lines) /\
    length lines = (length segs + length (explicit_proximals segs))%nat /\
    Forall line_ok lines.
Proof.
  induction segs as [|segment segs IH]; intros s s' lines ids Hinv; simpl.
  - intros [= <- _ <-]. simpl. rewrite Z.add_0_r.
    split; [done|]. split; [done|]. split; [done|]. split; [done|].
    apply Forall_nil_2.
  - unfold bind at 1.
    destruct (lines_for_segment type segment s) as [here s1|e s1] eqn:E1; [|done].
    unfold bind at 1.
    destruct (lines_for_segments type segs s1) as [[rest ids'] s2|e s2] eqn:E2;
      [|done].
    intros [= <- _ <-].
    destruct (lines_for_segment_spec _ _ _ _ _ Hinv E1)
      as (Hinv1 & Hidx1 & Hc1 & Hlen1 & Hok1).
    destruct (IH _ _ _ _ Hinv1 E2) as (Hinv2 & Hidx2 & Hc2 & Hlen2 & Hok2).
    cbn [fst]. rewrite length_app, fmap_app, Hidx1, Hidx2, Hc1.
    split; [done|]. split.
    { rewrite Nat2Z.inj_add. rewrite seqZ_app by lia. done. }
    split; [lia|]. split.
    { rewrite Hlen1, Hlen2. unfold explicit_proximals, lines_of_segment.
      destruct (proximal segment) eqn:Ep.
      - rewrite filter_cons_True by (rewrite Ep; eauto). simpl. lia.
      - rewrite filter_cons_False by (rewrite Ep; by intros [? ?]). simpl. lia. }
    by apply Forall_app.
Qed.

Section Exporter.

Variable get_ordered_segments_in_groups :
  Cell -> list string -> gmap string (list Segment).

Lemma get_lines_group_segments (cell : Cell) (sg : string) (type : N) :
  _get_lines_for_seg_group get_ordered_segments_in_groups cell sg type
  = lines_for_segments type (group_segments get_ordered_segments_in_groups cell sg).
Proof.
  unfold _get_lines_for_seg_group, group_segments.
  by destruct (get_ordered_segments_in_groups cell [sg] !! sg).
Qed.

(** What [convert_cell] does, by cases on the three walks. *)
Lemma convert_cell_cases (base_dir : string) (lines : list SwcLine) (cell : Cell)
    (s : ExportState) :
  let name := swc_file_name base_dir cell in
  let walk := _get_lines_for_seg_group get_ordered_segments_in_groups cell in
  let s0 := set_files (insert name []) s in
  (exists e s1, walk "soma_group" 1%N s0 = Raise e s1 /\
     convert_cell get_ordered_segments_in_groups base_dir lines cell s = Raise e s1) \/
  (exists soma s1 e s2,
     walk "soma_group" 1%N s0 = Ok soma s1 /\
     walk "dendrite_group" 3%N s1 = Raise e s2 /\
     convert_cell get_ordered_segments_in_groups base_dir lines cell s = Raise e s2) \/
  (exists soma s1 dend s2 e s3,
     walk "soma_group" 1%N s0 = Ok soma s1 /\
     walk "dendrite_group" 3%N s1 = Ok dend s2 /\
     walk "axon_group" 2%N s2 = Raise e s3 /\
     convert_cell get_ordered_segments_in_groups base_dir lines cell s = Raise e s3) \/
  (exists soma s1 dend s2 axon s3,
     walk "soma_group" 1%N s0 = Ok soma s1 /\
     walk "dendrite_group" 3%N s1 = Ok dend s2 /\
     walk "axon_group" 2%N s2 = Ok axon s3 /\
     convert_cell get_ordered_segments_in_groups base_dir lines cell s =
       if negb (length (c_segments cell)
                  =? length soma.2 + length dend.2 + length axon.2)%nat
       then Raise IncompleteGroupCoverageError s3
       else Ok (lines ++ soma.1 ++ dend.1 ++ axon.1)
               (set_files (alter (fun written =>
                  written ++ lines ++ soma.1 ++ dend.1 ++ axon.1) name) s3)).
Proof.
  intros name walk s0. unfold convert_cell, bind, modify, ret, raise.
  fold name. fold s0. fold walk.
  destruct (walk "soma_group" 1%N s0) as [soma s1|e s1] eqn:E1; [|left; eauto].
  destruct (walk "dendrite_group" 3%N s1) as [dend s2|e s2] eqn:E2;
    [|right; left; eauto 10].
  destruct (walk "axon_group" 2%N s2) as [axon s3|e s3] eqn:E3;
    [|right; right; left; eauto 10].
  right. right. right. exists soma, s1, dend, s2, axon, s3.
  split; [done|]. split; [done|]. split; [done|].
  rewrite <- !app_assoc. by destruct (negb _).
Qed.

Lemma convert_cell_ok (base_dir : string) (lines lines' : list SwcLine)
    (cell : Cell) (s s' : ExportState) :
  export_inv s ->
  convert_cell get_ordered_segments_in_groups base_dir lines cell s = Ok lines' s' ->
  exists new,
    lines' = lines ++ new /\
    files s' !! swc_file_name base_dir cell = Some (lines ++ new) /\
    (forall other, other <> swc_file_name base_dir cell ->
                   files s' !! other = files s !! other) /\
    export_inv s' /\
    line_index <$> new = seqZ (line_count s) (Z.of_nat (length new)) /\
    line_count s' = line_count s + Z.of_nat (length new) /\
    Forall line_ok new /\
    length (c_segments cell)
      = length (walked_segments get_ordered_segments_in_groups cell) /\
    length new = (length (walked_segments get_ordered_segments_in_groups cell)
                  + length (explicit_proximals
                              (walked_segments get_ordered_segments_in_groups
                                 cell)))%nat.
Proof.
  intros Hinv Hrun.
  destruct (convert_cell_cases base_dir lines cell s)
    as [(e & s1 & _ & H)|[(soma & s1 & e & s2 & _ & _ & H)|
        [(soma & s1 & dend & s2 & e & s3 & _ & _ & _ & H)|
         (soma & s1 & dend & s2 & axon & s3 & E1 & E2 & E3 & H)]]];
    rewrite H in Hrun; try discriminate.
  destruct (negb _) eqn:Hcov; [discriminate|].
  injection Hrun as <- <-.
  apply negb_false_iff, Nat.eqb_eq in Hcov.
  pose proof (get_lines_keeps_files get_ordered_segments_in_groups
                cell "soma_group" 1%N) as F1.
  pose proof (get_lines_keeps_files get_ordered_segments_in_groups
                cell "dendrite_group" 3%N) as F2.
  pose proof (get_lines_keeps_files get_ordered_segments_in_groups
                cell "axon_group" 2%N) as F3.
  specialize (F1 (set_files (insert (swc_file_name base_dir cell) []) s)).
  specialize (F2 s1). specialize (F3 s2).
  rewrite E1 in F1. rewrite E2 in F2. rewrite E3 in F3. simpl in F1, F2, F3.
  rewrite get_lines_group_segments in E1, E2, E3.
  destruct soma as [l1 i1], dend as [l2 i2], axon as [l3 i3].
  pose proof (lines_for_segments_ids _ _ _ _ _ _ E1) as I1.
  pose proof (lines_for_segments_ids _ _ _ _ _ _ E2) as I2.
  pose proof (lines_for_segments_ids _ _ _ _ _ _ E3) as I3.
  assert (Hinv0 : export_inv (set_files (insert (swc_file_name base_dir cell) []) s))
    by exact Hinv.
  destruct (lines_for_segments_spec _ _ _ _ _ _ Hinv0 E1)
    as (Hinv1 & X1 & C1 & L1 & K1).
  destruct (lines_for_segments_spec _ _ _ _ _ _ Hinv1 E2)
    as (Hinv2 & X2 & C2 & L2 & K2).
  destruct (lines_for_segments_spec _ _ _ _ _ _ Hinv2 E3)
    as (Hinv3 & X3 & C3 & L3 & K3).
  simpl in *. exists (l1 ++ l2 ++ l3).
  split; [done|]. split.
  { rewrite lookup_alter_eq, F3, F2, F1, lookup_insert_eq. done. }
  split.
  { intros other Hne. rewrite lookup_alter_ne by done.
    rewrite F3, F2, F1. by rewrite lookup_insert_ne. }
  split; [exact Hinv3|].
  rewrite !length_app, !fmap_app, X1, X2, X3, C3, C2, C1.
  split.
  { by rewrite !Nat2Z.inj_add, !seqZ_app by lia. }
  split; [lia|]. split; [by rewrite !Forall_app|].
  unfold walked_segments, explicit_proximals in *.
  rewrite !filter_app, !length_app. subst i1 i2 i3.
  rewrite !length_fmap in Hcov. split; lia.
Qed.

Lemma reset_export_inv (fs : gmap string (list SwcLine)) :
  export_inv (mkExportState 1 ∅ ∅ fs).
Proof.
  unfold export_inv. simpl. split; [done|].
  split; intros k v; by rewrite lookup_empty.
Qed.

(** X18: a finished export of one cell gives a well-formed point tree file. *)
Theorem exported_lines_numbered (base_dir : string) (cell : Cell)
    (s0 s' : ExportState) :
  convert_to_swc get_ordered_segments_in_groups base_dir [cell] s0 = Ok tt s' ->
  exists lines,
    files s' !! swc_file_name base_dir cell = Some lines /\
    line_index <$> lines = seqZ 1 (Z.of_nat (length lines)) /\
    Forall line_ok lines /\
    length lines = (length (c_segments cell)
                    + length (explicit_proximals
                                (walked_segments get_ordered_segments_in_groups
                                   cell)))%nat /\
    line_count s' = 1 + Z.of_nat (length lines).
Proof.
  unfold convert_to_swc, convert_cells, bind, modify, ret.
  destruct (convert_cell _ _ _ _ _) as [lines s1|e s1] eqn:E; [|done].
  intros [= <-].
  apply convert_cell_ok in E as (new & -> & Hfile & _ & _ & Hidx & Hc & Hok & Hcov & Hlen);
    [|apply reset_export_inv].
  exists new. simpl in *. rewrite Hcov. done.
Qed.

(** X19: a failed export of one cell leaves the cell's file empty. *)
Theorem failed_export_writes_no_line (base_dir : string) (cell : Cell)
    (s0 s' : ExportState) (e : exn) :
  convert_to_swc get_ordered_segments_in_groups base_dir [cell] s0 = Raise e s' ->
  files s' !! swc_file_name base_dir cell = Some [].
Proof.
  unfold convert_to_swc, convert_cells, bind, modify, ret.
  set (s := mkExportState 1 ∅ ∅ (files s0)).
  pose proof (get_lines_keeps_files get_ordered_segments_in_groups
                cell "soma_group" 1%N) as F1.
  pose proof (get_lines_keeps_files get_ordered_segments_in_groups
                cell "dendrite_group" 3%N) as F2.
  pose proof (get_lines_keeps_files get_ordered_segments_in_groups
                cell "axon_group" 2%N) as F3.
  specialize (F1 (set_files (insert (swc_file_name base_dir cell) []) s)).
  destruct (convert_cell_cases base_dir [] cell s)
    as [(e1 & s1 & E1 & H)|[(soma & s1 & e1 & s2 & E1 & E2 & H)|
        [(soma & s1 & dend & s2 & e1 & s3 & E1 & E2 & E3 & H)|
         (soma & s1 & dend & s2 & axon & s3 & E1 & E2 & E3 & H)]]];
    rewrite H; clear H.
  - intros [= _ <-]. rewrite E1 in F1. simpl in F1.
    rewrite F1. apply lookup_insert_eq.
  - intros [= _ <-]. specialize (F2 s1). rewrite E1 in F1. rewrite E2 in F2.
    simpl in F1, F2. rewrite F2, F1. apply lookup_insert_eq.
  - intros [= _ <-]. specialize (F2 s1). specialize (F3 s2).
    rewrite E1 in F1. rewrite E2 in F2. rewrite E3 in F3.
    simpl in F1, F2, F3. rewrite F3, F2, F1. apply lookup_insert_eq.
  - destruct (negb _); [|done]. intros [= _ <-].
    specialize (F2 s1). specialize (F3 s2).
    rewrite E1 in F1. rewrite E2 in F2. rewrite E3 in F3.
    simpl in F1, F2, F3. rewrite F3, F2, F1. apply lookup_insert_eq.
Qed.

(** X20: with two cells in the document, the file of the second cell holds
    the lines of the first cell followed by its own, and the numbering runs
    on from the first cell. *)
Theorem second_cell_file_repeats_first (base_dir : string) (cell1 cell2 : Cell)
    (s0 s' : ExportState) :
  swc_file_name base_dir cell1 <> swc_file_name base_dir cell2 ->
  convert_to_swc get_ordered_segments_in_groups base_dir [cell1; cell2] s0
    = Ok tt s' ->
  exists lines1 lines2,
    files s' !! swc_file_name base_dir cell1 = Some lines1 /\
    files s' !! swc_file_name base_dir cell2 = Some (lines1 ++ lines2) /\
    line_index <$> lines1 ++ lines2
      = seqZ 1 (Z.of_nat (length (lines1 ++ lines2))) /\
    length lines2 = (length (c_segments cell2)
                     + length (explicit_proximals
                                 (walked_segments get_ordered_segments_in_groups
                                    cell2)))%nat.
Proof.
  intros Hne. unfold convert_to_swc, convert_cells, bind, modify, ret.
  destruct (convert_cell _ _ _ cell1 _) as [l1 s1|e s1] eqn:E1; [|done].
  destruct (convert_cell _ _ _ cell2 _) as [l2 s2|e s2] eqn:E2; [|done].
  intros [= <-].
  apply convert_cell_ok in E1
    as (new1 & -> & Hfile1 & _ & Hinv1 & Hidx1 & Hc1 & _ & _ & _);
    [|apply reset_export_inv].
  apply convert_cell_ok in E2
    as (new2 & -> & Hfile2 & Hother & _ & Hidx2 & _ & _ & Hcov2 & Hlen2);
    [|exact Hinv1].
  simpl in *. exists new1, new2.
  split; [by rewrite Hother|]. split; [exact Hfile2|]. split.
  - rewrite fmap_app, length_app, Hidx1, Hidx2, Hc1.
    by rewrite Nat2Z.inj_add, seqZ_app by lia.
  - by rewrite Hcov2.
Qed.

End Exporter.

(** X21: a segment whose parent has no recorded line is refused. *)
Theorem unexported_parent_raises_key_error (type : N) (segment : Segment)
    (p : SegmentParent) (s : ExportState) :
  parent segment = Some p ->
  ((Qabs (fraction_along p - 1) < tolerance)%Q /\
   line_index_vs_distals s !! parent_segments p = None) \/
  ((fraction_along p == 0)%Q /\
   line_index_vs_proximals s !! parent_segments p = None) ->
  lines_for_segment type segment s = Raise KeyError s.
Proof.
  intros Hp H. unfold lines_for_segment, bind. rewrite Hp.
  destruct H as [[Hf Hd]|[Hf Hd]].
  - rewrite parent_line_near_one by done. unfold dict_get. by rewrite Hd.
  - rewrite parent_line_zero by done. unfold dict_get. by rewrite Hd.
Qed.

Lemma unexported_parent_raises_key_error_witness :
  lines_for_segment 3%N (ex7_dend 0) (set_distals (insert 0 2) empty_export_state)
  = Raise KeyError (set_distals (insert 0 2) empty_export_state).
Proof.
  apply (unexported_parent_raises_key_error 3%N (ex7_dend 0)
           (mkSegmentParent 0 0)).
  - reflexivity.
  - right. split; [reflexivity | vm_compute; reflexivity].
Defined.

Lemma exported_lines_numbered_witness :
  exists lines,
    files (final_state (convert_to_swc ex_ordered_segments "dir"
                          [ex7_cell 1] empty_export_state))
      !! "dir/cell7.swc" = Some lines /\
    line_index <$> lines = [1; 2; 3].
Proof.
  destruct (exported_lines_numbered ex_ordered_segments "dir" (ex7_cell 1)
              empty_export_state
              (final_state (convert_to_swc ex_ordered_segments "dir"
                              [ex7_cell 1] empty_export_state)))
    as (lines & Hfile & Hidx & _ & Hlen & _).
  - vm_compute. reflexivity.
  - exists lines. split; [exact Hfile|].
    rewrite Hidx, Hlen. vm_compute. reflexivity.
Defined.

Lemma failed_export_writes_no_line_witness :
  files (final_state (convert_to_swc ex_ordered_segments "dir"
                        [ex7_cell (1 # 2)] empty_export_state))
    !! "dir/cell7.swc" = Some [].
Proof.
  apply (failed_export_writes_no_line ex_ordered_segments "dir"
           (ex7_cell (1 # 2)) empty_export_state _ UnsupportedAttachmentError).
  vm_compute. reflexivity.
Defined.

Lemma second_cell_file_repeats_first_witness :
  exists lines1 lines2,
    files (final_state (convert_to_swc ex_ordered_segments "dir"
                          [ex7_cell 1; ex10_cell] empty_export_state))
      !! "dir/cell10.swc" = Some (lines1 ++ lines2) /\
    length lines1 = 3%nat /\ length lines2 = 3%nat.
Proof.
  destruct (second_cell_file_repeats_first ex_ordered_segments "dir"
              (ex7_cell 1) ex10_cell empty_export_state
              (final_state (convert_to_swc ex_ordered_segments "dir"
                              [ex7_cell 1; ex10_cell] empty_export_state)))
    as (lines1 & lines2 & H1 & H2 & _ & Hlen2).
  - vm_compute. discriminate.
  - vm_compute. reflexivity.
  - exists lines1, lines2. split; [exact H2|]. split.
    + vm_compute in H1. injection H1 as <-. reflexivity.
    + rewrite Hlen2. vm_compute. reflexivity.
Defined.

Local Close Scope m_scope.
